(** * W3C microdata extraction (package [extractor])

    A shallow embedding of the microdata walker of go-microdata-extract:
    [W3CMicrodata], [parseW3CMicrodata], [parseProperties], [getAttr],
    [getAttrVal], [appendValue] and [getTextContent], together with the
    pieces of the Go standard library and of golang.org/x/net/html that
    the walker relies on.

    Conventions.
    - A Go [string] is a sequence of bytes: [string] of Rocq.
    - A [*html.Node] is a finite tree; the [FirstChild]/[NextSibling]
      chain of a node is the list [Children].
    - [map[string]any] is a [gmap string any]; a missing key reads as the
      nil interface, modelled by [None].
    - Pointers to freshly allocated values that are never shared
      ([*MicrodataItem], [*string]) are modelled by their pointees;
      [ID = None] is the nil pointer.
    - [html.Parse] and [url.Parse] are external: they are variables of the
      section that holds the walker. *)

From Stdlib Require Import String Ascii List Arith Lia.
From stdpp Require Import gmap strings list fin_maps.

#[local] Set Warnings "-register-all".
#[local] Open Scope string_scope.

(** ** The functions of Go's [strings] package used by the extractor *)

Module strings.

(** [strings.HasPrefix]:
    [len(s) >= len(prefix) && s[:len(prefix)] == prefix]. *)
Definition HasPrefix (s prefix : string) : bool :=
  Nat.leb (String.length prefix) (String.length s)
  && String.eqb (substring 0 (String.length prefix) s) prefix.

(** [strings.HasSuffix]:
    [len(s) >= len(suffix) && s[len(s)-len(suffix):] == suffix]. *)
Definition HasSuffix (s suffix : string) : bool :=
  Nat.leb (String.length suffix) (String.length s)
  && String.eqb
       (substring (String.length s - String.length suffix)
                  (String.length suffix) s)
       suffix.

(** The UTF-8 encodings of the code points for which [unicode.IsSpace]
    holds: TAB, LF, VT, FF, CR, SPACE, U+0085, U+00A0, U+1680,
    U+2000..U+200A, U+2028, U+2029, U+202F, U+205F, U+3000. *)
Definition space_runes : list (list nat) :=
  [ [9]; [10]; [11]; [12]; [13]; [32];
    [194; 133]; [194; 160];
    [225; 154; 128];
    [226; 128; 128]; [226; 128; 129]; [226; 128; 130]; [226; 128; 131];
    [226; 128; 132]; [226; 128; 133]; [226; 128; 134]; [226; 128; 135];
    [226; 128; 136]; [226; 128; 137]; [226; 128; 138];
    [226; 128; 168]; [226; 128; 169]; [226; 128; 175];
    [226; 129; 159];
    [227; 128; 128] ].

Definition space_bytes : list (list ascii) :=
  map (map ascii_of_nat) space_runes.

(** [strip p l] removes the byte sequence [p] from the front of [l]. *)
Fixpoint strip (p l : list ascii) : option (list ascii) :=
  match p, l with
  | [], _ => Some l
  | _ :: _, [] => None
  | a :: p', b :: l' => if Ascii.eqb a b then strip p' l' else None
  end.

(** The input without its first rune, when that rune is white space. *)
Fixpoint strip_space (runes : list (list ascii)) (l : list ascii)
  : option (list ascii) :=
  match runes with
  | [] => None
  | r :: runes' =>
      match strip r l with
      | Some rest => Some rest
      | None => strip_space runes' l
      end
  end.

(** [strings.TrimLeftFunc(s, unicode.IsSpace)] on bytes; every round
    removes at least one byte, so [length l] rounds are enough. *)
Fixpoint trim_left (fuel : nat) (runes : list (list ascii))
         (l : list ascii) : list ascii :=
  match fuel with
  | O => l
  | S fuel' =>
      match strip_space runes l with
      | Some rest => trim_left fuel' runes rest
      | None => l
      end
  end.

(** [strings.TrimSpace]: leading and trailing white space removed.  The
    trailing runes are found by matching the reversed encodings on the
    reversed string: every encoding above is one start byte followed
    by continuation bytes, which is what [utf8.DecodeLastRune] reads. *)
Definition TrimSpace (s : string) : string :=
  let l := list_ascii_of_string s in
  let l1 := trim_left (length l) space_bytes l in
  let r := rev l1 in
  let r1 := trim_left (length r) (map (@rev ascii) space_bytes) r in
  string_of_list_ascii (rev r1).

End strings.

(** ** The DOM of golang.org/x/net/html *)

Module html.

Inductive NodeType : Type :=
  | ErrorNode
  | TextNode
  | DocumentNode
  | ElementNode
  | CommentNode
  | DoctypeNode
  | RawNode.

Definition NodeType_eqb (a b : NodeType) : bool :=
  match a, b with
  | ErrorNode, ErrorNode | TextNode, TextNode
  | DocumentNode, DocumentNode | ElementNode, ElementNode
  | CommentNode, CommentNode | DoctypeNode, DoctypeNode
  | RawNode, RawNode => true
  | _, _ => false
  end.

Record Attribute : Type :=
  mkAttr { Namespace : string; Key : string; Val : string }.

Inductive Node : Type :=
  mkNode { Type_ : NodeType;
           Data : string;
           Attr : list Attribute;
           Children : list Node }.

End html.

Import html.

(** ** [net/url]: the two fields of a parsed URL that the walker reads *)

Module url.
Record URL : Type := mkURL { Scheme : string; Host : string }.
End url.

(** *** [url.Parse] on plain raw URLs

    [url.Parse] is a parameter of the walker.  The concrete examples need
    an instance of it: [plain_url_Parse] follows [url.Parse] (and the
    [parse], [getScheme] and [parseHost] it calls) on the raw URLs that are
    made of letters, digits and the bytes [- . _ ~ / :] and whose authority
    holds at most one colon.  On these the control characters, the
    fragment, the query, the user information, the brackets and the
    escapes that [url.Parse] looks for do not occur, and what is left of
    it is below.  On every other raw URL [plain_url_Parse] returns [None],
    which says nothing about [url.Parse]; no example uses one. *)

Definition is_upper (c : ascii) : bool :=
  Nat.leb 65 (nat_of_ascii c) && Nat.leb (nat_of_ascii c) 90.

Definition is_lower (c : ascii) : bool :=
  Nat.leb 97 (nat_of_ascii c) && Nat.leb (nat_of_ascii c) 122.

Definition is_digit (c : ascii) : bool :=
  Nat.leb 48 (nat_of_ascii c) && Nat.leb (nat_of_ascii c) 57.

Definition plain_byte (c : ascii) : bool :=
  is_upper c || is_lower c || is_digit c
  || existsb (Ascii.eqb c) ["-"; "."; "_"; "~"; "/"; ":"]%char.

Fixpoint all_bytes (p : ascii -> bool) (s : string) : bool :=
  match s with
  | EmptyString => true
  | String c r => p c && all_bytes p r
  end.

(** [strings.ToLower] on ASCII. *)
Fixpoint ToLower (s : string) : string :=
  match s with
  | EmptyString => EmptyString
  | String c r =>
      String (if is_upper c then ascii_of_nat (nat_of_ascii c + 32) else c)
             (ToLower r)
  end.

(** The part before the first [/], and the rest from that [/] on. *)
Fixpoint split_at_slash (s : string) : string * string :=
  match s with
  | EmptyString => (EmptyString, EmptyString)
  | String c r =>
      if Ascii.eqb c "/"%char then (EmptyString, s)
      else let '(h, t) := split_at_slash r in (String c h, t)
  end.

(** The loop of [getScheme]: [first] holds at the first byte, [scheme]
    are the bytes read, [rest] those to read; [None] is the error
    [missing protocol scheme]. *)
Fixpoint getScheme_loop (first : bool) (scheme rest rawURL : string)
  : option (string * string) :=
  match rest with
  | EmptyString => Some ("", rawURL)
  | String c rest' =>
      if is_lower c || is_upper c then
        getScheme_loop false (scheme +:+ String c "") rest' rawURL
      else if is_digit c
              || existsb (Ascii.eqb c) ["+"; "-"; "."]%char then
        if first then Some ("", rawURL)
        else getScheme_loop false (scheme +:+ String c "") rest' rawURL
      else if Ascii.eqb c ":"%char then
        if first then None else Some (scheme, rest')
      else Some ("", rawURL)
  end.

Definition getScheme (rawURL : string) : option (string * string) :=
  getScheme_loop true "" rawURL rawURL.

(** What follows the last colon of a string, when it has one:
    [host[strings.LastIndex(host, ":")+1:]]. *)
Fixpoint after_last_colon (s : string) : option string :=
  match s with
  | EmptyString => None
  | String c r =>
      match after_last_colon r with
      | Some t => Some t
      | None => if Ascii.eqb c ":"%char then Some r else None
      end
  end.

Fixpoint count_colons (s : string) : nat :=
  match s with
  | EmptyString => 0
  | String c r =>
      if Ascii.eqb c ":"%char then S (count_colons r) else count_colons r
  end.

(** [parseHost] on an authority without brackets: what follows its last
    colon is a port, that is digits only, or the error [invalid port]
    is returned.  An authority with several colons is left out. *)
Definition parseHost (host : string) : option string :=
  match after_last_colon host with
  | None => Some host
  | Some port =>
      if negb (all_bytes is_digit port) then None
      else if Nat.eqb (count_colons host) 1 then Some host
      else None
  end.

Definition plain_url_Parse (rawURL : string) : option url.URL :=
  if negb (all_bytes plain_byte rawURL) then None
  else
    match getScheme rawURL with
    | None => None
    | Some (scheme, rest) =>
        let scheme := ToLower scheme in
        if negb (strings.HasPrefix rest "/") then
          if negb (String.eqb scheme "") then
            (* [url.Opaque = rest] *)
            Some (url.mkURL scheme "")
          else if negb (all_bytes (fun c => negb (Ascii.eqb c ":"%char))
                          (fst (split_at_slash rest))) then
            (* [first path segment in URL cannot contain colon] *)
            None
          else Some (url.mkURL scheme "")
        else if (negb (String.eqb scheme "")
                 || negb (strings.HasPrefix rest "///"))
                && strings.HasPrefix rest "//" then
          let authority :=
            fst (split_at_slash (substring 2 (String.length rest - 2) rest)) in
          match parseHost authority with
          | Some host => Some (url.mkURL scheme host)
          | None => None
          end
        else Some (url.mkURL scheme "")
    end.

(** ** The extractor *)

(** [MicrodataItem] and the dynamic values ([any]) stored in its property
    map: a string, a pointer to a nested item, or a slice [[]any]. *)
Inductive any : Type :=
  | VString (s : string)
  | VItem (i : MicrodataItem)
  | VSlice (l : list any)
with MicrodataItem : Type :=
  | mkItem (Type_ : string) (ID : option string)
           (Properties : gmap string any).

Definition Type_ (i : MicrodataItem) : string :=
  match i with mkItem t _ _ => t end.
Definition ID (i : MicrodataItem) : option string :=
  match i with mkItem _ d _ => d end.
Definition Properties (i : MicrodataItem) : gmap string any :=
  match i with mkItem _ _ p => p end.

(** [item.Type = t] and [item.ID = &s]. *)
Definition set_Type (t : string) (i : MicrodataItem) : MicrodataItem :=
  mkItem t (ID i) (Properties i).
Definition set_ID (s : string) (i : MicrodataItem) : MicrodataItem :=
  mkItem (Type_ i) (Some s) (Properties i).

(** [item.Properties[prop] = v]. *)
Definition set_Property (prop : string) (v : any) (i : MicrodataItem)
  : MicrodataItem :=
  mkItem (Type_ i) (ID i) (<[prop := v]> (Properties i)).

(** The walker never builds an error. *)
Inductive error : Type := mkError (msg : string).

(** [getAttr]: is there an attribute named [key]? *)
Fixpoint getAttr_loop (attrs : list Attribute) (key : string) : bool :=
  match attrs with
  | [] => false
  | attr :: rest =>
      if String.eqb (Key attr) key then true else getAttr_loop rest key
  end.

Definition getAttr (n : Node) (key : string) : bool :=
  getAttr_loop (Attr n) key.

(** [getAttrVal]: the trimmed value of the first attribute named [key],
    the empty string when there is none. *)
Fixpoint getAttrVal_loop (attrs : list Attribute) (key : string) : string :=
  match attrs with
  | [] => ""
  | attr :: rest =>
      if String.eqb (Key attr) key then strings.TrimSpace (Val attr)
      else getAttrVal_loop rest key
  end.

Definition getAttrVal (n : Node) (key : string) : string :=
  getAttrVal_loop (Attr n) key.

(** [appendValue]: [existing] is the current content of the slot, [None]
    for the nil interface. *)
Definition appendValue (existing : option any) (value : any) : any :=
  match existing with
  | None => value
  | Some (VSlice v) => VSlice (v ++ [value])%list
  | Some e => VSlice [e; value]
  end.

(** The loop of [getTextContent] that reads the [value] attribute: the
    untrimmed value of the first attribute with that key. *)
Fixpoint value_loop (attrs : list Attribute) : string :=
  match attrs with
  | [] => ""
  | attr :: rest =>
      if String.eqb (Key attr) "value" then Val attr else value_loop rest
  end.

(** The closure [f] of [getTextContent], with the [strings.Builder] it
    writes to passed in and out. *)
Fixpoint getTextContent_f (n : Node) (sb : string) : string :=
  match n with
  | mkNode t data attrs children =>
      let sb :=
        match t with
        | TextNode => if String.eqb sb "" then sb +:+ data else sb
        | ElementNode =>
            let val := value_loop attrs in
            sb +:+ val
        | _ => sb
        end in
      fold_left (fun sb c => getTextContent_f c sb) children sb
  end.

Definition getTextContent (n : Node) : string :=
  strings.TrimSpace (getTextContent_f n "").

(** *** Named pieces of [getTextContent] and of the item constructors *)


(** The item allocated for an [itemscope] element before its properties
    are scanned, with [Type] and [ID] read from [itemtype] and [itemid]:
    the statements that open the [itemscope] branch of [parseNode] and
    the nested branch of [parseProperties]. *)
Definition newItem (n : Node) : MicrodataItem :=
  let item := mkItem "" None ∅ in
  let itemType := getAttrVal n "itemtype" in
  let item := if negb (String.eqb itemType "") then set_Type itemType item
              else item in
  let itemID := getAttrVal n "itemid" in
  let item := if negb (String.eqb itemID "") then set_ID itemID item
              else item in
  item.

(** ** Vocabulary of the specification *)

(** The untrimmed value of the first attribute named [key], when the
    element carries such an attribute. *)
Fixpoint lookupAttr_loop (attrs : list Attribute) (key : string)
  : option string :=
  match attrs with
  | [] => None
  | attr :: rest =>
      if String.eqb (Key attr) key then Some (Val attr)
      else lookupAttr_loop rest key
  end.

Definition lookupAttr (n : Node) (key : string) : option string :=
  lookupAttr_loop (Attr n) key.

(** [c] is a property-bearing element that is not itself an item: an
    element whose trimmed [itemprop] is the non-empty name [prop] and
    that has no [itemscope]. *)
Definition property_element (c : Node) (prop : string) : Prop :=
  html.Type_ c = ElementNode /\ getAttrVal c "itemprop" = prop
  /\ prop <> "" /\ getAttr c "itemscope" = false.

(** [c] is an element that is both a property and a nested item. *)
Definition item_property_element (c : Node) (prop : string) : Prop :=
  html.Type_ c = ElementNode /\ getAttrVal c "itemprop" = prop
  /\ prop <> "" /\ getAttr c "itemscope" = true.

(** The URL rule looks at the property name only. *)
Definition url_rule (prop : string) : bool :=
  String.eqb prop "url" || strings.HasSuffix prop "Url".


(** The nodes of a subtree in document order (pre-order). *)
Fixpoint preorder (n : Node) : list Node :=
  match n with
  | mkNode _ _ _ children => n :: flat_map preorder children
  end.







(** [scanned n c]: the property scan of [n] reaches [c], that is [c] is a
    child of [n], or is reached by the scan of a child element of [n]
    that declares no property name. *)
Inductive scanned (n : Node) : Node -> Prop :=
  | scanned_child c :
      In c (Children n) -> scanned n c
  | scanned_through m c :
      In m (Children n) -> html.Type_ m = ElementNode ->
      getAttrVal m "itemprop" = "" -> scanned m c -> scanned n c.

(** Does the subtree hold an element with [itemscope]? *)
Fixpoint hasItemscope (n : Node) : bool :=
  match n with
  | mkNode _ _ _ children =>
      (NodeType_eqb (html.Type_ n) ElementNode && getAttr n "itemscope")
      || existsb hasItemscope children
  end.

Definition is_slice (v : any) : bool :=
  match v with VSlice _ => true | _ => false end.

(** The content of a slot that received the values [vs], in this order. *)
Definition slot (vs : list any) : option any :=
  match vs with
  | [] => None
  | [v] => Some v
  | _ => Some (VSlice vs)
  end.

(** The slot [o] holds [v]: as its scalar, or as a member of its
    sequence. *)
Definition holds (o : option any) (v : any) : Prop :=
  o = Some v \/ exists l, o = Some (VSlice l) /\ In v l.

(** The values that a list of assignments gives to [prop], in order. *)
Definition values_for (prop : string) (l : list (string * any)) : list any :=
  map snd (List.filter (fun pv => String.eqb (fst pv) prop) l).

(** The slot [o] after the values [vs] have been appended to it, one
    call of [appendValue] each. *)
Definition accumulate (o : option any) (vs : list any) : option any :=
  fold_left (fun o v => Some (appendValue o v)) vs o.

(** [item.Properties[prop] = appendValue(item.Properties[prop], v)]. *)
Definition assign (item : MicrodataItem) (pv : string * any) : MicrodataItem :=
  set_Property (fst pv)
    (appendValue (Properties item !! fst pv) (snd pv)) item.


(** The elements at which the top-level walk opens an item, in document
    order: the [itemscope] elements that lie below no other [itemscope]
    element. *)
Fixpoint scope_roots (n : Node) : list Node :=
  match n with
  | mkNode _ _ _ children =>
      if NodeType_eqb (html.Type_ n) ElementNode && getAttr n "itemscope"
      then [n]
      else flat_map scope_roots children
  end.

(** A line feed, and a no-break space (U+00A0) in UTF-8. *)
Definition line_feed : string := String (ascii_of_nat 10) "".
Definition no_break_space : string :=
  String (ascii_of_nat 194) (String (ascii_of_nat 160) "").

(** *** Documents used in the examples *)

Definition text (data : string) : Node := mkNode TextNode data [] [].

Definition element (tag : string) (attrs : list Attribute)
           (children : list Node) : Node :=
  mkNode ElementNode tag attrs children.

Definition attr (key val : string) : Attribute := mkAttr "" key val.

(** A document as [html.Parse] builds it around the content of [body]. *)
Definition document (body : list Node) : Node :=
  mkNode DocumentNode "" []
    [element "html" [] [element "head" [] []; element "body" [] body]].

(** Two sibling properties with the same name. *)
Definition color_item : Node :=
  element "div" [attr "itemscope" ""]
    [element "span" [attr "itemprop" "color"] [text "yellow"];
     element "span" [attr "itemprop" "color"] [text "green"]].

(** An anchor that is a [url] property. *)
Definition path_anchor : Node :=
  element "a" [attr "itemprop" "url"; attr "href" "/path"] [text "home"].





(** An item with an [itemid], and one whose [itemid] is empty. *)
Definition book_item : Node :=
  element "div" [attr "itemscope" ""; attr "itemid" "urn:isbn:0-374-22848-5"]
    [].

Definition empty_id_item : Node :=
  element "div" [attr "itemscope" ""; attr "itemid" ""] [].

(** A nested item that is a direct property of its parent item ... *)
Definition address_div : Node :=
  element "div" [attr "itemprop" "address"; attr "itemscope" ""]
    [element "span" [attr "itemprop" "city"] [text "Paris"]].

Definition person_item : Node :=
  element "div" [attr "itemscope" ""]
    [element "span" [attr "itemprop" "name"] [text "Ada"]; address_div].

(** ... and the same nested item inside a property element that is not
    an item. *)
Definition contact_div : Node :=
  element "div" [attr "itemprop" "contact"] [text "Ada"; address_div].

Definition wrapped_person_item : Node :=
  element "div" [attr "itemscope" ""] [contact_div].







(** The item whose properties are looked for in [children], and the page
    that holds this item only. *)
Definition item_of (children : list Node) : Node :=
  element "div" [attr "itemscope" ""] children.



(** A page without microdata, and a page around [color_item]. *)
Definition plain_page : Node :=
  document [element "p" [] [text "hello"]].

Definition color_page : Node := document [color_item].

(** An organization with an employee, both with type and id. *)
Definition organization_page : Node :=
  document
    [element "div"
       [attr "itemscope" ""; attr "itemtype" "http://schema.org/Organization";
        attr "itemid" "http://example.com/org/1"]
       [text " ";
        element "span" [attr "itemprop" "name"] [text "Example Organization"];
        text " ";
        element "div"
          [attr "itemprop" "employee"; attr "itemscope" "";
           attr "itemtype" "http://schema.org/Person";
           attr "itemid" "http://example.com/person/1"]
          [element "span" [attr "itemprop" "name"] [text "John Doe"]]]].

(** The [id] of the item built for an element: the trimmed value of its
    first [itemid] attribute when that is not empty. *)
Definition item_id (n : Node) : option string :=
  match lookupAttr n "itemid" with
  | Some v =>
      if String.eqb (strings.TrimSpace v) "" then None
      else Some (strings.TrimSpace v)
  | None => None
  end.

(** *** Vocabulary of the further properties of the walker *)

(** No element of the subtree has a property name that matches the URL
    rule. *)
Fixpoint url_free (n : Node) : bool :=
  match n with
  | mkNode _ _ _ children =>
      negb (url_rule (getAttrVal n "itemprop")) && forallb url_free children
  end.

(** ** The configuration of the extractor (package [extract]) *)

Module extract.

(** [type Syntax string]. *)
Abbreviation Syntax := string (only parsing).

Definition SyntaxOpenGraph : Syntax := "opengraph".
Definition SyntaxXCards : Syntax := "xcards".
Definition SyntaxJSONLD : Syntax := "json-ld".
Definition SyntaxMicrodata : Syntax := "microdata".

Definition SYNTAXES : list Syntax :=
  [SyntaxOpenGraph; SyntaxXCards; SyntaxJSONLD; SyntaxMicrodata].

Record config : Type :=
  mkConfig { syntaxes : list Syntax;
             userAgent : string;
             (** a [uint8] *)
             fetchTimeout : Z }.

(** The extractor; [R] is the type of what the processors return, stored
    in [extracted] as [interface{}]. *)
Record Extractor {R : Type} : Type :=
  mkExtractor { cfg : config;
                url : string;
                content : string;
                extracted : gmap Syntax R;
                errs : list error }.
Arguments Extractor : clear implicits.

(** The loop of [index], [i] being the position of the head of [s] in the
    slice. *)
Fixpoint index_loop {E : Type} `{EqDecision E} (i : Z) (s : list E) (v : E)
  : Z :=
  match s with
  | [] => -1
  | x :: rest => if decide (v = x) then i else index_loop (i + 1) rest v
  end.

Definition index {E : Type} `{EqDecision E} (s : list E) (v : E) : Z :=
  index_loop 0 s v.

Definition contains {E : Type} `{EqDecision E} (s : list E) (v : E) : bool :=
  Z.geb (index s v) 0.

Definition setConfigDefaults {R : Type} (e : Extractor R) : Extractor R :=
  mkExtractor R
    (mkConfig SYNTAXES
       "go-microdata-extract (+https://github.com/aafeher/go-microdata-extract/blob/main/README.md)"
       3)
    (url e) (content e) (extracted e) (errs e).

Definition New {R : Type} : Extractor R :=
  let e := mkExtractor R (mkConfig [] "" 0) "" "" ∅ [] in
  setConfigDefaults e.

Definition SetSyntaxes {R : Type} (e : Extractor R) (syntaxes : list Syntax)
  : Extractor R :=
  if Nat.eqb (length syntaxes) 0 then e
  else
    let syntaxesToSet :=
      fold_left
        (fun syntaxesToSet syntax =>
           if contains SYNTAXES syntax
           then (syntaxesToSet ++ [syntax])%list
           else syntaxesToSet)
        syntaxes [] in
    if Nat.eqb (length syntaxesToSet) 0 then e
    else
      mkExtractor R
        (mkConfig syntaxesToSet (userAgent (cfg e)) (fetchTimeout (cfg e)))
        (url e) (content e) (extracted e) (errs e).

Definition SetUserAgent {R : Type} (e : Extractor R) (userAgent : string)
  : Extractor R :=
  mkExtractor R
    (mkConfig (syntaxes (cfg e)) userAgent (fetchTimeout (cfg e)))
    (url e) (content e) (extracted e) (errs e).

Definition SetFetchTimeout {R : Type} (e : Extractor R) (fetchTimeout : Z)
  : Extractor R :=
  mkExtractor R
    (mkConfig (syntaxes (cfg e)) (userAgent (cfg e)) fetchTimeout)
    (url e) (content e) (extracted e) (errs e).

(** The extractors that [New] and the setters can produce. *)
Inductive configured {R : Type} : Extractor R -> Prop :=
  | configured_New : configured New
  | configured_SetSyntaxes e l :
      configured e -> configured (SetSyntaxes e l)
  | configured_SetUserAgent e ua :
      configured e -> configured (SetUserAgent e ua)
  | configured_SetFetchTimeout e t :
      configured e -> configured (SetFetchTimeout e t).

End extract.

(** ** The structures of the meta-tag extractors

    Each Go structure is a module with its record [t], its zero value
    and one update function per field that the extractors assign.  An
    [int] is a [Z]; a [time.Time] is a value of the type [Time], a
    parameter; a pointer to a structure is an [option].  The fields [Type]
    and [Section] are written [Type_] and [Section_]. *)

Module OpenGraphImage.

Record t : Type :=
  mk { URL : string;
       SecureURL : string;
       Type_ : string;
       Width : Z;
       Height : Z;
       Alt : string }.

Definition zero : t :=
  mk "" "" "" 0%Z 0%Z "".

Definition set_URL (v : string) (r : t) : t :=
  mk v (SecureURL r) (Type_ r) (Width r) (Height r) (Alt r).
Definition set_SecureURL (v : string) (r : t) : t :=
  mk (URL r) v (Type_ r) (Width r) (Height r) (Alt r).
Definition set_Type_ (v : string) (r : t) : t :=
  mk (URL r) (SecureURL r) v (Width r) (Height r) (Alt r).
Definition set_Width (v : Z) (r : t) : t :=
  mk (URL r) (SecureURL r) (Type_ r) v (Height r) (Alt r).
Definition set_Height (v : Z) (r : t) : t :=
  mk (URL r) (SecureURL r) (Type_ r) (Width r) v (Alt r).
Definition set_Alt (v : string) (r : t) : t :=
  mk (URL r) (SecureURL r) (Type_ r) (Width r) (Height r) v.

End OpenGraphImage.

Module OpenGraphVideo.

Record t : Type :=
  mk { URL : string;
       SecureURL : string;
       Type_ : string;
       Width : Z;
       Height : Z }.

Definition zero : t :=
  mk "" "" "" 0%Z 0%Z.

Definition set_URL (v : string) (r : t) : t :=
  mk v (SecureURL r) (Type_ r) (Width r) (Height r).
Definition set_SecureURL (v : string) (r : t) : t :=
  mk (URL r) v (Type_ r) (Width r) (Height r).
Definition set_Type_ (v : string) (r : t) : t :=
  mk (URL r) (SecureURL r) v (Width r) (Height r).
Definition set_Width (v : Z) (r : t) : t :=
  mk (URL r) (SecureURL r) (Type_ r) v (Height r).
Definition set_Height (v : Z) (r : t) : t :=
  mk (URL r) (SecureURL r) (Type_ r) (Width r) v.

End OpenGraphVideo.

Module OpenGraphAudio.

Record t : Type :=
  mk { URL : string;
       SecureURL : string;
       Type_ : string }.

Definition zero : t :=
  mk "" "" "".

Definition set_URL (v : string) (r : t) : t :=
  mk v (SecureURL r) (Type_ r).
Definition set_SecureURL (v : string) (r : t) : t :=
  mk (URL r) v (Type_ r).
Definition set_Type_ (v : string) (r : t) : t :=
  mk (URL r) (SecureURL r) v.

End OpenGraphAudio.

Module XCardsImage.

Record t : Type :=
  mk { URL : string;
       SecureURL : string;
       Type_ : string;
       Width : Z;
       Height : Z;
       Alt : string }.

Definition zero : t :=
  mk "" "" "" 0%Z 0%Z "".

Definition set_URL (v : string) (r : t) : t :=
  mk v (SecureURL r) (Type_ r) (Width r) (Height r) (Alt r).
Definition set_SecureURL (v : string) (r : t) : t :=
  mk (URL r) v (Type_ r) (Width r) (Height r) (Alt r).
Definition set_Type_ (v : string) (r : t) : t :=
  mk (URL r) (SecureURL r) v (Width r) (Height r) (Alt r).
Definition set_Width (v : Z) (r : t) : t :=
  mk (URL r) (SecureURL r) (Type_ r) v (Height r) (Alt r).
Definition set_Height (v : Z) (r : t) : t :=
  mk (URL r) (SecureURL r) (Type_ r) (Width r) v (Alt r).
Definition set_Alt (v : string) (r : t) : t :=
  mk (URL r) (SecureURL r) (Type_ r) (Width r) (Height r) v.

End XCardsImage.

Module XCardsVideo.

Record t : Type :=
  mk { URL : string;
       SecureURL : string;
       Type_ : string;
       Width : Z;
       Height : Z }.

Definition zero : t :=
  mk "" "" "" 0%Z 0%Z.

Definition set_URL (v : string) (r : t) : t :=
  mk v (SecureURL r) (Type_ r) (Width r) (Height r).
Definition set_SecureURL (v : string) (r : t) : t :=
  mk (URL r) v (Type_ r) (Width r) (Height r).
Definition set_Type_ (v : string) (r : t) : t :=
  mk (URL r) (SecureURL r) v (Width r) (Height r).
Definition set_Width (v : Z) (r : t) : t :=
  mk (URL r) (SecureURL r) (Type_ r) v (Height r).
Definition set_Height (v : Z) (r : t) : t :=
  mk (URL r) (SecureURL r) (Type_ r) (Width r) v.

End XCardsVideo.

Module XCardsAudio.

Record t : Type :=
  mk { URL : string;
       SecureURL : string;
       Type_ : string }.

Definition zero : t :=
  mk "" "" "".

Definition set_URL (v : string) (r : t) : t :=
  mk v (SecureURL r) (Type_ r).
Definition set_SecureURL (v : string) (r : t) : t :=
  mk (URL r) v (Type_ r).
Definition set_Type_ (v : string) (r : t) : t :=
  mk (URL r) (SecureURL r) v.

End XCardsAudio.

Module MusicSong.

Record t : Type :=
  mk { URL : string;
       Disc : Z;
       Track : Z }.

Definition zero : t :=
  mk "" 0%Z 0%Z.

Definition set_URL (v : string) (r : t) : t :=
  mk v (Disc r) (Track r).
Definition set_Disc (v : Z) (r : t) : t :=
  mk (URL r) v (Track r).
Definition set_Track (v : Z) (r : t) : t :=
  mk (URL r) (Disc r) v.

End MusicSong.

Module VideoActor.

Record t : Type :=
  mk { URL : string;
       Role : string }.

Definition zero : t :=
  mk "" "".

Definition set_URL (v : string) (r : t) : t :=
  mk v (Role r).
Definition set_Role (v : string) (r : t) : t :=
  mk (URL r) v.

End VideoActor.

Module Music.

Record t : Type :=
  mk { Duration : Z;
       Album : string;
       AlbumDisc : Z;
       AlbumTrack : Z;
       Musician : list string;
       Song : list MusicSong.t;
       Creator : list string;
       ReleaseDate : string }.

Definition zero : t :=
  mk 0%Z "" 0%Z 0%Z [] [] [] "".

Definition set_Duration (v : Z) (r : t) : t :=
  mk v (Album r) (AlbumDisc r) (AlbumTrack r) (Musician r) (Song r)
     (Creator r) (ReleaseDate r).
Definition set_Album (v : string) (r : t) : t :=
  mk (Duration r) v (AlbumDisc r) (AlbumTrack r) (Musician r) (Song r)
     (Creator r) (ReleaseDate r).
Definition set_AlbumDisc (v : Z) (r : t) : t :=
  mk (Duration r) (Album r) v (AlbumTrack r) (Musician r) (Song r)
     (Creator r) (ReleaseDate r).
Definition set_AlbumTrack (v : Z) (r : t) : t :=
  mk (Duration r) (Album r) (AlbumDisc r) v (Musician r) (Song r)
     (Creator r) (ReleaseDate r).
Definition set_Musician (v : list string) (r : t) : t :=
  mk (Duration r) (Album r) (AlbumDisc r) (AlbumTrack r) v (Song r)
     (Creator r) (ReleaseDate r).
Definition set_Song (v : list MusicSong.t) (r : t) : t :=
  mk (Duration r) (Album r) (AlbumDisc r) (AlbumTrack r) (Musician r) v
     (Creator r) (ReleaseDate r).
Definition set_Creator (v : list string) (r : t) : t :=
  mk (Duration r) (Album r) (AlbumDisc r) (AlbumTrack r) (Musician r)
     (Song r) v (ReleaseDate r).
Definition set_ReleaseDate (v : string) (r : t) : t :=
  mk (Duration r) (Album r) (AlbumDisc r) (AlbumTrack r) (Musician r)
     (Song r) (Creator r) v.

End Music.

Module Video.

Record t {Time : Type} : Type :=
  mk { Duration : Z;
       Actor : list VideoActor.t;
       Director : list string;
       Writer : list string;
       ReleaseDate : Time;
       Tag : list string;
       Series : string }.
Arguments t : clear implicits.
Arguments mk {Time}.

Definition zero {Time : Type} (zero_Time : Time) : t Time :=
  mk 0%Z [] [] [] zero_Time [] "".

Definition set_Duration {Time : Type} (v : Z) (r : t Time) : t Time :=
  mk v (Actor r) (Director r) (Writer r) (ReleaseDate r) (Tag r) (Series r).
Definition set_Actor {Time : Type} (v : list VideoActor.t)
           (r : t Time) : t Time :=
  mk (Duration r) v (Director r) (Writer r) (ReleaseDate r) (Tag r)
     (Series r).
Definition set_Director {Time : Type} (v : list string)
           (r : t Time) : t Time :=
  mk (Duration r) (Actor r) v (Writer r) (ReleaseDate r) (Tag r) (Series r).
Definition set_Writer {Time : Type} (v : list string) (r : t Time) : t Time :=
  mk (Duration r) (Actor r) (Director r) v (ReleaseDate r) (Tag r) (Series r).
Definition set_ReleaseDate {Time : Type} (v : Time) (r : t Time) : t Time :=
  mk (Duration r) (Actor r) (Director r) (Writer r) v (Tag r) (Series r).
Definition set_Tag {Time : Type} (v : list string) (r : t Time) : t Time :=
  mk (Duration r) (Actor r) (Director r) (Writer r) (ReleaseDate r) v
     (Series r).
Definition set_Series {Time : Type} (v : string) (r : t Time) : t Time :=
  mk (Duration r) (Actor r) (Director r) (Writer r) (ReleaseDate r) (Tag r) v.

End Video.

Module Article.

Record t {Time : Type} : Type :=
  mk { PublishedTime : Time;
       ModifiedTime : Time;
       ExpirationTime : Time;
       Author : list string;
       Section_ : string;
       Tag : list string }.
Arguments t : clear implicits.
Arguments mk {Time}.

Definition zero {Time : Type} (zero_Time : Time) : t Time :=
  mk zero_Time zero_Time zero_Time [] "" [].

Definition set_PublishedTime {Time : Type} (v : Time) (r : t Time) : t Time :=
  mk v (ModifiedTime r) (ExpirationTime r) (Author r) (Section_ r) (Tag r).
Definition set_ModifiedTime {Time : Type} (v : Time) (r : t Time) : t Time :=
  mk (PublishedTime r) v (ExpirationTime r) (Author r) (Section_ r) (Tag r).
Definition set_ExpirationTime {Time : Type} (v : Time)
           (r : t Time) : t Time :=
  mk (PublishedTime r) (ModifiedTime r) v (Author r) (Section_ r) (Tag r).
Definition set_Author {Time : Type} (v : list string) (r : t Time) : t Time :=
  mk (PublishedTime r) (ModifiedTime r) (ExpirationTime r) v (Section_ r)
     (Tag r).
Definition set_Section_ {Time : Type} (v : string) (r : t Time) : t Time :=
  mk (PublishedTime r) (ModifiedTime r) (ExpirationTime r) (Author r) v
     (Tag r).
Definition set_Tag {Time : Type} (v : list string) (r : t Time) : t Time :=
  mk (PublishedTime r) (ModifiedTime r) (ExpirationTime r) (Author r)
     (Section_ r) v.

End Article.

Module Book.

Record t {Time : Type} : Type :=
  mk { Author : list string;
       ISBN : string;
       ReleaseDate : Time;
       Tag : list string }.
Arguments t : clear implicits.
Arguments mk {Time}.

Definition zero {Time : Type} (zero_Time : Time) : t Time :=
  mk [] "" zero_Time [].

Definition set_Author {Time : Type} (v : list string) (r : t Time) : t Time :=
  mk v (ISBN r) (ReleaseDate r) (Tag r).
Definition set_ISBN {Time : Type} (v : string) (r : t Time) : t Time :=
  mk (Author r) v (ReleaseDate r) (Tag r).
Definition set_ReleaseDate {Time : Type} (v : Time) (r : t Time) : t Time :=
  mk (Author r) (ISBN r) v (Tag r).
Definition set_Tag {Time : Type} (v : list string) (r : t Time) : t Time :=
  mk (Author r) (ISBN r) (ReleaseDate r) v.

End Book.

Module Profile.

Record t : Type :=
  mk { FirstName : string;
       LastName : string;
       Username : string;
       Gender : string }.

Definition zero : t :=
  mk "" "" "" "".

Definition set_FirstName (v : string) (r : t) : t :=
  mk v (LastName r) (Username r) (Gender r).
Definition set_LastName (v : string) (r : t) : t :=
  mk (FirstName r) v (Username r) (Gender r).
Definition set_Username (v : string) (r : t) : t :=
  mk (FirstName r) (LastName r) v (Gender r).
Definition set_Gender (v : string) (r : t) : t :=
  mk (FirstName r) (LastName r) (Username r) v.

End Profile.

Module OpenGraph.

Record t {Time : Type} : Type :=
  mk { Type_ : string;
       Title : string;
       URL : string;
       Description : string;
       Determiner : string;
       Locale : string;
       LocaleAlternate : list string;
       SiteName : string;
       OpenGraphImage : list OpenGraphImage.t;
       OpenGraphVideo : list OpenGraphVideo.t;
       OpenGraphAudio : list OpenGraphAudio.t;
       Music : option Music.t;
       Video : option (Video.t Time);
       Article : option (Article.t Time);
       Book : option (Book.t Time);
       Profile : option Profile.t }.
Arguments t : clear implicits.
Arguments mk {Time}.

Definition zero {Time : Type} : t Time :=
  @mk Time "" "" "" "" "" "" [] "" [] [] [] None None None None None.

Definition set_Type_ {Time : Type} (v : string) (r : t Time) : t Time :=
  mk v (Title r) (URL r) (Description r) (Determiner r) (Locale r)
     (LocaleAlternate r) (SiteName r) (OpenGraphImage r) (OpenGraphVideo r)
     (OpenGraphAudio r) (Music r) (Video r) (Article r) (Book r) (Profile r).
Definition set_Title {Time : Type} (v : string) (r : t Time) : t Time :=
  mk (Type_ r) v (URL r) (Description r) (Determiner r) (Locale r)
     (LocaleAlternate r) (SiteName r) (OpenGraphImage r) (OpenGraphVideo r)
     (OpenGraphAudio r) (Music r) (Video r) (Article r) (Book r) (Profile r).
Definition set_URL {Time : Type} (v : string) (r : t Time) : t Time :=
  mk (Type_ r) (Title r) v (Description r) (Determiner r) (Locale r)
     (LocaleAlternate r) (SiteName r) (OpenGraphImage r) (OpenGraphVideo r)
     (OpenGraphAudio r) (Music r) (Video r) (Article r) (Book r) (Profile r).
Definition set_Description {Time : Type} (v : string) (r : t Time) : t Time :=
  mk (Type_ r) (Title r) (URL r) v (Determiner r) (Locale r)
     (LocaleAlternate r) (SiteName r) (OpenGraphImage r) (OpenGraphVideo r)
     (OpenGraphAudio r) (Music r) (Video r) (Article r) (Book r) (Profile r).
Definition set_Determiner {Time : Type} (v : string) (r : t Time) : t Time :=
  mk (Type_ r) (Title r) (URL r) (Description r) v (Locale r)
     (LocaleAlternate r) (SiteName r) (OpenGraphImage r) (OpenGraphVideo r)
     (OpenGraphAudio r) (Music r) (Video r) (Article r) (Book r) (Profile r).
Definition set_Locale {Time : Type} (v : string) (r : t Time) : t Time :=
  mk (Type_ r) (Title r) (URL r) (Description r) (Determiner r) v
     (LocaleAlternate r) (SiteName r) (OpenGraphImage r) (OpenGraphVideo r)
     (OpenGraphAudio r) (Music r) (Video r) (Article r) (Book r) (Profile r).
Definition set_LocaleAlternate {Time : Type} (v : list string)
           (r : t Time) : t Time :=
  mk (Type_ r) (Title r) (URL r) (Description r) (Determiner r) (Locale r) v
     (SiteName r) (OpenGraphImage r) (OpenGraphVideo r) (OpenGraphAudio r)
     (Music r) (Video r) (Article r) (Book r) (Profile r).
Definition set_SiteName {Time : Type} (v : string) (r : t Time) : t Time :=
  mk (Type_ r) (Title r) (URL r) (Description r) (Determiner r) (Locale r)
     (LocaleAlternate r) v (OpenGraphImage r) (OpenGraphVideo r)
     (OpenGraphAudio r) (Music r) (Video r) (Article r) (Book r) (Profile r).
Definition set_OpenGraphImage {Time : Type} (v : list OpenGraphImage.t)
           (r : t Time) : t Time :=
  mk (Type_ r) (Title r) (URL r) (Description r) (Determiner r) (Locale r)
     (LocaleAlternate r) (SiteName r) v (OpenGraphVideo r)
     (OpenGraphAudio r) (Music r) (Video r) (Article r) (Book r) (Profile r).
Definition set_OpenGraphVideo {Time : Type} (v : list OpenGraphVideo.t)
           (r : t Time) : t Time :=
  mk (Type_ r) (Title r) (URL r) (Description r) (Determiner r) (Locale r)
     (LocaleAlternate r) (SiteName r) (OpenGraphImage r) v
     (OpenGraphAudio r) (Music r) (Video r) (Article r) (Book r) (Profile r).
Definition set_OpenGraphAudio {Time : Type} (v : list OpenGraphAudio.t)
           (r : t Time) : t Time :=
  mk (Type_ r) (Title r) (URL r) (Description r) (Determiner r) (Locale r)
     (LocaleAlternate r) (SiteName r) (OpenGraphImage r) (OpenGraphVideo r)
     v (Music r) (Video r) (Article r) (Book r) (Profile r).
Definition set_Music {Time : Type} (v : option Music.t)
           (r : t Time) : t Time :=
  mk (Type_ r) (Title r) (URL r) (Description r) (Determiner r) (Locale r)
     (LocaleAlternate r) (SiteName r) (OpenGraphImage r) (OpenGraphVideo r)
     (OpenGraphAudio r) v (Video r) (Article r) (Book r) (Profile r).
Definition set_Video {Time : Type} (v : option (Video.t Time))
           (r : t Time) : t Time :=
  mk (Type_ r) (Title r) (URL r) (Description r) (Determiner r) (Locale r)
     (LocaleAlternate r) (SiteName r) (OpenGraphImage r) (OpenGraphVideo r)
     (OpenGraphAudio r) (Music r) v (Article r) (Book r) (Profile r).
Definition set_Article {Time : Type} (v : option (Article.t Time))
           (r : t Time) : t Time :=
  mk (Type_ r) (Title r) (URL r) (Description r) (Determiner r) (Locale r)
     (LocaleAlternate r) (SiteName r) (OpenGraphImage r) (OpenGraphVideo r)
     (OpenGraphAudio r) (Music r) (Video r) v (Book r) (Profile r).
Definition set_Book {Time : Type} (v : option (Book.t Time))
           (r : t Time) : t Time :=
  mk (Type_ r) (Title r) (URL r) (Description r) (Determiner r) (Locale r)
     (LocaleAlternate r) (SiteName r) (OpenGraphImage r) (OpenGraphVideo r)
     (OpenGraphAudio r) (Music r) (Video r) (Article r) v (Profile r).
Definition set_Profile {Time : Type} (v : option Profile.t)
           (r : t Time) : t Time :=
  mk (Type_ r) (Title r) (URL r) (Description r) (Determiner r) (Locale r)
     (LocaleAlternate r) (SiteName r) (OpenGraphImage r) (OpenGraphVideo r)
     (OpenGraphAudio r) (Music r) (Video r) (Article r) (Book r) v.

End OpenGraph.

Module XCards.

Record t {Time : Type} : Type :=
  mk { Card : string;
       Site : string;
       Creator : string;
       Type_ : string;
       Title : string;
       URL : string;
       Description : string;
       Determiner : string;
       Locale : string;
       LocaleAlternate : list string;
       SiteName : string;
       OpenGraphImage : list OpenGraphImage.t;
       OpenGraphAudio : list OpenGraphAudio.t;
       OpenGraphVideo : list OpenGraphVideo.t;
       XCardsImage : list XCardsImage.t;
       XCardsAudio : list XCardsAudio.t;
       XCardsVideo : list XCardsVideo.t;
       Music : option Music.t;
       Video : option (Video.t Time);
       Article : option (Article.t Time);
       Book : option (Book.t Time);
       Profile : option Profile.t }.
Arguments t : clear implicits.
Arguments mk {Time}.

Definition zero {Time : Type} : t Time :=
  @mk Time "" "" "" "" "" "" "" "" "" [] "" [] [] [] [] [] [] None None None
     None None.

Definition set_Card {Time : Type} (v : string) (r : t Time) : t Time :=
  mk v (Site r) (Creator r) (Type_ r) (Title r) (URL r) (Description r)
     (Determiner r) (Locale r) (LocaleAlternate r) (SiteName r)
     (OpenGraphImage r) (OpenGraphAudio r) (OpenGraphVideo r)
     (XCardsImage r) (XCardsAudio r) (XCardsVideo r) (Music r) (Video r)
     (Article r) (Book r) (Profile r).
Definition set_Site {Time : Type} (v : string) (r : t Time) : t Time :=
  mk (Card r) v (Creator r) (Type_ r) (Title r) (URL r) (Description r)
     (Determiner r) (Locale r) (LocaleAlternate r) (SiteName r)
     (OpenGraphImage r) (OpenGraphAudio r) (OpenGraphVideo r)
     (XCardsImage r) (XCardsAudio r) (XCardsVideo r) (Music r) (Video r)
     (Article r) (Book r) (Profile r).
Definition set_Creator {Time : Type} (v : string) (r : t Time) : t Time :=
  mk (Card r) (Site r) v (Type_ r) (Title r) (URL r) (Description r)
     (Determiner r) (Locale r) (LocaleAlternate r) (SiteName r)
     (OpenGraphImage r) (OpenGraphAudio r) (OpenGraphVideo r)
     (XCardsImage r) (XCardsAudio r) (XCardsVideo r) (Music r) (Video r)
     (Article r) (Book r) (Profile r).
Definition set_Type_ {Time : Type} (v : string) (r : t Time) : t Time :=
  mk (Card r) (Site r) (Creator r) v (Title r) (URL r) (Description r)
     (Determiner r) (Locale r) (LocaleAlternate r) (SiteName r)
     (OpenGraphImage r) (OpenGraphAudio r) (OpenGraphVideo r)
     (XCardsImage r) (XCardsAudio r) (XCardsVideo r) (Music r) (Video r)
     (Article r) (Book r) (Profile r).
Definition set_Title {Time : Type} (v : string) (r : t Time) : t Time :=
  mk (Card r) (Site r) (Creator r) (Type_ r) v (URL r) (Description r)
     (Determiner r) (Locale r) (LocaleAlternate r) (SiteName r)
     (OpenGraphImage r) (OpenGraphAudio r) (OpenGraphVideo r)
     (XCardsImage r) (XCardsAudio r) (XCardsVideo r) (Music r) (Video r)
     (Article r) (Book r) (Profile r).
Definition set_URL {Time : Type} (v : string) (r : t Time) : t Time :=
  mk (Card r) (Site r) (Creator r) (Type_ r) (Title r) v (Description r)
     (Determiner r) (Locale r) (LocaleAlternate r) (SiteName r)
     (OpenGraphImage r) (OpenGraphAudio r) (OpenGraphVideo r)
     (XCardsImage r) (XCardsAudio r) (XCardsVideo r) (Music r) (Video r)
     (Article r) (Book r) (Profile r).
Definition set_Description {Time : Type} (v : string) (r : t Time) : t Time :=
  mk (Card r) (Site r) (Creator r) (Type_ r) (Title r) (URL r) v
     (Determiner r) (Locale r) (LocaleAlternate r) (SiteName r)
     (OpenGraphImage r) (OpenGraphAudio r) (OpenGraphVideo r)
     (XCardsImage r) (XCardsAudio r) (XCardsVideo r) (Music r) (Video r)
     (Article r) (Book r) (Profile r).
Definition set_Determiner {Time : Type} (v : string) (r : t Time) : t Time :=
  mk (Card r) (Site r) (Creator r) (Type_ r) (Title r) (URL r)
     (Description r) v (Locale r) (LocaleAlternate r) (SiteName r)
     (OpenGraphImage r) (OpenGraphAudio r) (OpenGraphVideo r)
     (XCardsImage r) (XCardsAudio r) (XCardsVideo r) (Music r) (Video r)
     (Article r) (Book r) (Profile r).
Definition set_Locale {Time : Type} (v : string) (r : t Time) : t Time :=
  mk (Card r) (Site r) (Creator r) (Type_ r) (Title r) (URL r)
     (Description r) (Determiner r) v (LocaleAlternate r) (SiteName r)
     (OpenGraphImage r) (OpenGraphAudio r) (OpenGraphVideo r)
     (XCardsImage r) (XCardsAudio r) (XCardsVideo r) (Music r) (Video r)
     (Article r) (Book r) (Profile r).
Definition set_LocaleAlternate {Time : Type} (v : list string)
           (r : t Time) : t Time :=
  mk (Card r) (Site r) (Creator r) (Type_ r) (Title r) (URL r)
     (Description r) (Determiner r) (Locale r) v (SiteName r)
     (OpenGraphImage r) (OpenGraphAudio r) (OpenGraphVideo r)
     (XCardsImage r) (XCardsAudio r) (XCardsVideo r) (Music r) (Video r)
     (Article r) (Book r) (Profile r).
Definition set_SiteName {Time : Type} (v : string) (r : t Time) : t Time :=
  mk (Card r) (Site r) (Creator r) (Type_ r) (Title r) (URL r)
     (Description r) (Determiner r) (Locale r) (LocaleAlternate r) v
     (OpenGraphImage r) (OpenGraphAudio r) (OpenGraphVideo r)
     (XCardsImage r) (XCardsAudio r) (XCardsVideo r) (Music r) (Video r)
     (Article r) (Book r) (Profile r).
Definition set_OpenGraphImage {Time : Type} (v : list OpenGraphImage.t)
           (r : t Time) : t Time :=
  mk (Card r) (Site r) (Creator r) (Type_ r) (Title r) (URL r)
     (Description r) (Determiner r) (Locale r) (LocaleAlternate r)
     (SiteName r) v (OpenGraphAudio r) (OpenGraphVideo r) (XCardsImage r)
     (XCardsAudio r) (XCardsVideo r) (Music r) (Video r) (Article r)
     (Book r) (Profile r).
Definition set_OpenGraphAudio {Time : Type} (v : list OpenGraphAudio.t)
           (r : t Time) : t Time :=
  mk (Card r) (Site r) (Creator r) (Type_ r) (Title r) (URL r)
     (Description r) (Determiner r) (Locale r) (LocaleAlternate r)
     (SiteName r) (OpenGraphImage r) v (OpenGraphVideo r) (XCardsImage r)
     (XCardsAudio r) (XCardsVideo r) (Music r) (Video r) (Article r)
     (Book r) (Profile r).
Definition set_OpenGraphVideo {Time : Type} (v : list OpenGraphVideo.t)
           (r : t Time) : t Time :=
  mk (Card r) (Site r) (Creator r) (Type_ r) (Title r) (URL r)
     (Description r) (Determiner r) (Locale r) (LocaleAlternate r)
     (SiteName r) (OpenGraphImage r) (OpenGraphAudio r) v (XCardsImage r)
     (XCardsAudio r) (XCardsVideo r) (Music r) (Video r) (Article r)
     (Book r) (Profile r).
Definition set_XCardsImage {Time : Type} (v : list XCardsImage.t)
           (r : t Time) : t Time :=
  mk (Card r) (Site r) (Creator r) (Type_ r) (Title r) (URL r)
     (Description r) (Determiner r) (Locale r) (LocaleAlternate r)
     (SiteName r) (OpenGraphImage r) (OpenGraphAudio r) (OpenGraphVideo r) v
     (XCardsAudio r) (XCardsVideo r) (Music r) (Video r) (Article r)
     (Book r) (Profile r).
Definition set_XCardsAudio {Time : Type} (v : list XCardsAudio.t)
           (r : t Time) : t Time :=
  mk (Card r) (Site r) (Creator r) (Type_ r) (Title r) (URL r)
     (Description r) (Determiner r) (Locale r) (LocaleAlternate r)
     (SiteName r) (OpenGraphImage r) (OpenGraphAudio r) (OpenGraphVideo r)
     (XCardsImage r) v (XCardsVideo r) (Music r) (Video r) (Article r)
     (Book r) (Profile r).
Definition set_XCardsVideo {Time : Type} (v : list XCardsVideo.t)
           (r : t Time) : t Time :=
  mk (Card r) (Site r) (Creator r) (Type_ r) (Title r) (URL r)
     (Description r) (Determiner r) (Locale r) (LocaleAlternate r)
     (SiteName r) (OpenGraphImage r) (OpenGraphAudio r) (OpenGraphVideo r)
     (XCardsImage r) (XCardsAudio r) v (Music r) (Video r) (Article r)
     (Book r) (Profile r).
Definition set_Music {Time : Type} (v : option Music.t)
           (r : t Time) : t Time :=
  mk (Card r) (Site r) (Creator r) (Type_ r) (Title r) (URL r)
     (Description r) (Determiner r) (Locale r) (LocaleAlternate r)
     (SiteName r) (OpenGraphImage r) (OpenGraphAudio r) (OpenGraphVideo r)
     (XCardsImage r) (XCardsAudio r) (XCardsVideo r) v (Video r) (Article r)
     (Book r) (Profile r).
Definition set_Video {Time : Type} (v : option (Video.t Time))
           (r : t Time) : t Time :=
  mk (Card r) (Site r) (Creator r) (Type_ r) (Title r) (URL r)
     (Description r) (Determiner r) (Locale r) (LocaleAlternate r)
     (SiteName r) (OpenGraphImage r) (OpenGraphAudio r) (OpenGraphVideo r)
     (XCardsImage r) (XCardsAudio r) (XCardsVideo r) (Music r) v (Article r)
     (Book r) (Profile r).
Definition set_Article {Time : Type} (v : option (Article.t Time))
           (r : t Time) : t Time :=
  mk (Card r) (Site r) (Creator r) (Type_ r) (Title r) (URL r)
     (Description r) (Determiner r) (Locale r) (LocaleAlternate r)
     (SiteName r) (OpenGraphImage r) (OpenGraphAudio r) (OpenGraphVideo r)
     (XCardsImage r) (XCardsAudio r) (XCardsVideo r) (Music r) (Video r) v
     (Book r) (Profile r).
Definition set_Book {Time : Type} (v : option (Book.t Time))
           (r : t Time) : t Time :=
  mk (Card r) (Site r) (Creator r) (Type_ r) (Title r) (URL r)
     (Description r) (Determiner r) (Locale r) (LocaleAlternate r)
     (SiteName r) (OpenGraphImage r) (OpenGraphAudio r) (OpenGraphVideo r)
     (XCardsImage r) (XCardsAudio r) (XCardsVideo r) (Music r) (Video r)
     (Article r) v (Profile r).
Definition set_Profile {Time : Type} (v : option Profile.t)
           (r : t Time) : t Time :=
  mk (Card r) (Site r) (Creator r) (Type_ r) (Title r) (URL r)
     (Description r) (Determiner r) (Locale r) (LocaleAlternate r)
     (SiteName r) (OpenGraphImage r) (OpenGraphAudio r) (OpenGraphVideo r)
     (XCardsImage r) (XCardsAudio r) (XCardsVideo r) (Music r) (Video r)
     (Article r) (Book r) v.

End XCards.

(** ** The meta-tag extractors: helpers *)

(** [strings.Split(s, sep)] for a separator of one byte: the pieces of
    [s] between the occurrences of [sep], one more than there are
    occurrences. *)
Fixpoint strings_Split (s : string) (sep : ascii) : list string :=
  match s with
  | EmptyString => [EmptyString]
  | String c rest =>
      if Ascii.eqb c sep then EmptyString :: strings_Split rest sep
      else
        match strings_Split rest sep with
        | [] => [String c EmptyString]
        | piece :: pieces => String c piece :: pieces
        end
  end.

(** [l[i].F = v], as [f] applied to the element at index [i]; [None] is
    the run-time panic of an index out of range. *)
Definition update_at {A : Type} (l : list A) (i : Z) (f : A -> A)
  : option (list A) :=
  if (0 <=? i)%Z && (i <? Z.of_nat (length l))%Z
  then Some (alter f (Z.to_nat i) l)
  else None.

(** The tokens of the tokenizer of golang.org/x/net/html. *)
Module token.

Inductive TokenType : Type :=
  | ErrorToken
  | TextToken
  | StartTagToken
  | EndTagToken
  | SelfClosingTagToken
  | CommentToken
  | DoctypeToken.

Record Token : Type :=
  mkToken { Type_ : TokenType; Data : string; Attr : list Attribute }.

End token.

(** The common shape of the eight handlers of structured properties
    ([handleXCardsImageProperty] and the like), on the slice they work
    on: [base] is the name that opens a new entry, [set_url] stores the
    content in the entry, [sub] gives the assignment that the handler
    makes for the third part of the property name. *)
Definition handle_entries {A : Type} (zero : A) (base : string)
           (set_url : A -> A) (sub : string -> option (A -> A))
           (entries : list A) (parts : list string) : option (list A) :=
  grow ← (if Nat.eqb (length entries) 0 then Some true
          else p1 ← parts !! 1%nat;
               Some (String.eqb p1 base));
  let entries :=
    if grow : bool then
      if Nat.ltb (length parts) 3 then (entries ++ [zero])%list else entries
    else entries in
  let lastIdx := (Z.of_nat (length entries) - 1)%Z in
  if Nat.eqb (length parts) 2 then update_at entries lastIdx set_url
  else
    p2 ← parts !! 2%nat;
    match sub p2 with
    | Some f => update_at entries lastIdx f
    | None => Some entries
    end.

(** The songs and the actors that a structure points to, none when the
    pointer is nil. *)
Definition songs_of (music : option Music.t) : list MusicSong.t :=
  match music with
  | Some m => Music.Song m
  | None => []
  end.

Definition actors_of {Time : Type} (video : option (Video.t Time))
  : list VideoActor.t :=
  match video with
  | Some v => Video.Actor v
  | None => []
  end.

(** *** Vocabulary of the meta-tag extractors that needs no parameter *)

(** [s] begins with [prefix], by comparison byte after byte. *)
Fixpoint begins_with (prefix s : string) : bool :=
  match prefix with
  | EmptyString => true
  | String a prefix' =>
      match s with
      | EmptyString => false
      | String b s' => Ascii.eqb a b && begins_with prefix' s'
      end
  end.

(** The number of occurrences of a byte in a string. *)
Fixpoint count_byte (sep : ascii) (s : string) : nat :=
  match s with
  | EmptyString => 0
  | String c rest =>
      if Ascii.eqb c sep then S (count_byte sep rest)
      else count_byte sep rest
  end.

(** The name and the content that the extractors read from the
    attributes of a tag: the values of the last attribute named [attrkey]
    and of the last attribute named [content]. *)
Definition name_and_content (attrkey : string) (attrs : list Attribute)
  : string * string :=
  fold_left
    (fun '(property, content) attr =>
       if String.eqb (Key attr) attrkey then (Val attr, content)
       else if String.eqb (Key attr) "content" then (property, Val attr)
            else (property, content))
    attrs ("", "").

(** The tag that a token hands to the parser of meta tags, if any: the
    token is a start, end or self-closing tag named [meta], and both its
    name and its content are not empty. *)
Definition accepted_tag (attrkey : string) (tok : token.Token)
  : option (string * string) :=
  match token.Type_ tok with
  | token.StartTagToken | token.SelfClosingTagToken | token.EndTagToken =>
      if String.eqb (token.Data tok) "meta" then
        let pc := name_and_content attrkey (token.Attr tok) in
        if negb (String.eqb (fst pc) "") && negb (String.eqb (snd pc) "")
        then Some pc
        else None
      else None
  | _ => None
  end.

(** The accepted tags of a token sequence, in order. *)
Definition accepted_tags (attrkey : string) (tokens : list token.Token)
  : list (string * string) :=
  omap (accepted_tag attrkey) tokens.

(** A parser of meta tags run over a sequence of tags; [None] is a
    panic. *)
Fixpoint run_tags {X : Type} (parse : X -> string -> string -> option X)
         (tags : list (string * string)) (x : X) : option X :=
  match tags with
  | [] => Some x
  | (property, content) :: rest =>
      x ← parse x property content;
      run_tags parse rest x
  end.

(** The content of the last tag named [name], [default] when there is
    none. *)
Definition last_content (name : string) (tags : list (string * string))
           (default : string) : string :=
  fold_left
    (fun acc '(property, content) =>
       if String.eqb property name then content else acc)
    tags default.

(** The contents of all the tags named [name], in order. *)
Definition contents_of (name : string) (tags : list (string * string))
  : list string :=
  map snd (List.filter (fun pc => String.eqb (fst pc) name) tags).

(** [after] is [before] with its last entry possibly changed, or with one
    more entry. *)
Definition grows_at_end {A : Type} (before after : list A) : Prop :=
  (length after = length before \/ length after = S (length before))
  /\ forall i, S i < length after -> after !! i = before !! i.

(** [after] is at least as long as [before], and the entries of [before]
    other than its last one are the same in [after]. *)
Definition settled {A : Type} (before after : list A) : Prop :=
  length before <= length after
  /\ forall i, S i < length before -> after !! i = before !! i.

(** The third part of a property name is one of [keys]. *)
Definition third_part_in (keys : list string) (property : string) : Prop :=
  exists key, strings_Split property ":" !! 2%nat = Some key /\ In key keys.

(** A tag name that opens an entry of the group [base]: it begins with
    [base] and has two parts. *)
Definition opens (base property : string) : bool :=
  strings.HasPrefix property base
  && Nat.eqb (length (strings_Split property ":")) 2.

(** The tag named [property] assigns one of [keys] in the group [base],
    and none of the tags [pre] before it opens an entry of the group. *)
Definition unopened (base : string) (keys : list string)
           (pre : list (string * string)) (property : string) : Prop :=
  strings.HasPrefix property base = true
  /\ third_part_in keys property
  /\ Forall (fun tag => opens base (fst tag) = false) pre.

(** *** Example tags and objects *)

(** Tags of a card, and the card that they give from an empty one. *)
Definition card_tags : list (string * string) :=
  [("twitter:title", "First"); ("twitter:image", "a.png");
   ("twitter:image:alt", "A"); ("twitter:title", "Second");
   ("music:album", "m"); ("twitter:locale:alternate", "fr");
   ("twitter:image", "b.png"); ("twitter:locale:alternate", "de")].

Definition card_after_tags : XCards.t unit :=
  XCards.set_Title "Second"
    (XCards.set_LocaleAlternate ["fr"; "de"]
       (XCards.set_XCardsImage
          [XCardsImage.set_Alt "A"
             (XCardsImage.set_URL "a.png" XCardsImage.zero);
           XCardsImage.set_URL "b.png" XCardsImage.zero]
          (XCards.set_Music (Some (Music.set_Album "m" Music.zero))
             XCards.zero))).

(** A card with two images, tags for its second and for a third image, and
    the card that they give. *)
Definition two_images_card : XCards.t unit :=
  XCards.set_XCardsImage
    [XCardsImage.set_URL "a.png" XCardsImage.zero;
     XCardsImage.set_URL "b.png" XCardsImage.zero]
    XCards.zero.

Definition later_image_tags : list (string * string) :=
  [("twitter:image:alt", "B"); ("twitter:image", "c.png")].

Definition three_images_card : XCards.t unit :=
  XCards.set_XCardsImage
    [XCardsImage.set_URL "a.png" XCardsImage.zero;
     XCardsImage.set_Alt "B" (XCardsImage.set_URL "b.png" XCardsImage.zero);
     XCardsImage.set_URL "c.png" XCardsImage.zero]
    XCards.zero.

(** The same for an OpenGraph object. *)
Definition object_tags : list (string * string) :=
  [("og:title", "First"); ("og:image", "a.png"); ("og:image:alt", "A");
   ("og:title", "Second"); ("music:album", "m");
   ("og:locale:alternate", "fr"); ("og:image", "b.png");
   ("og:locale:alternate", "de")].

Definition object_after_tags : OpenGraph.t unit :=
  OpenGraph.set_Title "Second"
    (OpenGraph.set_LocaleAlternate ["fr"; "de"]
       (OpenGraph.set_OpenGraphImage
          [OpenGraphImage.set_Alt "A"
             (OpenGraphImage.set_URL "a.png" OpenGraphImage.zero);
           OpenGraphImage.set_URL "b.png" OpenGraphImage.zero]
          (OpenGraph.set_Music (Some (Music.set_Album "m" Music.zero))
             OpenGraph.zero))).

Definition two_images_object : OpenGraph.t unit :=
  OpenGraph.set_OpenGraphImage
    [OpenGraphImage.set_URL "a.png" OpenGraphImage.zero;
     OpenGraphImage.set_URL "b.png" OpenGraphImage.zero]
    OpenGraph.zero.

Definition later_object_tags : list (string * string) :=
  [("og:image:alt", "B"); ("og:image", "c.png")].

Definition three_images_object : OpenGraph.t unit :=
  OpenGraph.set_OpenGraphImage
    [OpenGraphImage.set_URL "a.png" OpenGraphImage.zero;
     OpenGraphImage.set_Alt "B"
       (OpenGraphImage.set_URL "b.png" OpenGraphImage.zero);
     OpenGraphImage.set_URL "c.png" OpenGraphImage.zero]
    OpenGraph.zero.

(** ** The walker with its pointers

    The definitions above model a pointer by what it points to.  To
    compare two calls of the extraction, the walker is written a second
    time with the pointers of the source as addresses in a heap: a
    [*MicrodataItem], the [*string] of an [ID], and the reference that a
    map is.  A call starts in whatever heap the program has reached and
    allocates at addresses that this heap does not hold.  A slice is
    modelled by its elements: the walker holds a slice in the slot that it
    was made for and nowhere else. *)

Module heap.

Definition addr : Type := positive.

(** An [any] of a property map: a string, a [*MicrodataItem] or a
    [[]any]. *)
Inductive any : Type :=
  | String_ (s : string)
  | Pointer (p : addr)
  | Slice (l : list any).

(** [MicrodataItem]: [ID] is a [*string], nil or the address of a string;
    [Properties] is a map, that is the address of its table. *)
Record MicrodataItem : Type :=
  mkItem { Type_ : string; ID : option addr; Properties : addr }.

Inductive cell : Type :=
  | Item (i : MicrodataItem)
  | Str (s : string)
  | Map (m : gmap string any).

(** The heap: the cells at the addresses that are allocated. *)
Abbreviation t := (gmap addr cell).

(** An allocation ([&MicrodataItem{...}], [make(map[string]any)], the
    address of a local variable that escapes): a cell at an address that
    the heap does not hold. *)
Definition new (c : cell) (h : t) : addr * t :=
  let p := fresh (dom h) in (p, <[p := c]> h).

(** [appendValue]; it reads no pointer. *)
Definition appendValue (existing : option any) (value : any) : any :=
  match existing with
  | None => value
  | Some (Slice v) => Slice (v ++ [value])%list
  | Some e => Slice [e; value]
  end.

(** [item.Type = v] and [item.ID = p] through the pointer [item]; [None]
    is a pointer to no item. *)
Definition set_Type (item : addr) (v : string) (h : t) : option t :=
  match h !! item with
  | Some (Item i) => Some (<[item := Item (mkItem v (ID i) (Properties i))]> h)
  | _ => None
  end.

Definition set_ID (item : addr) (p : addr) (h : t) : option t :=
  match h !! item with
  | Some (Item i) =>
      Some (<[item := Item (mkItem (Type_ i) (Some p) (Properties i))]> h)
  | _ => None
  end.

(** [item.Properties[prop] = appendValue(item.Properties[prop], value)]
    through the pointer [item]. *)
Definition assign (item : addr) (prop : string) (value : any) (h : t)
  : option t :=
  match h !! item with
  | Some (Item i) =>
      match h !! Properties i with
      | Some (Map m) =>
          Some (<[Properties i :=
                    Map (<[prop := appendValue (m !! prop) value]> m)]> h)
      | _ => None
      end
  | _ => None
  end.

End heap.

(** [id] is nil and [I] is absent, or [id] points to the string [I]. *)
Definition represents_id (h : heap.t) (id : option heap.addr)
           (I : option string) : Prop :=
  match id, I with
  | None, None => True
  | Some p, Some s => h !! p = Some (heap.Str s)
  | _, _ => False
  end.

(** The value [v], read through the pointers of the heap [h], is the value
    [x]: what [reflect.DeepEqual] compares. *)
Inductive represents (h : heap.t) : heap.any -> any -> Prop :=
  | represents_string s :
      represents h (heap.String_ s) (VString s)
  | represents_slice l l' :
      Forall2 (represents h) l l' ->
      represents h (heap.Slice l) (VSlice l')
  | represents_pointer p T id I mp m P :
      h !! p = Some (heap.Item (heap.mkItem T id mp)) ->
      represents_id h id I ->
      h !! mp = Some (heap.Map m) ->
      (forall k, option_Forall2 (represents h) (m !! k) (P !! k)) ->
      represents h (heap.Pointer p) (VItem (mkItem T I P)).

(** The same for a [MicrodataItem] that is held by value. *)
Definition represents_item (h : heap.t) (i : heap.MicrodataItem)
           (x : MicrodataItem) : Prop :=
  heap.Type_ i = Type_ x
  /\ represents_id h (heap.ID i) (ID x)
  /\ exists m,
      h !! heap.Properties i = Some (heap.Map m)
      /\ forall k, option_Forall2 (represents h) (m !! k) (Properties x !! k).

(** Two results are deeply equal, each read in its heap: they are read as
    the same values. *)
Definition deep_equal (h1 : heap.t) (results1 : list heap.MicrodataItem)
           (h2 : heap.t) (results2 : list heap.MicrodataItem) : Prop :=
  exists values,
    Forall2 (represents_item h1) results1 values
    /\ Forall2 (represents_item h2) results2 values.

(** What a scan of properties through the pointer [item] does to the
    heap, against what it does to the item in the model above.  [C] holds
    the cells of the values that are finished: it does not hold the map of
    the item that is being filled, and the scan adds to it cells that it
    allocates.  The scan changes no cell of the heap other than this
    map. *)
Definition scan_spec (run : heap.t -> option heap.t)
           (scan : MicrodataItem -> MicrodataItem) (item : heap.addr)
  : Prop :=
  forall (h C : heap.t) (i : heap.MicrodataItem) (m : gmap string heap.any)
         (x : MicrodataItem),
    C ⊆ h ->
    h !! item = Some (heap.Item i) ->
    h !! heap.Properties i = Some (heap.Map m) ->
    C !! heap.Properties i = None ->
    (forall k, option_Forall2 (represents C) (m !! k) (Properties x !! k)) ->
    exists h' C' m',
      run h = Some h'
      /\ C ⊆ C' /\ C' ⊆ h'
      /\ (forall a, is_Some (C' !! a) -> is_Some (C !! a) \/ h !! a = None)
      /\ (forall a, a <> heap.Properties i -> is_Some (h !! a) ->
                    h' !! a = h !! a)
      /\ h' !! heap.Properties i = Some (heap.Map m')
      /\ (forall k, option_Forall2 (represents C') (m' !! k)
                                   (Properties (scan x) !! k)).

(** The item that the walker allocates for an [itemscope] element before
    it scans its properties: the pointer and the heap, in which the item
    has its type, its id and an empty map. *)
Definition newItem_heap (n : Node) (h : heap.t) : option (heap.addr * heap.t) :=
  let '(properties, h) := heap.new (heap.Map ∅) h in
  let '(item, h) := heap.new (heap.Item (heap.mkItem "" None properties)) h in
  let itemType := getAttrVal n "itemtype" in
  h ← (if negb (String.eqb itemType "")
       then heap.set_Type item itemType h
       else Some h);
  let itemID := getAttrVal n "itemid" in
  h ← (if negb (String.eqb itemID "")
       then
         let '(p, h) := heap.new (heap.Str itemID) h in
         heap.set_ID item p h
       else Some h);
  Some (item, h).

Section Extractor.

(** [url.Parse], [None] standing for a non-nil error. *)
Variable url_Parse : string -> option url.URL.

(** [html.Parse(strings.NewReader(input))]; its error is dropped. *)
Variable html_Parse : string -> Node.

(** [parseProperties] mutates [item] in place; here it returns the
    item it leaves behind. *)
Fixpoint parseProperties (n : Node) (item : MicrodataItem) (URL : string)
  : MicrodataItem :=
  match n with
  | mkNode _ _ _ children =>
      fold_left
        (fun item c =>
           match html.Type_ c with
           | ElementNode =>
               let prop := getAttrVal c "itemprop" in
               if negb (String.eqb prop "") then
                 if getAttr c "itemscope" then
                   let subItem := mkItem "" None ∅ in
                   let subItemType := getAttrVal c "itemtype" in
                   let subItem :=
                     if negb (String.eqb subItemType "")
                     then set_Type subItemType subItem else subItem in
                   let subItemID := getAttrVal c "itemid" in
                   let subItem :=
                     if negb (String.eqb subItemID "")
                     then set_ID subItemID subItem else subItem in
                   let subItem := parseProperties c subItem URL in
                   set_Property prop
                     (appendValue (Properties item !! prop) (VItem subItem))
                     item
                 else
                   let value := getTextContent c in
                   let datetime := getAttrVal c "datetime" in
                   let value :=
                     if negb (String.eqb datetime "") then datetime
                     else if String.eqb prop "url"
                             || strings.HasSuffix prop "Url" then
                       let href := getAttrVal c "href" in
                       if strings.HasPrefix href "//"
                          || strings.HasPrefix href "http://"
                          || strings.HasPrefix href "https://"
                       then href
                       else
                         let baseURL := "" in
                         let baseURL :=
                           match url_Parse URL with
                           | Some parsedURL =>
                               url.Scheme parsedURL +:+ "://"
                               +:+ url.Host parsedURL
                           | None => baseURL
                           end in
                         baseURL +:+ href
                     else value in
                   set_Property prop
                     (appendValue (Properties item !! prop) (VString value))
                     item
               else parseProperties c item URL
           | _ => item
           end)
        children item
  end.

(** The closure [parseNode] of [parseW3CMicrodata], with the slice
    [items] it appends to passed in and out. *)
Fixpoint parseNode (URL : string) (n : Node) (items : list MicrodataItem)
  : list MicrodataItem :=
  match n with
  | mkNode _ _ _ children =>
      if NodeType_eqb (html.Type_ n) ElementNode && getAttr n "itemscope" then
        let item := mkItem "" None ∅ in
        let itemType := getAttrVal n "itemtype" in
        let item :=
          if negb (String.eqb itemType "") then set_Type itemType item
          else item in
        let itemID := getAttrVal n "itemid" in
        let item :=
          if negb (String.eqb itemID "") then set_ID itemID item
          else item in
        let item := parseProperties n item URL in
        (items ++ [item])%list
      else
        fold_left (fun items c => parseNode URL c items) children items
  end.

Definition parseW3CMicrodata (URL input : string)
  : list MicrodataItem * list error :=
  let errors : list error := [] in
  let doc := html_Parse input in
  let items := parseNode URL doc [] in
  (items, errors).

Definition W3CMicrodata (URL htmlContent : string)
  : list MicrodataItem * list error :=
  let '(items, errors) := parseW3CMicrodata URL htmlContent in
  let results :=
    fold_left
      (fun results item =>
         let result := mkItem (Type_ item) None (Properties item) in
         let result :=
           match ID item with
           | Some s => set_ID s result
           | None => result
           end in
         (results ++ [result])%list)
      items [] in
  (results, errors).

(** *** Named pieces of [parseProperties] *)

(** The string computed for a property element that is not an item: the
    [else] branch of [parseProperties], from [value := getTextContent(c)]
    to the end of the [if] chain. *)
Definition propertyValue (URL : string) (c : Node) (prop : string)
  : string :=
  let value := getTextContent c in
  let datetime := getAttrVal c "datetime" in
  if negb (String.eqb datetime "") then datetime
  else if String.eqb prop "url" || strings.HasSuffix prop "Url" then
    let href := getAttrVal c "href" in
    if strings.HasPrefix href "//" || strings.HasPrefix href "http://"
       || strings.HasPrefix href "https://"
    then href
    else
      let baseURL :=
        match url_Parse URL with
        | Some parsedURL =>
            url.Scheme parsedURL +:+ "://" +:+ url.Host parsedURL
        | None => ""
        end in
      baseURL +:+ href
  else value.

(** *** Vocabulary that depends on [url.Parse] *)

(** The string [scheme://host] that [parseProperties] derives from the
    base URL; it is empty when the base URL does not parse. *)
Definition baseURL (URL : string) : string :=
  match url_Parse URL with
  | Some parsedURL => url.Scheme parsedURL +:+ "://" +:+ url.Host parsedURL
  | None => ""
  end.

(** One round of the loop of [parseProperties]: what the child [c] does
    to the item under construction. *)
Definition visit_child (URL : string) (item : MicrodataItem) (c : Node)
  : MicrodataItem :=
  match html.Type_ c with
  | ElementNode =>
      let prop := getAttrVal c "itemprop" in
      if negb (String.eqb prop "") then
        if getAttr c "itemscope" then
          let subItem := parseProperties c (newItem c) URL in
          set_Property prop
            (appendValue (Properties item !! prop) (VItem subItem)) item
        else
          let value := propertyValue URL c prop in
          set_Property prop
            (appendValue (Properties item !! prop) (VString value)) item
      else parseProperties c item URL
  | _ => item
  end.

(** The value that a property element gives to its name. *)
Definition bound_value (URL : string) (c : Node) (prop : string) : any :=
  if getAttr c "itemscope" then VItem (parseProperties c (newItem c) URL)
  else VString (propertyValue URL c prop).

(** The assignments [name := value] that the scan of [n] performs on the
    item under construction, in document order. *)
Fixpoint assignments (URL : string) (n : Node) : list (string * any) :=
  match n with
  | mkNode _ _ _ children =>
      flat_map
        (fun c =>
           match html.Type_ c with
           | ElementNode =>
               let prop := getAttrVal c "itemprop" in
               if negb (String.eqb prop "") then
                 [(prop, bound_value URL c prop)]
               else assignments URL c
           | _ => []
           end)
        children
  end.

(** *** The walker with its pointers *)

(** [parseProperties]: [item] is the pointer it is given, and the heap is
    passed in and out; [None] is a pointer to no item. *)
Fixpoint parseProperties_heap (n : Node) (item : heap.addr) (URL : string)
         (h : heap.t) : option heap.t :=
  match n with
  | mkNode _ _ _ children =>
      fold_left
        (fun oh c =>
           h ← oh;
           match html.Type_ c with
           | ElementNode =>
               let prop := getAttrVal c "itemprop" in
               if negb (String.eqb prop "") then
                 if getAttr c "itemscope" then
                   let '(properties, h) := heap.new (heap.Map ∅) h in
                   let '(subItem, h) :=
                     heap.new (heap.Item (heap.mkItem "" None properties))
                              h in
                   let subItemType := getAttrVal c "itemtype" in
                   h ← (if negb (String.eqb subItemType "")
                        then heap.set_Type subItem subItemType h
                        else Some h);
                   let subItemID := getAttrVal c "itemid" in
                   h ← (if negb (String.eqb subItemID "")
                        then
                          let '(p, h) := heap.new (heap.Str subItemID) h in
                          heap.set_ID subItem p h
                        else Some h);
                   h ← parseProperties_heap c subItem URL h;
                   heap.assign item prop (heap.Pointer subItem) h
                 else
                   let value := getTextContent c in
                   let datetime := getAttrVal c "datetime" in
                   let value :=
                     if negb (String.eqb datetime "") then datetime
                     else if String.eqb prop "url"
                             || strings.HasSuffix prop "Url" then
                       let href := getAttrVal c "href" in
                       if strings.HasPrefix href "//"
                          || strings.HasPrefix href "http://"
                          || strings.HasPrefix href "https://"
                       then href
                       else
                         let baseURL := "" in
                         let baseURL :=
                           match url_Parse URL with
                           | Some parsedURL =>
                               url.Scheme parsedURL +:+ "://"
                               +:+ url.Host parsedURL
                           | None => baseURL
                           end in
                         baseURL +:+ href
                     else value in
                   heap.assign item prop (heap.String_ value) h
               else parseProperties_heap c item URL h
           | _ => Some h
           end)
        children (Some h)
  end.

(** The closure [parseNode]: the slice [items] of pointers that it appends
    to and the heap are passed in and out. *)
Fixpoint parseNode_heap (URL : string) (n : Node)
         (st : list heap.addr * heap.t) : option (list heap.addr * heap.t) :=
  match n with
  | mkNode _ _ _ children =>
      if NodeType_eqb (html.Type_ n) ElementNode && getAttr n "itemscope" then
        let '(items, h) := st in
        let '(properties, h) := heap.new (heap.Map ∅) h in
        let '(item, h) :=
          heap.new (heap.Item (heap.mkItem "" None properties)) h in
        let itemType := getAttrVal n "itemtype" in
        h ← (if negb (String.eqb itemType "")
             then heap.set_Type item itemType h
             else Some h);
        let itemID := getAttrVal n "itemid" in
        h ← (if negb (String.eqb itemID "")
             then
               let '(p, h) := heap.new (heap.Str itemID) h in
               heap.set_ID item p h
             else Some h);
        h ← parseProperties_heap n item URL h;
        Some ((items ++ [item])%list, h)
      else
        fold_left (fun ost c => st ← ost; parseNode_heap URL c st)
                  children (Some st)
  end.

Definition parseW3CMicrodata_heap (URL input : string) (h : heap.t)
  : option (list heap.addr * list error * heap.t) :=
  let errors : list error := [] in
  let doc := html_Parse input in
  st ← parseNode_heap URL doc ([], h);
  let '(items, h) := st in
  Some (items, errors, h).

(** [W3CMicrodata]: the results are items held by value; their [ID] and
    [Properties] are the pointer and the map of the items pointed to. *)
Definition W3CMicrodata_heap (URL htmlContent : string) (h : heap.t)
  : option (list heap.MicrodataItem * list error * heap.t) :=
  r ← parseW3CMicrodata_heap URL htmlContent h;
  let '(items, errors, h) := r in
  results ←
    fold_left
      (fun oresults item =>
         results ← oresults;
         match h !! item with
         | Some (heap.Item i) =>
             let result :=
               heap.mkItem (heap.Type_ i) None (heap.Properties i) in
             let result :=
               match heap.ID i with
               | Some p =>
                   heap.mkItem (heap.Type_ result) (Some p)
                               (heap.Properties result)
               | None => result
               end in
             Some (results ++ [result])%list
         | _ => None
         end)
      items (Some []);
  Some (results, errors, h).

(** One round of the loop of [parseProperties_heap]. *)
Definition visit_child_heap (URL : string) (item : heap.addr) (h : heap.t)
           (c : Node) : option heap.t :=
  match html.Type_ c with
  | ElementNode =>
      let prop := getAttrVal c "itemprop" in
      if negb (String.eqb prop "") then
        if getAttr c "itemscope" then
          r ← newItem_heap c h;
          let '(subItem, h) := r in
          h ← parseProperties_heap c subItem URL h;
          heap.assign item prop (heap.Pointer subItem) h
        else
          heap.assign item prop (heap.String_ (propertyValue URL c prop)) h
      else parseProperties_heap c item URL h
  | _ => Some h
  end.

(** *** The meta-tag extractors *)

(** [time.Time], and its zero value [time.Time{}]. *)
Variable Time : Type.
Variable zero_Time : Time.

(** [fmt.Sscanf(s, "%d", &result)]: the number scanned, [None] for an
    error. *)
Variable Sscanf_d : string -> option Z.

(** [time.Parse(layout, value)], [None] for an error. *)
Variable time_Parse : string -> string -> option Time.

(** The tokens that [html.NewTokenizer(strings.NewReader(s))] returns
    from [Next] before it reports the end of the input. *)
Variable html_Tokenize : string -> list token.Token.

Definition parseIntSafely (s : string) : Z :=
  match Sscanf_d s with
  | Some result => result
  | None => 0%Z
  end.

Definition parseTimeSafely (s : string) : Time :=
  let formats :=
    ["2006-01-02T15:04:05Z07:00";
     "2006-01-02T15:04:05Z0700";
     "2006-01-02T15:04:05";
     "2006-01-02"] in
  let fix loop (formats : list string) : Time :=
    match formats with
    | [] => zero_Time
    | format :: rest =>
        match time_Parse format s with
        | Some t => t
        | None => loop rest
        end
    end in
  loop formats.


Definition handleMusicSongProperty (music : Music.t) (parts : list string)
           (content : string) : option (Music.t) :=
  grow ← (if Nat.eqb (length (Music.Song music)) 0 then Some true
          else p1 ← parts !! 1%nat;
               Some (String.eqb p1 "song"));
  let music :=
    if grow : bool then
      if Nat.ltb (length parts) 3
      then Music.set_Song (Music.Song music ++ [MusicSong.zero])%list music
      else music
    else music in
  let lastIdx := (Z.of_nat (length (Music.Song music)) - 1)%Z in
  if Nat.eqb (length parts) 2 then
    l ← update_at (Music.Song music) lastIdx (MusicSong.set_URL content);
    Some (Music.set_Song l music)
  else
    p2 ← parts !! 2%nat;
    if String.eqb p2 "disc" then
      l ← update_at (Music.Song music) lastIdx
            (MusicSong.set_Disc (parseIntSafely content));
      Some (Music.set_Song l music)
    else if String.eqb p2 "track" then
      l ← update_at (Music.Song music) lastIdx
            (MusicSong.set_Track (parseIntSafely content));
      Some (Music.set_Song l music)
    else Some music.

Definition handleVideoActorProperty (video : Video.t Time) (parts : list string)
           (content : string) : option (Video.t Time) :=
  grow ← (if Nat.eqb (length (Video.Actor video)) 0 then Some true
          else p1 ← parts !! 1%nat;
               Some (String.eqb p1 "actor"));
  let video :=
    if grow : bool then
      if Nat.ltb (length parts) 3
      then Video.set_Actor (Video.Actor video ++ [VideoActor.zero])%list video
      else video
    else video in
  let lastIdx := (Z.of_nat (length (Video.Actor video)) - 1)%Z in
  if Nat.eqb (length parts) 2 then
    l ← update_at (Video.Actor video) lastIdx (VideoActor.set_URL content);
    Some (Video.set_Actor l video)
  else
    p2 ← parts !! 2%nat;
    if String.eqb p2 "role" then
      l ← update_at (Video.Actor video) lastIdx
            (VideoActor.set_Role content);
      Some (Video.set_Actor l video)
    else Some video.

Definition handleXCardsImageProperty (xc : XCards.t Time) (parts : list string)
           (content : string) : option (XCards.t Time) :=
  grow ← (if Nat.eqb (length (XCards.XCardsImage xc)) 0 then Some true
          else p1 ← parts !! 1%nat;
               Some (String.eqb p1 "image"));
  let xc :=
    if grow : bool then
      if Nat.ltb (length parts) 3
      then XCards.set_XCardsImage (XCards.XCardsImage xc ++ [XCardsImage.zero])%list xc
      else xc
    else xc in
  let lastIdx := (Z.of_nat (length (XCards.XCardsImage xc)) - 1)%Z in
  if Nat.eqb (length parts) 2 then
    l ← update_at (XCards.XCardsImage xc) lastIdx (XCardsImage.set_URL content);
    Some (XCards.set_XCardsImage l xc)
  else
    p2 ← parts !! 2%nat;
    if String.eqb p2 "secure_url" then
      l ← update_at (XCards.XCardsImage xc) lastIdx
            (XCardsImage.set_SecureURL content);
      Some (XCards.set_XCardsImage l xc)
    else if String.eqb p2 "type" then
      l ← update_at (XCards.XCardsImage xc) lastIdx
            (XCardsImage.set_Type_ content);
      Some (XCards.set_XCardsImage l xc)
    else if String.eqb p2 "width" then
      l ← update_at (XCards.XCardsImage xc) lastIdx
            (XCardsImage.set_Width (parseIntSafely content));
      Some (XCards.set_XCardsImage l xc)
    else if String.eqb p2 "height" then
      l ← update_at (XCards.XCardsImage xc) lastIdx
            (XCardsImage.set_Height (parseIntSafely content));
      Some (XCards.set_XCardsImage l xc)
    else if String.eqb p2 "alt" then
      l ← update_at (XCards.XCardsImage xc) lastIdx
            (XCardsImage.set_Alt content);
      Some (XCards.set_XCardsImage l xc)
    else Some xc.

Definition handleXCardsVideoProperty (xc : XCards.t Time) (parts : list string)
           (content : string) : option (XCards.t Time) :=
  grow ← (if Nat.eqb (length (XCards.XCardsVideo xc)) 0 then Some true
          else p1 ← parts !! 1%nat;
               Some (String.eqb p1 "video"));
  let xc :=
    if grow : bool then
      if Nat.ltb (length parts) 3
      then XCards.set_XCardsVideo (XCards.XCardsVideo xc ++ [XCardsVideo.zero])%list xc
      else xc
    else xc in
  let lastIdx := (Z.of_nat (length (XCards.XCardsVideo xc)) - 1)%Z in
  if Nat.eqb (length parts) 2 then
    l ← update_at (XCards.XCardsVideo xc) lastIdx (XCardsVideo.set_URL content);
    Some (XCards.set_XCardsVideo l xc)
  else
    p2 ← parts !! 2%nat;
    if String.eqb p2 "secure_url" then
      l ← update_at (XCards.XCardsVideo xc) lastIdx
            (XCardsVideo.set_SecureURL content);
      Some (XCards.set_XCardsVideo l xc)
    else if String.eqb p2 "type" then
      l ← update_at (XCards.XCardsVideo xc) lastIdx
            (XCardsVideo.set_Type_ content);
      Some (XCards.set_XCardsVideo l xc)
    else if String.eqb p2 "width" then
      l ← update_at (XCards.XCardsVideo xc) lastIdx
            (XCardsVideo.set_Width (parseIntSafely content));
      Some (XCards.set_XCardsVideo l xc)
    else if String.eqb p2 "height" then
      l ← update_at (XCards.XCardsVideo xc) lastIdx
            (XCardsVideo.set_Height (parseIntSafely content));
      Some (XCards.set_XCardsVideo l xc)
    else Some xc.

Definition handleXCardsAudioProperty (xc : XCards.t Time) (parts : list string)
           (content : string) : option (XCards.t Time) :=
  grow ← (if Nat.eqb (length (XCards.XCardsAudio xc)) 0 then Some true
          else p1 ← parts !! 1%nat;
               Some (String.eqb p1 "audio"));
  let xc :=
    if grow : bool then
      if Nat.ltb (length parts) 3
      then XCards.set_XCardsAudio (XCards.XCardsAudio xc ++ [XCardsAudio.zero])%list xc
      else xc
    else xc in
  let lastIdx := (Z.of_nat (length (XCards.XCardsAudio xc)) - 1)%Z in
  if Nat.eqb (length parts) 2 then
    l ← update_at (XCards.XCardsAudio xc) lastIdx (XCardsAudio.set_URL content);
    Some (XCards.set_XCardsAudio l xc)
  else
    p2 ← parts !! 2%nat;
    if String.eqb p2 "secure_url" then
      l ← update_at (XCards.XCardsAudio xc) lastIdx
            (XCardsAudio.set_SecureURL content);
      Some (XCards.set_XCardsAudio l xc)
    else if String.eqb p2 "type" then
      l ← update_at (XCards.XCardsAudio xc) lastIdx
            (XCardsAudio.set_Type_ content);
      Some (XCards.set_XCardsAudio l xc)
    else Some xc.

Definition parseXCardsMetaTag (xc : XCards.t Time) (property content : string)
  : option (XCards.t Time) :=
  let parts := strings_Split property ":" in
  if String.eqb property "twitter:card" then
    Some (XCards.set_Card content xc)
  else if String.eqb property "twitter:site" then
    Some (XCards.set_Site content xc)
  else if String.eqb property "twitter:creator" then
    Some (XCards.set_Creator content xc)
  else if String.eqb property "twitter:type" then
    Some (XCards.set_Type_ content xc)
  else if String.eqb property "twitter:title" then
    Some (XCards.set_Title content xc)
  else if String.eqb property "twitter:url" then
    Some (XCards.set_URL content xc)
  else if String.eqb property "twitter:description" then
    Some (XCards.set_Description content xc)
  else if String.eqb property "twitter:determiner" then
    Some (XCards.set_Determiner content xc)
  else if String.eqb property "twitter:locale" then
    Some (XCards.set_Locale content xc)
  else if String.eqb property "twitter:locale:alternate" then
    Some (XCards.set_LocaleAlternate (XCards.LocaleAlternate xc ++ [content])%list xc)
  else if String.eqb property "twitter:site_name" then
    Some (XCards.set_SiteName content xc)
  else if strings.HasPrefix property "twitter:image" then
    handleXCardsImageProperty xc parts content
  else if strings.HasPrefix property "twitter:video" then
    handleXCardsVideoProperty xc parts content
  else if strings.HasPrefix property "twitter:audio" then
    handleXCardsAudioProperty xc parts content
  else if strings.HasPrefix property "music:" then
    let xc :=
      match XCards.Music xc with
      | None => XCards.set_Music (Some Music.zero) xc
      | Some _ => xc
      end in
    music ← XCards.Music xc;
    music ←
      (if String.eqb property "music:duration" then
         Some (Music.set_Duration (parseIntSafely content) music)
       else if String.eqb property "music:album" then
         Some (Music.set_Album content music)
       else if String.eqb property "music:album:disc" then
         Some (Music.set_AlbumDisc (parseIntSafely content) music)
       else if String.eqb property "music:album:track" then
         Some (Music.set_AlbumTrack (parseIntSafely content) music)
       else if String.eqb property "music:musician" then
         Some (Music.set_Musician (Music.Musician music ++ [content])%list
                 music)
       else if strings.HasPrefix property "music:song" then
         handleMusicSongProperty music parts content
       else if String.eqb property "music:creator" then
         Some (Music.set_Creator (Music.Creator music ++ [content])%list music)
       else if String.eqb property "music:release_date" then
         Some (Music.set_ReleaseDate content music)
       else Some music);
    Some (XCards.set_Music (Some music) xc)
  else if strings.HasPrefix property "video:" then
    let xc :=
      match XCards.Video xc with
      | None => XCards.set_Video (Some (Video.zero zero_Time)) xc
      | Some _ => xc
      end in
    video ← XCards.Video xc;
    video ←
      (if strings.HasPrefix property "video:actor" then
         handleVideoActorProperty video parts content
       else if String.eqb property "video:director" then
         Some (Video.set_Director (Video.Director video ++ [content])%list
                 video)
       else if String.eqb property "video:writer" then
         Some (Video.set_Writer (Video.Writer video ++ [content])%list video)
       else if String.eqb property "video:duration" then
         Some (Video.set_Duration (parseIntSafely content) video)
       else if String.eqb property "video:release_date" then
         Some (Video.set_ReleaseDate (parseTimeSafely content) video)
       else if String.eqb property "video:tag" then
         Some (Video.set_Tag (Video.Tag video ++ [content])%list video)
       else if String.eqb property "video:series" then
         Some (Video.set_Series content video)
       else Some video);
    Some (XCards.set_Video (Some video) xc)
  else if strings.HasPrefix property "article:" then
    let xc :=
      match XCards.Article xc with
      | None => XCards.set_Article (Some (Article.zero zero_Time)) xc
      | Some _ => xc
      end in
    article ← XCards.Article xc;
    let article :=
      if String.eqb property "article:published_time" then
        Article.set_PublishedTime (parseTimeSafely content) article
      else if String.eqb property "article:modified_time" then
        Article.set_ModifiedTime (parseTimeSafely content) article
      else if String.eqb property "article:expiration_time" then
        Article.set_ExpirationTime (parseTimeSafely content) article
      else if String.eqb property "article:author" then
        Article.set_Author (Article.Author article ++ [content])%list article
      else if String.eqb property "article:section" then
        Article.set_Section_ content article
      else if String.eqb property "article:tag" then
        Article.set_Tag (Article.Tag article ++ [content])%list article
      else article in
    Some (XCards.set_Article (Some article) xc)
  else if strings.HasPrefix property "book:" then
    let xc :=
      match XCards.Book xc with
      | None => XCards.set_Book (Some (Book.zero zero_Time)) xc
      | Some _ => xc
      end in
    book ← XCards.Book xc;
    let book :=
      if String.eqb property "book:isbn" then Book.set_ISBN content book
      else if String.eqb property "book:release_date" then
        Book.set_ReleaseDate (parseTimeSafely content) book
      else if String.eqb property "book:author" then
        Book.set_Author (Book.Author book ++ [content])%list book
      else if String.eqb property "book:tag" then
        Book.set_Tag (Book.Tag book ++ [content])%list book
      else book in
    Some (XCards.set_Book (Some book) xc)
  else if strings.HasPrefix property "profile:" then
    let xc :=
      match XCards.Profile xc with
      | None => XCards.set_Profile (Some Profile.zero) xc
      | Some _ => xc
      end in
    profile ← XCards.Profile xc;
    let profile :=
      if String.eqb property "profile:first_name" then
        Profile.set_FirstName content profile
      else if String.eqb property "profile:last_name" then
        Profile.set_LastName content profile
      else if String.eqb property "profile:username" then
        Profile.set_Username content profile
      else if String.eqb property "profile:gender" then
        Profile.set_Gender content profile
      else profile in
    Some (XCards.set_Profile (Some profile) xc)
  else Some xc.

Definition NewXCards : XCards.t Time := XCards.zero.

(** The loop of [extractXCards] over the tokens that the tokenizer returns
    before the end of the input; [xcHasValue] records that some tag was
    accepted. *)
Fixpoint extractXCards_loop (tokens : list token.Token) (xc : XCards.t Time)
         (xcHasValue : bool) : option (XCards.t Time * bool) :=
  match tokens with
  | [] => Some (xc, xcHasValue)
  | tok :: rest =>
      match token.Type_ tok with
      | token.StartTagToken | token.SelfClosingTagToken
      | token.EndTagToken =>
          if negb (String.eqb (token.Data tok) "meta")
             || Nat.eqb (length (token.Attr tok)) 0
          then extractXCards_loop rest xc xcHasValue
          else
            let '(property, content) :=
              fold_left
                (fun '(property, content) attr =>
                   if String.eqb (Key attr) "name"
                   then (Val attr, content)
                   else if String.eqb (Key attr) "content"
                        then (property, Val attr)
                        else (property, content))
                (token.Attr tok) ("", "") in
            if negb (String.eqb property "") && negb (String.eqb content "")
            then
              xc ← parseXCardsMetaTag xc property content;
              extractXCards_loop rest xc true
            else extractXCards_loop rest xc xcHasValue
      | _ => extractXCards_loop rest xc xcHasValue
      end
  end.

(** [extractXCards]: the outer [option] is [None] when the run panics; the
    inner one is the pointer it returns, [None] for nil.  The tokenizer
    reads from a string, so that its only error is the end of the input
    and [errors] stays empty. *)
Definition extractXCards (htmlContent : string)
  : option (option (XCards.t Time) * list error) :=
  let errors : list error := [] in
  let xc := NewXCards in
  r ← extractXCards_loop (html_Tokenize htmlContent) xc false;
  let '(xc, xcHasValue) := r in
  if xcHasValue : bool then Some (Some xc, errors) else Some (None, errors).

Definition handleOpenGraphImageProperty (og : OpenGraph.t Time) (parts : list string)
           (content : string) : option (OpenGraph.t Time) :=
  grow ← (if Nat.eqb (length (OpenGraph.OpenGraphImage og)) 0 then Some true
          else p1 ← parts !! 1%nat;
               Some (String.eqb p1 "image"));
  let og :=
    if grow : bool then
      if Nat.ltb (length parts) 3
      then OpenGraph.set_OpenGraphImage (OpenGraph.OpenGraphImage og ++ [OpenGraphImage.zero])%list og
      else og
    else og in
  let lastIdx := (Z.of_nat (length (OpenGraph.OpenGraphImage og)) - 1)%Z in
  if Nat.eqb (length parts) 2 then
    l ← update_at (OpenGraph.OpenGraphImage og) lastIdx (OpenGraphImage.set_URL content);
    Some (OpenGraph.set_OpenGraphImage l og)
  else
    p2 ← parts !! 2%nat;
    if String.eqb p2 "secure_url" then
      l ← update_at (OpenGraph.OpenGraphImage og) lastIdx
            (OpenGraphImage.set_SecureURL content);
      Some (OpenGraph.set_OpenGraphImage l og)
    else if String.eqb p2 "type" then
      l ← update_at (OpenGraph.OpenGraphImage og) lastIdx
            (OpenGraphImage.set_Type_ content);
      Some (OpenGraph.set_OpenGraphImage l og)
    else if String.eqb p2 "width" then
      l ← update_at (OpenGraph.OpenGraphImage og) lastIdx
            (OpenGraphImage.set_Width (parseIntSafely content));
      Some (OpenGraph.set_OpenGraphImage l og)
    else if String.eqb p2 "height" then
      l ← update_at (OpenGraph.OpenGraphImage og) lastIdx
            (OpenGraphImage.set_Height (parseIntSafely content));
      Some (OpenGraph.set_OpenGraphImage l og)
    else if String.eqb p2 "alt" then
      l ← update_at (OpenGraph.OpenGraphImage og) lastIdx
            (OpenGraphImage.set_Alt content);
      Some (OpenGraph.set_OpenGraphImage l og)
    else Some og.

Definition handleOpenGraphVideoProperty (og : OpenGraph.t Time) (parts : list string)
           (content : string) : option (OpenGraph.t Time) :=
  grow ← (if Nat.eqb (length (OpenGraph.OpenGraphVideo og)) 0 then Some true
          else p1 ← parts !! 1%nat;
               Some (String.eqb p1 "video"));
  let og :=
    if grow : bool then
      if Nat.ltb (length parts) 3
      then OpenGraph.set_OpenGraphVideo (OpenGraph.OpenGraphVideo og ++ [OpenGraphVideo.zero])%list og
      else og
    else og in
  let lastIdx := (Z.of_nat (length (OpenGraph.OpenGraphVideo og)) - 1)%Z in
  if Nat.eqb (length parts) 2 then
    l ← update_at (OpenGraph.OpenGraphVideo og) lastIdx (OpenGraphVideo.set_URL content);
    Some (OpenGraph.set_OpenGraphVideo l og)
  else
    p2 ← parts !! 2%nat;
    if String.eqb p2 "secure_url" then
      l ← update_at (OpenGraph.OpenGraphVideo og) lastIdx
            (OpenGraphVideo.set_SecureURL content);
      Some (OpenGraph.set_OpenGraphVideo l og)
    else if String.eqb p2 "type" then
      l ← update_at (OpenGraph.OpenGraphVideo og) lastIdx
            (OpenGraphVideo.set_Type_ content);
      Some (OpenGraph.set_OpenGraphVideo l og)
    else if String.eqb p2 "width" then
      l ← update_at (OpenGraph.OpenGraphVideo og) lastIdx
            (OpenGraphVideo.set_Width (parseIntSafely content));
      Some (OpenGraph.set_OpenGraphVideo l og)
    else if String.eqb p2 "height" then
      l ← update_at (OpenGraph.OpenGraphVideo og) lastIdx
            (OpenGraphVideo.set_Height (parseIntSafely content));
      Some (OpenGraph.set_OpenGraphVideo l og)
    else Some og.

Definition handleOpenGraphAudioProperty (og : OpenGraph.t Time) (parts : list string)
           (content : string) : option (OpenGraph.t Time) :=
  grow ← (if Nat.eqb (length (OpenGraph.OpenGraphAudio og)) 0 then Some true
          else p1 ← parts !! 1%nat;
               Some (String.eqb p1 "audio"));
  let og :=
    if grow : bool then
      if Nat.ltb (length parts) 3
      then OpenGraph.set_OpenGraphAudio (OpenGraph.OpenGraphAudio og ++ [OpenGraphAudio.zero])%list og
      else og
    else og in
  let lastIdx := (Z.of_nat (length (OpenGraph.OpenGraphAudio og)) - 1)%Z in
  if Nat.eqb (length parts) 2 then
    l ← update_at (OpenGraph.OpenGraphAudio og) lastIdx (OpenGraphAudio.set_URL content);
    Some (OpenGraph.set_OpenGraphAudio l og)
  else
    p2 ← parts !! 2%nat;
    if String.eqb p2 "secure_url" then
      l ← update_at (OpenGraph.OpenGraphAudio og) lastIdx
            (OpenGraphAudio.set_SecureURL content);
      Some (OpenGraph.set_OpenGraphAudio l og)
    else if String.eqb p2 "type" then
      l ← update_at (OpenGraph.OpenGraphAudio og) lastIdx
            (OpenGraphAudio.set_Type_ content);
      Some (OpenGraph.set_OpenGraphAudio l og)
    else Some og.

Definition parseOpenGraphMetaTag (og : OpenGraph.t Time) (property content : string)
  : option (OpenGraph.t Time) :=
  let parts := strings_Split property ":" in
  if String.eqb property "og:type" then
    Some (OpenGraph.set_Type_ content og)
  else if String.eqb property "og:title" then
    Some (OpenGraph.set_Title content og)
  else if String.eqb property "og:url" then
    Some (OpenGraph.set_URL content og)
  else if String.eqb property "og:description" then
    Some (OpenGraph.set_Description content og)
  else if String.eqb property "og:determiner" then
    Some (OpenGraph.set_Determiner content og)
  else if String.eqb property "og:locale" then
    Some (OpenGraph.set_Locale content og)
  else if String.eqb property "og:locale:alternate" then
    Some (OpenGraph.set_LocaleAlternate (OpenGraph.LocaleAlternate og ++ [content])%list og)
  else if String.eqb property "og:site_name" then
    Some (OpenGraph.set_SiteName content og)
  else if strings.HasPrefix property "og:image" then
    handleOpenGraphImageProperty og parts content
  else if strings.HasPrefix property "og:video" then
    handleOpenGraphVideoProperty og parts content
  else if strings.HasPrefix property "og:audio" then
    handleOpenGraphAudioProperty og parts content
  else if strings.HasPrefix property "music:" then
    let og :=
      match OpenGraph.Music og with
      | None => OpenGraph.set_Music (Some Music.zero) og
      | Some _ => og
      end in
    music ← OpenGraph.Music og;
    music ←
      (if String.eqb property "music:duration" then
         Some (Music.set_Duration (parseIntSafely content) music)
       else if String.eqb property "music:album" then
         Some (Music.set_Album content music)
       else if String.eqb property "music:album:disc" then
         Some (Music.set_AlbumDisc (parseIntSafely content) music)
       else if String.eqb property "music:album:track" then
         Some (Music.set_AlbumTrack (parseIntSafely content) music)
       else if String.eqb property "music:musician" then
         Some (Music.set_Musician (Music.Musician music ++ [content])%list
                 music)
       else if strings.HasPrefix property "music:song" then
         handleMusicSongProperty music parts content
       else if String.eqb property "music:release_date" then
         Some (Music.set_ReleaseDate content music)
       else if String.eqb property "music:creator" then
         Some (Music.set_Creator (Music.Creator music ++ [content])%list music)
       else Some music);
    Some (OpenGraph.set_Music (Some music) og)
  else if strings.HasPrefix property "video:" then
    let og :=
      match OpenGraph.Video og with
      | None => OpenGraph.set_Video (Some (Video.zero zero_Time)) og
      | Some _ => og
      end in
    video ← OpenGraph.Video og;
    video ←
      (if strings.HasPrefix property "video:actor" then
         handleVideoActorProperty video parts content
       else if String.eqb property "video:director" then
         Some (Video.set_Director (Video.Director video ++ [content])%list
                 video)
       else if String.eqb property "video:writer" then
         Some (Video.set_Writer (Video.Writer video ++ [content])%list video)
       else if String.eqb property "video:duration" then
         Some (Video.set_Duration (parseIntSafely content) video)
       else if String.eqb property "video:release_date" then
         Some (Video.set_ReleaseDate (parseTimeSafely content) video)
       else if String.eqb property "video:tag" then
         Some (Video.set_Tag (Video.Tag video ++ [content])%list video)
       else if String.eqb property "video:series" then
         Some (Video.set_Series content video)
       else Some video);
    Some (OpenGraph.set_Video (Some video) og)
  else if strings.HasPrefix property "article:" then
    let og :=
      match OpenGraph.Article og with
      | None => OpenGraph.set_Article (Some (Article.zero zero_Time)) og
      | Some _ => og
      end in
    article ← OpenGraph.Article og;
    let article :=
      if String.eqb property "article:published_time" then
        Article.set_PublishedTime (parseTimeSafely content) article
      else if String.eqb property "article:modified_time" then
        Article.set_ModifiedTime (parseTimeSafely content) article
      else if String.eqb property "article:expiration_time" then
        Article.set_ExpirationTime (parseTimeSafely content) article
      else if String.eqb property "article:author" then
        Article.set_Author (Article.Author article ++ [content])%list article
      else if String.eqb property "article:section" then
        Article.set_Section_ content article
      else if String.eqb property "article:tag" then
        Article.set_Tag (Article.Tag article ++ [content])%list article
      else article in
    Some (OpenGraph.set_Article (Some article) og)
  else if strings.HasPrefix property "book:" then
    let og :=
      match OpenGraph.Book og with
      | None => OpenGraph.set_Book (Some (Book.zero zero_Time)) og
      | Some _ => og
      end in
    book ← OpenGraph.Book og;
    let book :=
      if String.eqb property "book:isbn" then Book.set_ISBN content book
      else if String.eqb property "book:release_date" then
        Book.set_ReleaseDate (parseTimeSafely content) book
      else if String.eqb property "book:author" then
        Book.set_Author (Book.Author book ++ [content])%list book
      else if String.eqb property "book:tag" then
        Book.set_Tag (Book.Tag book ++ [content])%list book
      else book in
    Some (OpenGraph.set_Book (Some book) og)
  else if strings.HasPrefix property "profile:" then
    let og :=
      match OpenGraph.Profile og with
      | None => OpenGraph.set_Profile (Some Profile.zero) og
      | Some _ => og
      end in
    profile ← OpenGraph.Profile og;
    let profile :=
      if String.eqb property "profile:first_name" then
        Profile.set_FirstName content profile
      else if String.eqb property "profile:last_name" then
        Profile.set_LastName content profile
      else if String.eqb property "profile:username" then
        Profile.set_Username content profile
      else if String.eqb property "profile:gender" then
        Profile.set_Gender content profile
      else profile in
    Some (OpenGraph.set_Profile (Some profile) og)
  else Some og.

Definition NewOpenGraph : OpenGraph.t Time := OpenGraph.zero.

(** The loop of [extractOpenGraph] over the tokens that the tokenizer returns
    before the end of the input; [ogHasValue] records that some tag was
    accepted. *)
Fixpoint extractOpenGraph_loop (tokens : list token.Token) (og : OpenGraph.t Time)
         (ogHasValue : bool) : option (OpenGraph.t Time * bool) :=
  match tokens with
  | [] => Some (og, ogHasValue)
  | tok :: rest =>
      match token.Type_ tok with
      | token.StartTagToken | token.SelfClosingTagToken
      | token.EndTagToken =>
          if negb (String.eqb (token.Data tok) "meta")
             || Nat.eqb (length (token.Attr tok)) 0
          then extractOpenGraph_loop rest og ogHasValue
          else
            let '(property, content) :=
              fold_left
                (fun '(property, content) attr =>
                   if String.eqb (Key attr) "property"
                   then (Val attr, content)
                   else if String.eqb (Key attr) "content"
                        then (property, Val attr)
                        else (property, content))
                (token.Attr tok) ("", "") in
            if negb (String.eqb property "") && negb (String.eqb content "")
            then
              og ← parseOpenGraphMetaTag og property content;
              extractOpenGraph_loop rest og true
            else extractOpenGraph_loop rest og ogHasValue
      | _ => extractOpenGraph_loop rest og ogHasValue
      end
  end.

(** [extractOpenGraph]: the outer [option] is [None] when the run panics; the
    inner one is the pointer it returns, [None] for nil.  The tokenizer
    reads from a string, so that its only error is the end of the input
    and [errors] stays empty. *)
Definition extractOpenGraph (htmlContent : string)
  : option (option (OpenGraph.t Time) * list error) :=
  let errors : list error := [] in
  let og := NewOpenGraph in
  r ← extractOpenGraph_loop (html_Tokenize htmlContent) og false;
  let '(og, ogHasValue) := r in
  if ogHasValue : bool then Some (Some og, errors) else Some (None, errors).

(** [ParseOpenGraph]: the item as an [any], nil when there is none. *)
Definition ParseOpenGraph (URL htmlContent : string)
  : option (option (OpenGraph.t Time) * list error) :=
  r ← extractOpenGraph htmlContent;
  let '(item, errors) := r in
  let results : option (OpenGraph.t Time) :=
    match item with
    | Some og => Some og
    | None => None
    end in
  Some (results, errors).

(** *** Vocabulary of the meta-tag extractors *)

(** The assignments that the handlers make for the third part of a
    property name. *)

Definition image_sub (content : string) (key : string)
  : option (XCardsImage.t -> XCardsImage.t) :=
  if String.eqb key "secure_url" then Some (XCardsImage.set_SecureURL content)
  else if String.eqb key "type" then Some (XCardsImage.set_Type_ content)
  else if String.eqb key "width" then Some (XCardsImage.set_Width (parseIntSafely content))
  else if String.eqb key "height" then Some (XCardsImage.set_Height (parseIntSafely content))
  else if String.eqb key "alt" then Some (XCardsImage.set_Alt content)
  else None.

Definition video_sub (content : string) (key : string)
  : option (XCardsVideo.t -> XCardsVideo.t) :=
  if String.eqb key "secure_url" then Some (XCardsVideo.set_SecureURL content)
  else if String.eqb key "type" then Some (XCardsVideo.set_Type_ content)
  else if String.eqb key "width" then Some (XCardsVideo.set_Width (parseIntSafely content))
  else if String.eqb key "height" then Some (XCardsVideo.set_Height (parseIntSafely content))
  else None.

Definition audio_sub (content : string) (key : string)
  : option (XCardsAudio.t -> XCardsAudio.t) :=
  if String.eqb key "secure_url" then Some (XCardsAudio.set_SecureURL content)
  else if String.eqb key "type" then Some (XCardsAudio.set_Type_ content)
  else None.

Definition og_image_sub (content : string) (key : string)
  : option (OpenGraphImage.t -> OpenGraphImage.t) :=
  if String.eqb key "secure_url" then Some (OpenGraphImage.set_SecureURL content)
  else if String.eqb key "type" then Some (OpenGraphImage.set_Type_ content)
  else if String.eqb key "width" then Some (OpenGraphImage.set_Width (parseIntSafely content))
  else if String.eqb key "height" then Some (OpenGraphImage.set_Height (parseIntSafely content))
  else if String.eqb key "alt" then Some (OpenGraphImage.set_Alt content)
  else None.

Definition og_video_sub (content : string) (key : string)
  : option (OpenGraphVideo.t -> OpenGraphVideo.t) :=
  if String.eqb key "secure_url" then Some (OpenGraphVideo.set_SecureURL content)
  else if String.eqb key "type" then Some (OpenGraphVideo.set_Type_ content)
  else if String.eqb key "width" then Some (OpenGraphVideo.set_Width (parseIntSafely content))
  else if String.eqb key "height" then Some (OpenGraphVideo.set_Height (parseIntSafely content))
  else None.

Definition og_audio_sub (content : string) (key : string)
  : option (OpenGraphAudio.t -> OpenGraphAudio.t) :=
  if String.eqb key "secure_url" then Some (OpenGraphAudio.set_SecureURL content)
  else if String.eqb key "type" then Some (OpenGraphAudio.set_Type_ content)
  else None.

Definition song_sub (content : string) (key : string)
  : option (MusicSong.t -> MusicSong.t) :=
  if String.eqb key "disc" then Some (MusicSong.set_Disc (parseIntSafely content))
  else if String.eqb key "track" then Some (MusicSong.set_Track (parseIntSafely content))
  else None.

Definition actor_sub (content : string) (key : string)
  : option (VideoActor.t -> VideoActor.t) :=
  if String.eqb key "role" then Some (VideoActor.set_Role content)
  else None.

(** ** Induction on documents *)

Lemma Node_tree_ind (P : Node -> Prop) :
  (forall t data attrs children,
      Forall P children -> P (mkNode t data attrs children)) ->
  forall n, P n.
Proof.
  intros step.
  fix IH 1.
  intros [t data attrs children].
  apply step.
  induction children as [|c cs IHcs].
  - constructor.
  - constructor; [apply IH | exact IHcs].
Qed.

(** ** Strings *)




Lemma eqb_empty_false (s : string) : s <> "" -> String.eqb s "" = false.
Proof. intros H. now apply String.eqb_neq. Qed.

Example TrimSpace_ascii : strings.TrimSpace "  a b " = "a b".
Proof. reflexivity. Qed.

Example TrimSpace_unicode :
  strings.TrimSpace
    (line_feed +:+ no_break_space +:+ "a" +:+ no_break_space +:+ "b "
     +:+ no_break_space +:+ line_feed)
  = "a" +:+ no_break_space +:+ "b".
Proof. reflexivity. Qed.

Example TrimSpace_blank : strings.TrimSpace (" " +:+ line_feed) = "".
Proof. reflexivity. Qed.

Lemma strip_length (p l rest : list ascii) :
  strings.strip p l = Some rest -> length l = length p + length rest.
Proof.
  revert l. induction p as [|a p IH]; intros l H; simpl in *.
  - now inversion H.
  - destruct l as [|b l]; [discriminate|].
    destruct (Ascii.eqb a b); [|discriminate].
    simpl. f_equal. now apply IH.
Qed.

Lemma strip_space_shorter (runes : list (list ascii)) (l rest : list ascii) :
  Forall (fun r => r <> []) runes ->
  strings.strip_space runes l = Some rest -> length rest < length l.
Proof.
  intros Hne. induction Hne as [|r runes Hr _ IH]; simpl; [discriminate|].
  destruct (strings.strip r l) as [rest'|] eqn:E; [|exact IH].
  intros H. inversion H. subst rest'.
  apply strip_length in E. destruct r; [congruence | simpl in E; lia].
Qed.

Lemma strip_space_nil (runes : list (list ascii)) :
  Forall (fun r => r <> []) runes -> strings.strip_space runes [] = None.
Proof.
  intros Hne. induction Hne as [|r runes Hr _ IH]; simpl; [reflexivity|].
  destruct r; [congruence | exact IH].
Qed.

(** The fuel of [trim_left] is enough: no white space is left in front. *)
Lemma trim_left_done (runes : list (list ascii)) :
  Forall (fun r => r <> []) runes ->
  forall fuel l, length l <= fuel ->
    strings.strip_space runes (strings.trim_left fuel runes l) = None.
Proof.
  intros Hne fuel. induction fuel as [|fuel IH]; intros l Hl; simpl.
  - destruct l; [now apply strip_space_nil | simpl in Hl; lia].
  - destruct (strings.strip_space runes l) as [rest|] eqn:E; [|exact E].
    apply IH. pose proof (strip_space_shorter runes l rest Hne E). lia.
Qed.

(** ** Attributes *)

Lemma getAttr_lookupAttr (n : Node) (key : string) :
  getAttr n key = match lookupAttr n key with Some _ => true | None => false end.
Proof.
  unfold getAttr, lookupAttr.
  induction (Attr n) as [|a attrs IH]; simpl; [reflexivity|].
  destruct (String.eqb (Key a) key); [reflexivity | exact IH].
Qed.

Lemma getAttrVal_lookupAttr (n : Node) (key : string) :
  getAttrVal n key =
  match lookupAttr n key with
  | Some v => strings.TrimSpace v
  | None => ""
  end.
Proof.
  unfold getAttrVal, lookupAttr.
  induction (Attr n) as [|a attrs IH]; simpl; [reflexivity|].
  destruct (String.eqb (Key a) key); [reflexivity | exact IH].
Qed.

Lemma value_loop_lookupAttr (n : Node) :
  value_loop (Attr n) =
  match lookupAttr n "value" with Some v => v | None => "" end.
Proof.
  unfold lookupAttr.
  induction (Attr n) as [|a attrs IH]; simpl; [reflexivity|].
  destruct (String.eqb (Key a) "value"); [reflexivity | exact IH].
Qed.

(** ** The loop of [parseProperties] *)

Lemma parseProperties_unfold (URL : string) (n : Node) (item : MicrodataItem) :
  parseProperties n item URL = fold_left (visit_child URL) (Children n) item.
Proof. destruct n; reflexivity. Qed.

Lemma parseProperties_children (URL : string) t data attrs pre c post item :
  parseProperties (mkNode t data attrs (pre ++ c :: post)%list) item URL =
  fold_left (visit_child URL) post
            (visit_child URL (fold_left (visit_child URL) pre item) c).
Proof. rewrite parseProperties_unfold. simpl. now rewrite fold_left_app. Qed.

Lemma visit_child_scalar (URL : string) (item : MicrodataItem) c prop :
  property_element c prop ->
  visit_child URL item c =
  set_Property prop
    (appendValue (Properties item !! prop) (VString (propertyValue URL c prop)))
    item.
Proof.
  intros (Ht & Hp & Hne & Hs). unfold visit_child.
  rewrite Ht, Hp, Hs, (eqb_empty_false _ Hne). reflexivity.
Qed.

Lemma visit_child_item (URL : string) (item : MicrodataItem) c prop :
  item_property_element c prop ->
  visit_child URL item c =
  set_Property prop
    (appendValue (Properties item !! prop)
                 (VItem (parseProperties c (newItem c) URL)))
    item.
Proof.
  intros (Ht & Hp & Hne & Hs). unfold visit_child.
  rewrite Ht, Hp, Hs, (eqb_empty_false _ Hne). reflexivity.
Qed.

Lemma visit_child_descend (URL : string) (item : MicrodataItem) c :
  html.Type_ c = ElementNode -> getAttrVal c "itemprop" = "" ->
  visit_child URL item c = parseProperties c item URL.
Proof. intros Ht Hp. unfold visit_child. now rewrite Ht, Hp. Qed.

Lemma visit_child_bound (URL : string) (item : MicrodataItem) c prop :
  html.Type_ c = ElementNode -> getAttrVal c "itemprop" = prop -> prop <> "" ->
  visit_child URL item c = assign item (prop, bound_value URL c prop).
Proof.
  intros Ht Hp Hne. unfold visit_child, assign, bound_value. simpl.
  rewrite Ht, Hp, (eqb_empty_false _ Hne). simpl.
  destruct (getAttr c "itemscope"); reflexivity.
Qed.

(** ** Text content *)







(** ** The scan as a sequence of assignments *)

Lemma parseProperties_trace (URL : string) (n : Node) :
  forall item,
    parseProperties n item URL = fold_left assign (assignments URL n) item.
Proof.
  induction n as [t data attrs children IH] using Node_tree_ind.
  intros item. rewrite parseProperties_unfold. simpl.
  revert item.
  induction IH as [|c cs Hc _ IHcs]; intros item; simpl; [reflexivity|].
  rewrite fold_left_app, IHcs. f_equal.
  destruct (html.Type_ c) eqn:Ht;
    try (unfold visit_child; rewrite Ht; reflexivity).
  destruct (String.eqb (getAttrVal c "itemprop") "") eqn:Hp; simpl.
  - apply String.eqb_eq in Hp.
    rewrite (visit_child_descend URL item c Ht Hp). apply Hc.
  - apply String.eqb_neq in Hp.
    apply (visit_child_bound URL item c _ Ht eq_refl Hp).
Qed.

Lemma assign_fields (item : MicrodataItem) (pv : string * any) :
  Type_ (assign item pv) = Type_ item /\ ID (assign item pv) = ID item.
Proof. split; reflexivity. Qed.

Lemma parseProperties_fields (URL : string) (n : Node) (item : MicrodataItem) :
  Type_ (parseProperties n item URL) = Type_ item /\
  ID (parseProperties n item URL) = ID item.
Proof.
  rewrite parseProperties_trace.
  generalize (assignments URL n) as l. intros l. revert item.
  induction l as [|pv l IH]; intros item; simpl; [split; reflexivity|].
  destruct (IH (assign item pv)) as [Ht Hi].
  now rewrite Ht, Hi.
Qed.

Lemma assign_lookup (item : MicrodataItem) (q : string) (v : any) (p : string) :
  Properties (assign item (q, v)) !! p =
  if String.eqb q p then Some (appendValue (Properties item !! p) v)
  else Properties item !! p.
Proof.
  unfold assign, set_Property. simpl.
  destruct (String.eqb q p) eqn:E.
  - apply String.eqb_eq in E. subst q. apply lookup_insert_eq.
  - apply String.eqb_neq in E. now apply lookup_insert_ne.
Qed.

Lemma fold_assign_lookup (l : list (string * any)) :
  forall item p,
    Properties (fold_left assign l item) !! p =
    accumulate (Properties item !! p) (values_for p l).
Proof.
  induction l as [|[q v] l IH]; intros item p; [reflexivity|].
  simpl fold_left. rewrite IH, assign_lookup.
  unfold values_for. simpl.
  destruct (String.eqb q p); reflexivity.
Qed.

Lemma accumulate_snoc (o : option any) (vs : list any) (v : any) :
  accumulate o (vs ++ [v])%list = Some (appendValue (accumulate o vs) v).
Proof. unfold accumulate. now rewrite fold_left_app. Qed.

Lemma accumulate_fresh (vs : list any) :
  Forall (fun v => is_slice v = false) vs -> accumulate None vs = slot vs.
Proof.
  induction vs as [|v vs IH] using rev_ind; intros H; [reflexivity|].
  apply Forall_app in H as [Hvs _].
  rewrite accumulate_snoc, (IH Hvs).
  destruct vs as [|a [|b r]]; [reflexivity | | reflexivity].
  apply Forall_inv in Hvs. simpl.
  destruct a; [reflexivity | reflexivity | discriminate].
Qed.

Lemma bound_value_not_slice (URL : string) c prop :
  is_slice (bound_value URL c prop) = false.
Proof. unfold bound_value. now destruct (getAttr c "itemscope"). Qed.

Lemma assignments_not_slice (URL : string) (n : Node) :
  Forall (fun pv => is_slice (snd pv) = false) (assignments URL n).
Proof.
  induction n as [t data attrs children IH] using Node_tree_ind. simpl.
  induction IH as [|c cs Hc _ IHcs]; simpl; [constructor|].
  apply Forall_app. split; [|exact IHcs].
  destruct (html.Type_ c); try constructor.
  destruct (negb (String.eqb (getAttrVal c "itemprop") "")); [|exact Hc].
  constructor; [apply bound_value_not_slice | constructor].
Qed.

Lemma values_for_not_slice (p : string) (l : list (string * any)) :
  Forall (fun pv => is_slice (snd pv) = false) l ->
  Forall (fun v => is_slice v = false) (values_for p l).
Proof.
  intros H. unfold values_for.
  induction H as [|pv l Hpv _ IH]; simpl; [constructor|].
  destruct (String.eqb (fst pv) p); simpl; [constructor|]; assumption.
Qed.

(** The slot of every property name after the scan of [n] has filled a
    fresh item. *)
Lemma parseProperties_slot (URL : string) (n : Node) (T : string)
      (I : option string) (prop : string) :
  Properties (parseProperties n (mkItem T I ∅) URL) !! prop =
  slot (values_for prop (assignments URL n)).
Proof.
  rewrite parseProperties_trace, fold_assign_lookup. simpl.
  rewrite lookup_empty.
  apply accumulate_fresh, values_for_not_slice, assignments_not_slice.
Qed.

Lemma newItem_Properties (n : Node) : Properties (newItem n) = ∅.
Proof.
  unfold newItem.
  destruct (negb (String.eqb (getAttrVal n "itemtype") ""));
    destruct (negb (String.eqb (getAttrVal n "itemid") "")); reflexivity.
Qed.

Lemma newItem_eta (n : Node) :
  newItem n = mkItem (Type_ (newItem n)) (ID (newItem n)) ∅.
Proof. rewrite <- (newItem_Properties n). now destruct (newItem n). Qed.

Lemma holds_slot (vs : list any) (v : any) : In v vs -> holds (slot vs) v.
Proof.
  intros H. destruct vs as [|a [|b r]].
  - destruct H.
  - left. destruct H as [->|[]]. reflexivity.
  - right. now exists (a :: b :: r).
Qed.

Lemma In_values_for (p : string) (v : any) (l : list (string * any)) :
  In (p, v) l -> In v (values_for p l).
Proof.
  intros H. unfold values_for.
  apply (in_map snd _ (p, v)). apply filter_In. split; [exact H|].
  apply String.eqb_refl.
Qed.

Lemma scanned_assignments (URL : string) (n c : Node) (prop : string) :
  scanned n c ->
  html.Type_ c = ElementNode -> getAttrVal c "itemprop" = prop -> prop <> "" ->
  In (prop, bound_value URL c prop) (assignments URL n).
Proof.
  intros Hs Ht Hp Hne.
  induction Hs as [n c Hin | n m c Hin Hmt Hmp _ IH].
  - destruct n as [t data attrs children]. simpl in *.
    apply in_flat_map. exists c. split; [exact Hin|].
    rewrite Ht, Hp, (eqb_empty_false _ Hne). now left.
  - destruct n as [t data attrs children]. simpl in *.
    apply in_flat_map. exists m. split; [exact Hin|].
    rewrite Hmt, Hmp. simpl. now apply IH.
Qed.

(** Every property element reached by the scan of [n] has its value in
    the slot of its name. *)
Lemma scanned_bound (URL : string) (n c : Node) (prop : string)
      (T : string) (I : option string) :
  scanned n c ->
  html.Type_ c = ElementNode -> getAttrVal c "itemprop" = prop -> prop <> "" ->
  holds (Properties (parseProperties n (mkItem T I ∅) URL) !! prop)
        (bound_value URL c prop).
Proof.
  intros Hs Ht Hp Hne. rewrite parseProperties_slot.
  apply holds_slot, In_values_for.
  now apply scanned_assignments.
Qed.

(** ** The top-level walk *)

Lemma newItem_Type (n : Node) : Type_ (newItem n) = getAttrVal n "itemtype".
Proof.
  unfold newItem.
  destruct (String.eqb (getAttrVal n "itemtype") "") eqn:E; simpl;
    destruct (negb (String.eqb (getAttrVal n "itemid") "")); simpl;
    try reflexivity; apply String.eqb_eq in E; now rewrite E.
Qed.

Lemma newItem_ID (n : Node) : ID (newItem n) = item_id n.
Proof.
  unfold newItem, item_id. rewrite getAttrVal_lookupAttr.
  destruct (lookupAttr n "itemid") as [v|]; simpl.
  - destruct (String.eqb (strings.TrimSpace v) ""); simpl;
      destruct (negb (String.eqb (getAttrVal n "itemtype") "")); reflexivity.
  - destruct (negb (String.eqb (getAttrVal n "itemtype") "")); reflexivity.
Qed.

Lemma parseNode_scope (URL : string) (n : Node) (items : list MicrodataItem) :
  html.Type_ n = ElementNode -> getAttr n "itemscope" = true ->
  parseNode URL n items = (items ++ [parseProperties n (newItem n) URL])%list.
Proof.
  intros Ht Hs. destruct n as [t data attrs children].
  change (parseNode URL (mkNode t data attrs children) items)
    with (if NodeType_eqb (html.Type_ (mkNode t data attrs children)) ElementNode
             && getAttr (mkNode t data attrs children) "itemscope"
          then (items ++ [parseProperties (mkNode t data attrs children)
                            (newItem (mkNode t data attrs children)) URL])%list
          else fold_left (fun items c => parseNode URL c items) children items).
  now rewrite Ht, Hs.
Qed.

Lemma parseNode_no_scope (URL : string) (n : Node) :
  hasItemscope n = false -> forall items, parseNode URL n items = items.
Proof.
  induction n as [t data attrs children IH] using Node_tree_ind.
  simpl. intros H items.
  apply orb_false_iff in H as [H1 H2]. rewrite H1.
  revert items.
  induction IH as [|c cs Hc _ IHcs]; intros items; simpl; [reflexivity|].
  simpl in H2. apply orb_false_iff in H2 as [Hc2 Hcs2].
  rewrite (Hc Hc2). now apply IHcs.
Qed.

(** The top-level walk appends one item for each scope root, in
    document order. *)
Lemma parseNode_scope_roots (URL : string) (n : Node) :
  forall items,
    parseNode URL n items =
    (items ++ map (fun r => parseProperties r (newItem r) URL)
                  (scope_roots n))%list.
Proof.
  induction n as [t data attrs children IH] using Node_tree_ind.
  intros items.
  destruct (NodeType_eqb t ElementNode && getAttr_loop attrs "itemscope")
    eqn:E.
  - apply andb_true_iff in E as [Et Es].
    destruct t; try discriminate.
    rewrite (parseNode_scope URL (mkNode ElementNode data attrs children)
               items eq_refl Es).
    simpl. unfold getAttr. simpl. now rewrite Es.
  - simpl. unfold getAttr. simpl. rewrite E.
    revert items.
    induction IH as [|c cs Hc _ IHcs]; intros items; simpl.
    + now rewrite app_nil_r.
    + rewrite IHcs, Hc, map_app. now rewrite app_assoc.
Qed.

Lemma copy_items (l : list MicrodataItem) :
  forall acc,
    fold_left
      (fun results item =>
         let result := mkItem (Type_ item) None (Properties item) in
         let result :=
           match ID item with
           | Some s => set_ID s result
           | None => result
           end in
         (results ++ [result])%list) l acc = (acc ++ l)%list.
Proof.
  induction l as [|i l IH]; intros acc; simpl.
  - now rewrite app_nil_r.
  - rewrite IH, <- app_assoc. simpl.
    destruct i as [T [s|] P]; reflexivity.
Qed.

Lemma W3CMicrodata_items (URL htmlContent : string) :
  W3CMicrodata URL htmlContent = (parseNode URL (html_Parse htmlContent) [], []).
Proof. unfold W3CMicrodata, parseW3CMicrodata. now rewrite copy_items. Qed.




(** ** Nested items *)

(** C2 (as amended). Every element that the property scan of a node [n]
    reaches (a child of [n], or a descendant below child elements that
    declare no property name) and that carries both a non-empty
    [itemprop] and [itemscope] is bound as a nested item: the item built
    from its own subtree, with its own type, id and properties, is held
    by the slot of that property name of the item filled from [n].  When
    [n] is itself an [itemscope] element, the top-level walk appends one
    entry for the whole subtree of [n], so the nested element is no entry
    of its own. *)
Theorem nested_item_bound_once (URL : string) (n c : Node) (prop T : string)
        (I : option string) :
  scanned n c -> item_property_element c prop ->
  holds (Properties (parseProperties n (mkItem T I ∅) URL) !! prop)
        (VItem (parseProperties c (newItem c) URL))
  /\ Type_ (parseProperties c (newItem c) URL) = getAttrVal c "itemtype"
  /\ ID (parseProperties c (newItem c) URL) = item_id c
  /\ (forall p, Properties (parseProperties c (newItem c) URL) !! p =
                slot (values_for p (assignments URL c)))
  /\ (html.Type_ n = ElementNode -> getAttr n "itemscope" = true ->
      forall items,
        parseNode URL n items =
        (items ++ [parseProperties n (newItem n) URL])%list).
Proof.
  intros Hs (Ht & Hp & Hne & Hsc).
  destruct (parseProperties_fields URL c (newItem c)) as [HT HI].
  repeat split.
  - pose proof (scanned_bound URL n c prop T I Hs Ht Hp Hne) as H.
    unfold bound_value in H. now rewrite Hsc in H.
  - now rewrite HT, newItem_Type.
  - now rewrite HI, newItem_ID.
  - intros p. rewrite (newItem_eta c). apply parseProperties_slot.
  - intros Hnt Hns items. now apply parseNode_scope.
Qed.


(** ** Item identifiers *)

(** C4 (as amended). The item built for an [itemscope] element, at top
    level or as a nested property value, has an [id] exactly when the
    element carries an [itemid] attribute whose value is not empty after
    trimming, and the [id] is then that trimmed value. *)
Theorem item_id_presence (URL : string) (n : Node) :
  html.Type_ n = ElementNode -> getAttr n "itemscope" = true ->
  (forall items,
      parseNode URL n items =
      (items ++ [parseProperties n (newItem n) URL])%list)
  /\ (forall item prop,
        item_property_element n prop ->
        visit_child URL item n =
        set_Property prop
          (appendValue (Properties item !! prop)
                       (VItem (parseProperties n (newItem n) URL))) item)
  /\ ID (parseProperties n (newItem n) URL) = item_id n
  /\ (ID (parseProperties n (newItem n) URL) <> None <->
      exists v, lookupAttr n "itemid" = Some v /\ strings.TrimSpace v <> "")
  /\ (forall v, lookupAttr n "itemid" = Some v -> strings.TrimSpace v <> "" ->
      ID (parseProperties n (newItem n) URL) = Some (strings.TrimSpace v)).
Proof.
  intros Ht Hs.
  destruct (parseProperties_fields URL n (newItem n)) as [_ HI].
  rewrite HI, newItem_ID.
  split; [intros items; now apply parseNode_scope|].
  split; [intros item prop H; now apply visit_child_item|].
  split; [reflexivity|].
  unfold item_id. split.
  - destruct (lookupAttr n "itemid") as [v|].
    + destruct (String.eqb (strings.TrimSpace v) "") eqn:E.
      * apply String.eqb_eq in E. split; [congruence|].
        intros (w & Hw & Hne). congruence.
      * apply String.eqb_neq in E. split; [|discriminate].
        intros _. now exists v.
    + split; [congruence|]. intros (w & Hw & _). discriminate.
  - intros v Hv Hne. rewrite Hv. now rewrite (eqb_empty_false _ Hne).
Qed.

(** ** Multi-valued properties *)

(** C5. [appendValue] stores the first value of a name as a scalar, turns
    a scalar slot into a two-element sequence on the next value, whether
    the scalar is a string or an item, and appends to a slot that is a
    sequence already.  Hence, after the scan of any node has filled a
    fresh item, the slot of every name is empty, the single value, or the
    sequence of all values assigned to that name in document order.  The
    two [color] siblings yield the sequence of yellow and green. *)
Theorem multi_valued_accumulation (URL : string) (n : Node) (T : string)
        (I : option string) (prop : string) :
  (forall v, appendValue None v = v)
  /\ (forall s v, appendValue (Some (VString s)) v = VSlice [VString s; v])
  /\ (forall i v, appendValue (Some (VItem i)) v = VSlice [VItem i; v])
  /\ (forall l v, appendValue (Some (VSlice l)) v = VSlice (l ++ [v])%list)
  /\ Properties (parseProperties n (mkItem T I ∅) URL) !! prop =
     match values_for prop (assignments URL n) with
     | [] => None
     | [v] => Some v
     | v1 :: v2 :: vs => Some (VSlice (v1 :: v2 :: vs))
     end
  /\ Properties (parseProperties color_item (newItem color_item) URL)
       !! "color" = Some (VSlice [VString "yellow"; VString "green"]).
Proof.
  do 4 (split; [reflexivity|]). split.
  - rewrite parseProperties_slot. unfold slot.
    now destruct (values_for prop (assignments URL n)) as [|a [|b r]].
  - vm_compute. reflexivity.
Qed.

(** ** Errors and empty results *)

(** C7. On a document without any [itemscope] element the extraction
    returns no item and no error; and on every document and base URL its
    error sequence is empty. *)
Theorem no_itemscope_no_items :
  (forall URL htmlContent,
      hasItemscope (html_Parse htmlContent) = false ->
      W3CMicrodata URL htmlContent = ([], []))
  /\ (forall URL htmlContent, snd (W3CMicrodata URL htmlContent) = []).
Proof.
  split; intros URL htmlContent.
  - intros H. rewrite W3CMicrodata_items. now rewrite parseNode_no_scope.
  - now rewrite W3CMicrodata_items.
Qed.

(** ** The walker with its pointers *)

Lemma represents_id_weaken (h h' : heap.t) id I :
  h ⊆ h' -> represents_id h id I -> represents_id h' id I.
Proof.
  intros Hs. destruct id as [p|], I as [s|]; simpl; auto.
  intros H. now apply (lookup_weaken h h').
Qed.

(** A value read in a heap is read as the same value in every heap that
    extends it. *)
Lemma represents_weaken (h h' : heap.t) :
  h ⊆ h' -> forall v x, represents h v x -> represents h' v x.
Proof.
  intros Hs. fix IH 3. intros v x H.
  destruct H as [s | l l' Hl | p T id I mp m P Hp Hid Hm Hk].
  - constructor.
  - constructor. revert l l' Hl. fix IHl 3. intros l l' Hl.
    destruct Hl as [|v x l l' Hv Hl]; constructor.
    + now apply IH.
    + now apply IHl.
  - apply (represents_pointer h' p T id I mp m P).
    + now apply (lookup_weaken h h').
    + now apply (represents_id_weaken h h').
    + now apply (lookup_weaken h h').
    + intros k. destruct (Hk k) as [v x Hv|]; constructor. now apply IH.
Qed.

Lemma new_spec (c : heap.cell) (h : heap.t) :
  h !! (heap.new c h).1 = None
  /\ (heap.new c h).2 = <[(heap.new c h).1 := c]> h
  /\ h ⊆ (heap.new c h).2.
Proof.
  unfold heap.new. simpl.
  assert (Hf : h !! fresh (dom h) = None).
  { apply not_elem_of_dom. apply is_fresh. }
  split; [exact Hf|]. split; [reflexivity|].
  now apply insert_subseteq.
Qed.

Lemma parseProperties_heap_unfold (URL : string) (n : Node)
      (item : heap.addr) (h : heap.t) :
  parseProperties_heap n item URL h =
  fold_left (fun oh c => h ← oh; visit_child_heap URL item h c)
            (Children n) (Some h).
Proof.
  destruct n as [t data attrs children]. simpl.
  generalize (Some h) as acc.
  induction children as [|c cs IH]; intros acc; simpl; [reflexivity|].
  rewrite <- IH. f_equal.
  destruct acc as [h0|]; [|reflexivity]. simpl.
  unfold visit_child_heap, newItem_heap, propertyValue, heap.new.
  destruct (html.Type_ c); try reflexivity.
  destruct (negb (String.eqb (getAttrVal c "itemprop") "")); [|reflexivity].
  destruct (getAttr c "itemscope"); [|reflexivity].
  simpl.
  destruct (negb (String.eqb (getAttrVal c "itemtype") ""));
    [destruct (heap.set_Type _ _ _) as [h1|]; [|reflexivity] |];
    simpl;
    (destruct (negb (String.eqb (getAttrVal c "itemid") ""));
     [destruct (heap.set_ID _ _ _) as [h2|]; [|reflexivity] |]);
    reflexivity.
Qed.

Lemma appendValue_represents (C : heap.t) o o' v x :
  option_Forall2 (represents C) o o' ->
  represents C v x ->
  represents C (heap.appendValue o v) (appendValue o' x).
Proof.
  intros Ho Hv. destruct Ho as [e e' He|]; [|exact Hv].
  destruct He as [s | l l' Hl | p T id I mp m P Hp Hid Hm Hk]; simpl.
  - constructor. repeat constructor. exact Hv.
  - constructor. apply Forall2_app; [exact Hl|]. repeat constructor. exact Hv.
  - constructor. constructor; [|repeat constructor; exact Hv].
    now apply (represents_pointer C p T id I mp m P).
Qed.

Lemma item_is_no_map (h : heap.t) (item : heap.addr) i mp m :
  h !! item = Some (heap.Item i) -> h !! mp = Some (heap.Map m) ->
  item <> mp.
Proof. intros H1 H2 ->. congruence. Qed.

(** An assignment through the pointer [item] of a value that is
    finished. *)
Lemma assign_spec (h C : heap.t) (item : heap.addr) i m x prop v xv :
  C ⊆ h ->
  h !! item = Some (heap.Item i) ->
  h !! heap.Properties i = Some (heap.Map m) ->
  C !! heap.Properties i = None ->
  (forall k, option_Forall2 (represents C) (m !! k) (Properties x !! k)) ->
  represents C v xv ->
  exists m',
    heap.assign item prop v h =
    Some (<[heap.Properties i := heap.Map m']> h)
    /\ C ⊆ <[heap.Properties i := heap.Map m']> h
    /\ (forall k,
          option_Forall2 (represents C) (m' !! k)
            (Properties
               (set_Property prop (appendValue (Properties x !! prop) xv) x)
               !! k)).
Proof.
  intros HC Hi Hm HCm Hk Hv.
  exists (<[prop := heap.appendValue (m !! prop) v]> m).
  split; [|split].
  - unfold heap.assign. now rewrite Hi, Hm.
  - apply insert_subseteq_r; assumption.
  - intros k. destruct x as [T I P]. simpl.
    destruct (decide (k = prop)) as [->|Hne].
    + rewrite !lookup_insert_eq. constructor.
      apply appendValue_represents; [apply (Hk prop) | exact Hv].
    + rewrite !lookup_insert_ne by congruence. apply (Hk k).
Qed.

Lemma scan_spec_skip (item : heap.addr) :
  scan_spec Some (fun x => x) item.
Proof.
  intros h C i m x HC Hi Hm HCm Hk. exists h, C, m.
  repeat split; auto.
Qed.

Lemma scan_spec_seq (item : heap.addr) run1 run2 scan1 scan2 :
  scan_spec run1 scan1 item -> scan_spec run2 scan2 item ->
  scan_spec (fun h => h ← run1 h; run2 h) (fun x => scan2 (scan1 x)) item.
Proof.
  intros H1 H2 h C i m x HC Hi Hm HCm Hk.
  destruct (H1 h C i m x HC Hi Hm HCm Hk)
    as (h1 & C1 & m1 & Hr1 & HCC1 & HC1 & Hn1 & Hf1 & Hm1 & Hk1).
  assert (Hi1 : h1 !! item = Some (heap.Item i)).
  { rewrite Hf1; [exact Hi | now apply (item_is_no_map h item i _ m) | eauto]. }
  assert (HCm1 : C1 !! heap.Properties i = None).
  { destruct (C1 !! heap.Properties i) eqn:E; [|reflexivity].
    destruct (Hn1 (heap.Properties i)) as [[? Hx]|Hx]; [eauto | |]; congruence. }
  destruct (H2 h1 C1 i m1 (scan1 x) HC1 Hi1 Hm1 HCm1 Hk1)
    as (h2 & C2 & m2 & Hr2 & HCC2 & HC2 & Hn2 & Hf2 & Hm2 & Hk2).
  exists h2, C2, m2. rewrite Hr1. simpl.
  assert (Hdom : forall a, h1 !! a = None -> h !! a = None).
  { intros a Ha. destruct (h !! a) eqn:E; [|reflexivity].
    destruct (decide (a = heap.Properties i)) as [->|Hne]; [congruence|].
    rewrite Hf1 in Ha; [congruence | exact Hne | eauto]. }
  split; [exact Hr2|]. split; [now transitivity C1|]. split; [exact HC2|].
  split; [|split; [|split; [exact Hm2 | exact Hk2]]].
  - intros a Ha. destruct (Hn2 a Ha) as [Hx|Hx]; [now apply Hn1 | auto].
  - intros a Hne Ha. rewrite Hf2; [now apply Hf1 | exact Hne |].
    rewrite Hf1; assumption.
Qed.

Lemma scan_spec_fold (item : heap.addr)
      (step : heap.t -> Node -> option heap.t)
      (pstep : MicrodataItem -> Node -> MicrodataItem) (cs : list Node) :
  Forall (fun c => scan_spec (fun h => step h c) (fun x => pstep x c) item)
         cs ->
  scan_spec (fun h => fold_left (fun oh c => h ← oh; step h c) cs (Some h))
            (fun x => fold_left pstep cs x) item.
Proof.
  induction 1 as [|c cs Hc _ IH]; simpl; [apply scan_spec_skip|].
  intros h C i m x HC Hi Hm HCm Hk.
  destruct (scan_spec_seq item _ _ _ _ Hc IH h C i m x HC Hi Hm HCm Hk)
    as (h' & C' & m' & Hr & Hrest).
  exists h', C', m'. split; [|exact Hrest].
  simpl in Hr. destruct (step h c) as [h1|]; [exact Hr | discriminate].
Qed.

Lemma scan_spec_assign_string (item : heap.addr) (prop s : string) :
  scan_spec (heap.assign item prop (heap.String_ s))
            (fun x => set_Property prop
                        (appendValue (Properties x !! prop) (VString s)) x)
            item.
Proof.
  intros h C i m x HC Hi Hm HCm Hk.
  destruct (assign_spec h C item i m x prop (heap.String_ s) (VString s)
              HC Hi Hm HCm Hk (represents_string C s))
    as (m' & Hr & HC' & Hk').
  exists (<[heap.Properties i := heap.Map m']> h), C, m'.
  split; [exact Hr|]. split; [reflexivity|]. split; [exact HC'|].
  split; [auto|]. split; [|split; [apply lookup_insert_eq | exact Hk']].
  intros a Hne _. now apply lookup_insert_ne.
Qed.

(** The item allocated for an [itemscope] element: its cells are new, and
    no other cell of the heap changes. *)
Lemma newItem_heap_spec (c : Node) (h : heap.t) :
  exists s mp id h',
    newItem_heap c h = Some (s, h')
    /\ h ⊆ h'
    /\ h !! s = None /\ h !! mp = None /\ s <> mp
    /\ h' !! s = Some (heap.Item (heap.mkItem (Type_ (newItem c)) id mp))
    /\ h' !! mp = Some (heap.Map ∅)
    /\ match id, ID (newItem c) with
       | None, None => True
       | Some p, Some str =>
           h !! p = None /\ p <> s /\ p <> mp
           /\ h' !! p = Some (heap.Str str)
       | _, _ => False
       end.
Proof.
  unfold newItem_heap, newItem.
  destruct (new_spec (heap.Map ∅) h) as (Hmp & Eh1 & Hh1).
  destruct (heap.new (heap.Map ∅) h) as [mp h1]. simpl in Hmp, Eh1, Hh1.
  destruct (new_spec (heap.Item (heap.mkItem "" None mp)) h1)
    as (Hs & Eh2 & Hh2).
  destruct (heap.new (heap.Item (heap.mkItem "" None mp)) h1) as [s h2].
  simpl in Hs, Eh2, Hh2.
  assert (H1m : h1 !! mp = Some (heap.Map ∅)).
  { rewrite Eh1. apply lookup_insert_eq. }
  assert (Hsmp : s <> mp).
  { intros ->. congruence. }
  assert (Hs0 : h !! s = None).
  { eapply lookup_weaken_None; [exact Hs | exact Hh1]. }
  assert (H2s : h2 !! s = Some (heap.Item (heap.mkItem "" None mp))).
  { rewrite Eh2. apply lookup_insert_eq. }
  assert (H2m : h2 !! mp = Some (heap.Map ∅)).
  { rewrite Eh2, lookup_insert_ne by congruence. exact H1m. }
  assert (Hh02 : h ⊆ h2) by (now transitivity h1).
  (* the type *)
  assert (exists h3,
             (if negb (String.eqb (getAttrVal c "itemtype") "")
              then heap.set_Type s (getAttrVal c "itemtype") h2
              else Some h2) = Some h3
             /\ h ⊆ h3
             /\ h3 !! s =
                Some (heap.Item
                        (heap.mkItem
                           (Type_
                              (if negb (String.eqb (getAttrVal c "itemtype") "")
                               then set_Type (getAttrVal c "itemtype")
                                             (mkItem "" None ∅)
                               else mkItem "" None ∅))
                           None mp))
             /\ h3 !! mp = Some (heap.Map ∅)) as (h3 & E3 & Hh3 & H3s & H3m).
  { destruct (negb (String.eqb (getAttrVal c "itemtype") "")).
    - unfold heap.set_Type. rewrite H2s. simpl. eexists. split; [reflexivity|].
      split; [|split].
      + apply insert_subseteq_r; [exact Hs0 | exact Hh02].
      + apply lookup_insert_eq.
      + rewrite lookup_insert_ne by congruence. exact H2m.
    - exists h2. auto. }
  rewrite E3. cbn [mbind option_bind].
  set (T := Type_ (if negb (String.eqb (getAttrVal c "itemtype") "")
                   then set_Type (getAttrVal c "itemtype") (mkItem "" None ∅)
                   else mkItem "" None ∅)) in *.
  assert (HT : forall y : MicrodataItem,
             Type_ y = T ->
             Type_ (if negb (String.eqb (getAttrVal c "itemid") "")
                    then set_ID (getAttrVal c "itemid") y else y) = T).
  { intros y Hy. now destruct (negb (String.eqb (getAttrVal c "itemid") "")). }
  rewrite (HT _ eq_refl).
  assert (HI : ID (if negb (String.eqb (getAttrVal c "itemtype") "")
                   then set_Type (getAttrVal c "itemtype") (mkItem "" None ∅)
                   else mkItem "" None ∅) = None).
  { now destruct (negb (String.eqb (getAttrVal c "itemtype") "")). }
  destruct (negb (String.eqb (getAttrVal c "itemid") "")).
  - destruct (new_spec (heap.Str (getAttrVal c "itemid")) h3)
      as (Hp & Eh4 & Hh4).
    destruct (heap.new (heap.Str (getAttrVal c "itemid")) h3) as [p h4].
    simpl in Hp, Eh4, Hh4.
    assert (Hps : p <> s).
    { intros ->. congruence. }
    assert (Hpm : p <> mp).
    { intros ->. congruence. }
    unfold heap.set_ID.
    assert (H4s : h4 !! s = Some (heap.Item (heap.mkItem T None mp))).
    { rewrite Eh4, lookup_insert_ne by congruence. exact H3s. }
    rewrite H4s. simpl.
    exists s, mp, (Some p), (<[s := heap.Item (heap.mkItem T (Some p) mp)]> h4).
    split; [reflexivity|]. split; [|split; [exact Hs0|split; [exact Hmp|]]].
    { apply insert_subseteq_r; [exact Hs0 | now transitivity h3]. }
    split; [exact Hsmp|]. split; [apply lookup_insert_eq|].
    split.
    { rewrite lookup_insert_ne, Eh4, lookup_insert_ne by congruence.
      exact H3m. }
    split; [|split; [exact Hps|split; [exact Hpm|]]].
    { eapply lookup_weaken_None; [exact Hp | exact Hh3]. }
    rewrite lookup_insert_ne, Eh4 by congruence. apply lookup_insert_eq.
  - exists s, mp, None, h3. rewrite HI. repeat split; auto.
Qed.

Lemma represents_values_weaken (C C' : heap.t) (m : gmap string heap.any)
      (P : gmap string any) :
  C ⊆ C' ->
  (forall k, option_Forall2 (represents C) (m !! k) (P !! k)) ->
  forall k, option_Forall2 (represents C') (m !! k) (P !! k).
Proof.
  intros HC H k. destruct (H k) as [v x Hv|]; constructor.
  now apply (represents_weaken C C').
Qed.

(** An item that is allocated and filled by a scan is a finished value:
    its pointer is read as the item that the scan fills in the model. *)
Lemma item_built (c : Node) (run : heap.addr -> heap.t -> option heap.t)
      (scan : MicrodataItem -> MicrodataItem) :
  (forall s, scan_spec (run s) scan s) ->
  (forall x, Type_ (scan x) = Type_ x /\ ID (scan x) = ID x) ->
  forall h C : heap.t,
    C ⊆ h ->
    exists s h4 h5 C',
      newItem_heap c h = Some (s, h4)
      /\ run s h4 = Some h5
      /\ h ⊆ h5 /\ C ⊆ C' /\ C' ⊆ h5
      /\ (forall a, is_Some (C' !! a) -> is_Some (C !! a) \/ h !! a = None)
      /\ represents C' (heap.Pointer s) (VItem (scan (newItem c))).
Proof.
  intros Hrun Hscan h C HC.
  destruct (newItem_heap_spec c h)
    as (s & mp & id & h4 & Enew & Hh4 & Hs & Hmp & Hsmp & H4s & H4m & Hid).
  assert (HC4 : C ⊆ h4) by (now transitivity h).
  assert (HCmp : C !! mp = None)
    by (eapply lookup_weaken_None; [exact Hmp | exact HC]).
  assert (HCs : C !! s = None)
    by (eapply lookup_weaken_None; [exact Hs | exact HC]).
  assert (Hk0 : forall k,
             option_Forall2 (represents C) ((∅ : gmap string heap.any) !! k)
                            (Properties (newItem c) !! k)).
  { intros k. rewrite newItem_Properties, !lookup_empty. constructor. }
  destruct (Hrun s h4 C _ ∅ (newItem c) HC4 H4s H4m HCmp Hk0)
    as (h5 & C5 & m5 & Er & HCC5 & HC5 & Hn5 & Hf5 & H5m & Hk5).
  simpl in Hf5, H5m.
  assert (Hfresh : forall a, h !! a = None -> is_Some (h4 !! a) ->
                             C5 !! a = None).
  { intros a Ha Ha4. destruct (C5 !! a) eqn:E; [|reflexivity].
    destruct (Hn5 a) as [[y Hy]|Hy]; [eauto| |].
    - pose proof (lookup_weaken _ _ _ _ Hy HC). congruence.
    - destruct Ha4. congruence. }
  assert (H5s : h5 !! s = Some (heap.Item (heap.mkItem (Type_ (newItem c))
                                                       id mp))).
  { rewrite Hf5; [exact H4s | exact Hsmp | eauto]. }
  assert (Hh5 : h ⊆ h5).
  { apply map_subseteq_spec. intros a y Ha.
    rewrite Hf5.
    - now apply (lookup_weaken h h4).
    - intros ->. congruence.
    - exists y. now apply (lookup_weaken h h4). }
  (* the cell of the id, when there is one *)
  set (Cid := match id, ID (newItem c) with
              | Some p, Some str => <[p := heap.Str str]> C5
              | _, _ => C5
              end).
  assert (HCid : C5 ⊆ Cid /\ Cid ⊆ h5 /\ Cid !! mp = None /\ Cid !! s = None
                 /\ represents_id Cid id (ID (newItem c))
                 /\ forall a, is_Some (Cid !! a) ->
                              is_Some (C5 !! a) \/ h !! a = None).
  { unfold Cid. destruct id as [p|], (ID (newItem c)) as [str|];
      try contradiction.
    - destruct Hid as (Hp & Hps & Hpm & H4p).
      assert (C5 !! p = None) by (apply Hfresh; eauto).
      split; [now apply insert_subseteq|]. split.
      { apply insert_subseteq_l; [|exact HC5].
        rewrite Hf5; [exact H4p | exact Hpm | eauto]. }
      split; [rewrite lookup_insert_ne by congruence; apply Hfresh; eauto|].
      split; [rewrite lookup_insert_ne by congruence; apply Hfresh; eauto|].
      split; [simpl; apply lookup_insert_eq|].
      intros a Ha. destruct (decide (a = p)) as [->|Hne]; [now right|].
      rewrite lookup_insert_ne in Ha by congruence. now left.
    - split; [reflexivity|]. split; [exact HC5|].
      split; [apply Hfresh; eauto|]. split; [apply Hfresh; eauto|].
      split; [exact I | auto]. }
  destruct HCid as (HC5id & Hidh5 & Hidmp & Hids & Hrid & Hnid).
  set (C' := <[s := heap.Item (heap.mkItem (Type_ (newItem c)) id mp)]>
               (<[mp := heap.Map m5]> Cid)).
  assert (HCidC' : Cid ⊆ C').
  { unfold C'. transitivity (<[mp := heap.Map m5]> Cid).
    - now apply insert_subseteq.
    - apply insert_subseteq. now rewrite lookup_insert_ne by congruence. }
  exists s, h4, h5, C'.
  split; [exact Enew|]. split; [exact Er|]. split; [exact Hh5|].
  split; [transitivity C5; [exact HCC5|]; now transitivity Cid|].
  split.
  { unfold C'. apply insert_subseteq_l; [exact H5s|].
    apply insert_subseteq_l; [exact H5m | exact Hidh5]. }
  split.
  { intros a Ha. unfold C' in Ha.
    destruct (decide (a = s)) as [->|Hns]; [now right|].
    rewrite lookup_insert_ne in Ha by congruence.
    destruct (decide (a = mp)) as [->|Hnm]; [now right|].
    rewrite lookup_insert_ne in Ha by congruence.
    destruct (Hnid a Ha) as [Hx|Hx]; [|now right].
    destruct (Hn5 a Hx) as [Hy|Hy]; [now left|].
    right. eapply lookup_weaken_None; [exact Hy | exact Hh4]. }
  destruct (Hscan (newItem c)) as [HT HI].
  destruct (scan (newItem c)) as [T' I' P'] eqn:Escan. simpl in HT, HI, Hk5.
  subst T' I'.
  apply (represents_pointer C' s _ id _ mp m5 P').
  - apply lookup_insert_eq.
  - now apply (represents_id_weaken Cid C').
  - unfold C'. rewrite lookup_insert_ne by congruence. apply lookup_insert_eq.
  - apply (represents_values_weaken C5 C'); [|exact Hk5].
    now transitivity Cid.
Qed.

Lemma scan_spec_ext (item : heap.addr) run run' scan scan' :
  (forall h, run h = run' h) -> (forall x, scan x = scan' x) ->
  scan_spec run scan item -> scan_spec run' scan' item.
Proof.
  intros Hr Hs H h C i m x HC Hi Hm HCm Hk.
  destruct (H h C i m x HC Hi Hm HCm Hk) as (h' & C' & m' & Hrun & Hrest).
  exists h', C', m'. rewrite <- Hr, <- Hs. now split.
Qed.

Lemma scan_spec_item (c : Node) (prop : string) (item : heap.addr)
      (run : heap.addr -> heap.t -> option heap.t)
      (scan : MicrodataItem -> MicrodataItem) :
  (forall s, scan_spec (run s) scan s) ->
  (forall x, Type_ (scan x) = Type_ x /\ ID (scan x) = ID x) ->
  scan_spec
    (fun h =>
       r ← newItem_heap c h;
       let '(subItem, h) := r in
       h ← run subItem h;
       heap.assign item prop (heap.Pointer subItem) h)
    (fun x =>
       set_Property prop
         (appendValue (Properties x !! prop) (VItem (scan (newItem c)))) x)
    item.
Proof.
  intros Hrun Hscan h C i m x HC Hi Hm HCm Hk.
  destruct (item_built c run scan Hrun Hscan h C HC)
    as (s & h4 & h5 & C' & Enew & Er & Hh5 & HCC' & HC'5 & Hn & Hv).
  assert (H5i : h5 !! item = Some (heap.Item i))
    by (now apply (lookup_weaken h h5)).
  assert (H5m : h5 !! heap.Properties i = Some (heap.Map m))
    by (now apply (lookup_weaken h h5)).
  assert (HC'm : C' !! heap.Properties i = None).
  { destruct (C' !! heap.Properties i) eqn:E; [|reflexivity].
    destruct (Hn (heap.Properties i)) as [[y Hy]|Hy]; [eauto| |]; congruence. }
  destruct (assign_spec h5 C' item i m x prop (heap.Pointer s)
              (VItem (scan (newItem c))) HC'5 H5i H5m HC'm
              (represents_values_weaken C C' m (Properties x) HCC' Hk) Hv)
    as (m' & Ea & HC' & Hk').
  exists (<[heap.Properties i := heap.Map m']> h5), C', m'.
  rewrite Enew. cbn [mbind option_bind]. rewrite Er. cbn [mbind option_bind].
  split; [exact Ea|]. split; [exact HCC'|]. split; [exact HC'|].
  split; [exact Hn|]. split; [|split; [apply lookup_insert_eq | exact Hk']].
  intros a Hne [y Ha]. rewrite lookup_insert_ne by congruence.
  rewrite Ha. now apply (lookup_weaken h h5).
Qed.

(** [parseProperties_heap] against [parseProperties]. *)
Lemma parseProperties_heap_spec (URL : string) (n : Node) :
  forall item,
    scan_spec (parseProperties_heap n item URL)
              (fun x => parseProperties n x URL) item.
Proof.
  induction n as [t data attrs children IH] using Node_tree_ind.
  intros item.
  apply (scan_spec_ext item
           (fun h => fold_left
                       (fun oh c => h ← oh; visit_child_heap URL item h c)
                       children (Some h))
           _ (fun x => fold_left (visit_child URL) children x)).
  { intros h. now rewrite parseProperties_heap_unfold. }
  { intros x. now rewrite parseProperties_unfold. }
  apply (scan_spec_fold item (visit_child_heap URL item) (visit_child URL)).
  induction IH as [|c cs Hc _ IHcs]; constructor; [|exact IHcs].
  unfold visit_child_heap, visit_child.
  destruct (html.Type_ c); try apply scan_spec_skip.
  destruct (negb (String.eqb (getAttrVal c "itemprop") "")); [|apply Hc].
  destruct (getAttr c "itemscope").
  - apply (scan_spec_item c _ item
             (fun s h => parseProperties_heap c s URL h)
             (fun x => parseProperties c x URL)); [exact Hc|].
    intros x. apply parseProperties_fields.
  - apply scan_spec_assign_string.
Qed.

Lemma parseNode_heap_scope (URL : string) (n : Node)
      (items : list heap.addr) (h : heap.t) :
  html.Type_ n = ElementNode -> getAttr n "itemscope" = true ->
  parseNode_heap URL n (items, h) =
  r ← newItem_heap n h;
  let '(item, h) := r in
  h ← parseProperties_heap n item URL h;
  Some ((items ++ [item])%list, h).
Proof.
  intros Ht Hs. destruct n as [t data attrs children].
  unfold parseNode_heap; fold parseProperties_heap. rewrite Ht, Hs.
  cbn [NodeType_eqb andb]. unfold newItem_heap.
  destruct (heap.new (heap.Map ∅) h) as [mp h1].
  destruct (heap.new _ h1) as [s h2].
  destruct (negb (String.eqb
                    (getAttrVal (mkNode t data attrs children) "itemtype")
                    ""));
    [destruct (heap.set_Type _ _ _) as [h3|]; [|reflexivity] |];
    cbn [mbind option_bind];
    (destruct (negb (String.eqb
                       (getAttrVal (mkNode t data attrs children) "itemid")
                       ""));
     [destruct (heap.new _ _) as [p h4];
      destruct (heap.set_ID _ _ _) as [h5|]; [|reflexivity] |]);
    reflexivity.
Qed.

Lemma parseNode_heap_no_scope (URL : string) t data attrs children
      (st : list heap.addr * heap.t) :
  NodeType_eqb t ElementNode
  && getAttr (mkNode t data attrs children) "itemscope" = false ->
  parseNode_heap URL (mkNode t data attrs children) st =
  fold_left (fun ost c => st ← ost; parseNode_heap URL c st)
            children (Some st).
Proof.
  intros H. unfold parseNode_heap; fold parseNode_heap.
  change (html.Type_ (mkNode t data attrs children)) with t.
  now rewrite H.
Qed.

(** [parseNode_heap] against the walk of the model: it appends the
    pointers to the items of the scope roots, which are finished values,
    and changes no cell that the heap held. *)
Lemma parseNode_heap_spec (URL : string) (n : Node) :
  forall (items : list heap.addr) (h C : heap.t),
    C ⊆ h ->
    exists new h' C',
      parseNode_heap URL n (items, h) = Some ((items ++ new)%list, h')
      /\ h ⊆ h' /\ C ⊆ C' /\ C' ⊆ h'
      /\ (forall a, is_Some (C' !! a) -> is_Some (C !! a) \/ h !! a = None)
      /\ Forall2 (fun p x => represents C' (heap.Pointer p) (VItem x)) new
                 (map (fun r => parseProperties r (newItem r) URL)
                      (scope_roots n)).
Proof.
  induction n as [t data attrs children IH] using Node_tree_ind.
  intros items h C HC.
  destruct (NodeType_eqb t ElementNode
            && getAttr (mkNode t data attrs children) "itemscope") eqn:E.
  - apply andb_true_iff in E as [Et Es].
    destruct t; try discriminate.
    rewrite (parseNode_heap_scope URL
               (mkNode ElementNode data attrs children) items h eq_refl Es).
    destruct (item_built (mkNode ElementNode data attrs children)
                (fun s h => parseProperties_heap
                              (mkNode ElementNode data attrs children) s URL h)
                (fun x => parseProperties
                            (mkNode ElementNode data attrs children) x URL)
                (parseProperties_heap_spec URL _)
                (fun x => parseProperties_fields URL _ x) h C HC)
      as (s & h4 & h5 & C' & Enew & Er & Hh5 & HCC' & HC'5 & Hn & Hv).
    exists [s], h5, C'. rewrite Enew. cbn [mbind option_bind].
    rewrite Er. cbn [mbind option_bind].
    split; [reflexivity|]. split; [exact Hh5|]. split; [exact HCC'|].
    split; [exact HC'5|]. split; [exact Hn|].
    change (scope_roots (mkNode ElementNode data attrs children))
      with (if NodeType_eqb ElementNode ElementNode
               && getAttr (mkNode ElementNode data attrs children) "itemscope"
            then [mkNode ElementNode data attrs children]
            else flat_map scope_roots children).
    rewrite Es. cbn [NodeType_eqb andb map]. constructor; [exact Hv|constructor].
  - rewrite (parseNode_heap_no_scope URL t data attrs children _ E).
    change (scope_roots (mkNode t data attrs children))
      with (if NodeType_eqb t ElementNode
               && getAttr (mkNode t data attrs children) "itemscope"
            then [mkNode t data attrs children]
            else flat_map scope_roots children).
    rewrite E. clear E.
    revert items h C HC.
    induction IH as [|c cs Hc _ IHcs]; intros items h C HC.
    + exists [], h, C. rewrite app_nil_r. repeat split; auto.
    + destruct (Hc items h C HC)
        as (new1 & h1 & C1 & E1 & Hh1 & HCC1 & HC1 & Hn1 & Hv1).
      destruct (IHcs (items ++ new1)%list h1 C1 HC1)
        as (new2 & h2 & C2 & E2 & Hh2 & HCC2 & HC2 & Hn2 & Hv2).
      exists (new1 ++ new2)%list, h2, C2.
      cbn [fold_left flat_map mbind option_bind]. rewrite E1.
      rewrite app_assoc. split; [exact E2|].
      split; [now transitivity h1|]. split; [now transitivity C1|].
      split; [exact HC2|]. split.
      * intros a Ha. destruct (Hn2 a Ha) as [Hx|Hx]; [now apply Hn1|].
        right. eapply lookup_weaken_None; [exact Hx | exact Hh1].
      * rewrite map_app. apply Forall2_app; [|exact Hv2].
        eapply Forall2_impl; [exact Hv1|]. intros p x Hp.
        now apply (represents_weaken C1 C2).
Qed.

(** The copy loop of [W3CMicrodata_heap]: the results are the items
    pointed to. *)
Lemma copy_items_heap (h C : heap.t) (items : list heap.addr)
      (xs : list MicrodataItem) :
  C ⊆ h ->
  Forall2 (fun p x => represents C (heap.Pointer p) (VItem x)) items xs ->
  forall acc,
  exists results,
    fold_left
      (fun oresults item =>
         results ← oresults;
         match h !! item with
         | Some (heap.Item i) =>
             let result :=
               heap.mkItem (heap.Type_ i) None (heap.Properties i) in
             let result :=
               match heap.ID i with
               | Some p =>
                   heap.mkItem (heap.Type_ result) (Some p)
                               (heap.Properties result)
               | None => result
               end in
             Some (results ++ [result])%list
         | _ => None
         end)
      items (Some acc) = Some (acc ++ results)%list
    /\ Forall2 (represents_item h) results xs.
Proof.
  intros HC H. induction H as [|p x items xs Hp _ IH]; intros acc.
  - exists []. rewrite app_nil_r. split; [reflexivity | constructor].
  - inversion Hp as [| |p' T id I mp m P Hcp Hid Hcm Hk]; subst.
    cbn [fold_left mbind option_bind].
    rewrite (lookup_weaken _ _ _ _ Hcp HC). cbn [heap.ID heap.Type_ heap.Properties].
    destruct (IH (acc ++ [match id with
                          | Some p0 => heap.mkItem T (Some p0) mp
                          | None => heap.mkItem T None mp
                          end])%list) as (results & E & Hr).
    exists (heap.mkItem T id mp :: results).
    split.
    + rewrite <- app_assoc in E. simpl in E.
      destruct id as [p0|]; exact E.
    + constructor; [|exact Hr].
      split; [reflexivity|]. split.
      * now apply (represents_id_weaken C h).
      * exists m. split; [now apply (lookup_weaken C h)|].
        now apply (represents_values_weaken C h).
Qed.

(** [W3CMicrodata_heap] against [W3CMicrodata]: from every heap the call
    returns, with no error, results that are read as the items that the
    model returns, and it changes no cell that the heap held. *)
Lemma W3CMicrodata_heap_spec (URL htmlContent : string) (h : heap.t) :
  exists results h',
    W3CMicrodata_heap URL htmlContent h = Some (results, [], h')
    /\ h ⊆ h'
    /\ Forall2 (represents_item h') results
               (fst (W3CMicrodata URL htmlContent)).
Proof.
  unfold W3CMicrodata_heap, parseW3CMicrodata_heap.
  destruct (parseNode_heap_spec URL (html_Parse htmlContent) [] h ∅
              (map_empty_subseteq h))
    as (new & h' & C' & E & Hh & _ & HC' & _ & Hv).
  rewrite E. cbn [mbind option_bind app].
  rewrite W3CMicrodata_items, parseNode_scope_roots. cbn [fst app].
  destruct (copy_items_heap h' C' new _ HC' Hv []) as (results & Ec & Hr).
  cbn [mbind option_bind app] in Ec. rewrite Ec. cbn [mbind option_bind].
  now exists results, h'.
Qed.

Lemma represents_item_weaken (h h' : heap.t) i x :
  h ⊆ h' -> represents_item h i x -> represents_item h' i x.
Proof.
  intros Hs (HT & Hid & m & Hm & Hk).
  split; [exact HT|]. split; [now apply (represents_id_weaken h h')|].
  exists m. split; [now apply (lookup_weaken h h')|].
  now apply (represents_values_weaken h h').
Qed.

Lemma represents_id_functional (h : heap.t) id I I' :
  represents_id h id I -> represents_id h id I' -> I = I'.
Proof.
  destruct id as [p|], I as [s|], I' as [s'|]; simpl; intros H H';
    try contradiction; try reflexivity.
  rewrite H in H'. congruence.
Qed.

(** A value is read in a heap as one value only. *)
Lemma represents_functional (h : heap.t) :
  forall v x, represents h v x -> forall y, represents h v y -> x = y.
Proof.
  fix IH 3. intros v x H.
  destruct H as [s | l l' Hl | p T id I mp m P Hp Hid Hm Hk]; intros y Hy.
  - inversion Hy. reflexivity.
  - inversion Hy as [| l0 l'' Hl' |]; subst. f_equal.
    clear Hy. revert l l' Hl l'' Hl'. fix IHl 3. intros l l' Hl l'' Hl'.
    destruct Hl as [|v x l l' Hv Hl].
    + inversion Hl'. reflexivity.
    + inversion Hl' as [|v0 y l0 l1 Hv' Hl'']; subst. f_equal.
      * exact (IH _ _ Hv _ Hv').
      * exact (IHl _ _ Hl _ Hl'').
  - inversion Hy as [| | p0 T' id' I' mp' m' P' Hp' Hid' Hm' Hk']; subst.
    rewrite Hp in Hp'. injection Hp' as <- <- <-.
    rewrite Hm in Hm'. injection Hm' as <-.
    rewrite (represents_id_functional h id I I' Hid Hid').
    do 2 f_equal. apply map_eq. intros k.
    specialize (Hk' k).
    destruct (Hk k) as [v x Hv|].
    + inversion Hk' as [v0 y Hv'|]; subst. f_equal.
      exact (IH _ _ Hv _ Hv').
    + inversion Hk'. reflexivity.
Qed.

Lemma represents_item_functional (h : heap.t) i x y :
  represents_item h i x -> represents_item h i y -> x = y.
Proof.
  intros (HT & Hid & m & Hm & Hk) (HT' & Hid' & m' & Hm' & Hk').
  destruct x as [T I P], y as [T' I' P']. simpl in *.
  rewrite Hm in Hm'. injection Hm' as <-.
  rewrite <- HT, <- HT'.
  rewrite (represents_id_functional h _ I I' Hid Hid').
  f_equal. apply map_eq. intros k.
  specialize (Hk k). specialize (Hk' k).
  destruct Hk as [v x Hv|].
  - inversion Hk' as [v0 y Hv'|]; subst. f_equal.
    exact (represents_functional h _ _ Hv _ Hv').
  - inversion Hk'. reflexivity.
Qed.

Lemma represents_items_functional (h : heap.t) results :
  forall values values',
    Forall2 (represents_item h) results values ->
    Forall2 (represents_item h) results values' -> values = values'.
Proof.
  induction results as [|i results IH]; intros values values' H H'.
  - inversion H. inversion H'. reflexivity.
  - inversion H as [|i0 x l l0 Hx Hl]; subst.
    inversion H' as [|i0 y l l1 Hy Hl']; subst. f_equal.
    + exact (represents_item_functional h i x y Hx Hy).
    + now apply IH.
Qed.

(** C8. Two calls of the extraction on the same markup and base URL return
    deeply equal results and no error.  The two calls differ by the heap
    that each one starts in, and so by the addresses of the items, the ids
    and the maps that they allocate: from every heap the call returns,
    its results are read through their pointers as the same values, those
    that the model returns, and as no other values.  A call changes no
    cell that its heap held: when the second call starts in the heap that
    the first one left, the results of the first call are still what they
    were. *)
Theorem W3CMicrodata_deterministic (URL htmlContent : string)
        (h1 h2 : heap.t) :
  exists results1 h1' results2 h2',
    W3CMicrodata_heap URL htmlContent h1 = Some (results1, [], h1')
    /\ W3CMicrodata_heap URL htmlContent h2 = Some (results2, [], h2')
    /\ h1 ⊆ h1' /\ h2 ⊆ h2'
    /\ Forall2 (represents_item h1') results1
               (fst (W3CMicrodata URL htmlContent))
    /\ (forall values, Forall2 (represents_item h1') results1 values ->
                       values = fst (W3CMicrodata URL htmlContent))
    /\ deep_equal h1' results1 h2' results2
    /\ (h2 = h1' -> deep_equal h2' results1 h2' results2).
Proof.
  destruct (W3CMicrodata_heap_spec URL htmlContent h1)
    as (results1 & h1' & E1 & Hh1 & Hr1).
  destruct (W3CMicrodata_heap_spec URL htmlContent h2)
    as (results2 & h2' & E2 & Hh2 & Hr2).
  exists results1, h1', results2, h2'.
  split; [exact E1|]. split; [exact E2|]. split; [exact Hh1|].
  split; [exact Hh2|]. split; [exact Hr1|]. split; [|split].
  - intros values Hv.
    exact (represents_items_functional h1' results1 _ _ Hv Hr1).
  - now exists (fst (W3CMicrodata URL htmlContent)).
  - intros ->. exists (fst (W3CMicrodata URL htmlContent)).
    split; [|exact Hr2].
    eapply Forall2_impl; [exact Hr1|]. intros i x.
    now apply represents_item_weaken.
Qed.

(** ** Property values *)


(** Every property element that is not an item, once the scan of [n]
    reaches it, has the string computed for it in the slot of its name. *)
Lemma scanned_property_value (URL : string) (n c : Node) (prop T : string)
      (I : option string) :
  scanned n c -> property_element c prop ->
  holds (Properties (parseProperties n (mkItem T I ∅) URL) !! prop)
        (VString (propertyValue URL c prop)).
Proof.
  intros Hs (Ht & Hp & Hne & Hsc).
  pose proof (scanned_bound URL n c prop T I Hs Ht Hp Hne) as H.
  unfold bound_value in H. now rewrite Hsc in H.
Qed.





(** ** Further properties of the walker *)

(** From here on a proof depends on the parameters of its statement
    only. *)
#[local] Set Default Proof Using "Type".

Lemma assignments_scanned (URL : string) (n : Node) :
  forall p v,
    In (p, v) (assignments URL n) ->
    exists c, scanned n c /\ html.Type_ c = ElementNode
              /\ getAttrVal c "itemprop" = p /\ p <> ""
              /\ v = bound_value URL c p.
Proof.
  induction n as [t data attrs children IH] using Node_tree_ind.
  intros p v Hin. simpl in Hin. apply in_flat_map in Hin as (c & Hc & Hin).
  rewrite Forall_forall in IH.
  destruct (html.Type_ c) eqn:Ht; try (now destruct Hin).
  destruct (String.eqb (getAttrVal c "itemprop") "") eqn:Hp; simpl in Hin.
  - apply String.eqb_eq in Hp.
    destruct (IH c (proj2 (list_elem_of_In _ _) Hc) p v Hin)
      as (d & Hd & Hrest).
    exists d. split; [|exact Hrest].
    now apply (scanned_through _ c d).
  - apply String.eqb_neq in Hp. destruct Hin as [Heq|[]].
    inversion Heq. subst p v. exists c.
    split; [now apply scanned_child|]. auto.
Qed.

Lemma values_for_In (p : string) (v : any) (l : list (string * any)) :
  In v (values_for p l) -> In (p, v) l.
Proof.
  unfold values_for. intros H.
  apply in_map_iff in H as ([q w] & Hw & Hin). simpl in Hw. subst w.
  apply filter_In in Hin as [Hin Hq]. simpl in Hq.
  apply String.eqb_eq in Hq. now subst q.
Qed.

Lemma holds_slot_In (vs : list any) (v : any) :
  Forall (fun w => is_slice w = false) vs -> is_slice v = false ->
  holds (slot vs) v -> In v vs.
Proof.
  intros Hvs Hv [H | (l & H & Hin)].
  - destruct vs as [|a [|b r]]; simpl in H; try discriminate.
    + inversion H. now left.
    + inversion H. subst v. discriminate.
  - destruct vs as [|a [|b r]]; simpl in H; try discriminate.
    + inversion H. subst a. apply Forall_inv in Hvs. discriminate.
    + inversion H. now subst l.
Qed.

(** X1. The items returned by the extraction are the items built for the
    scope roots of the parsed document, one each and in document order;
    a scope root is an element with [itemscope]; and the result is empty
    exactly when the document has no [itemscope] element at all. *)
Theorem top_level_items_are_scope_roots (URL htmlContent : string) :
  W3CMicrodata URL htmlContent =
  (map (fun r => parseProperties r (newItem r) URL)
       (scope_roots (html_Parse htmlContent)), [])
  /\ sublist (scope_roots (html_Parse htmlContent))
             (preorder (html_Parse htmlContent))
  /\ Forall (fun r => html.Type_ r = ElementNode
                      /\ getAttr r "itemscope" = true)
            (scope_roots (html_Parse htmlContent))
  /\ (fst (W3CMicrodata URL htmlContent) = [] <->
      hasItemscope (html_Parse htmlContent) = false).
Proof.
  rewrite W3CMicrodata_items, parseNode_scope_roots. simpl.
  generalize (html_Parse htmlContent) as doc. intros doc.
  assert (Hsub : forall n, sublist (scope_roots n) (preorder n)).
  { induction n as [t data attrs children IH] using Node_tree_ind. simpl.
    destruct (NodeType_eqb t ElementNode && _).
    - apply sublist_skip, sublist_nil_l.
    - apply sublist_cons.
      induction IH as [|c cs Hc _ IHcs]; simpl; [constructor|].
      now apply sublist_app. }
  assert (Hall : forall n,
             Forall (fun r => html.Type_ r = ElementNode
                              /\ getAttr r "itemscope" = true)
                    (scope_roots n)).
  { induction n as [t data attrs children IH] using Node_tree_ind. simpl.
    destruct (NodeType_eqb t ElementNode && _) eqn:E.
    - apply andb_true_iff in E as [Et Es].
      constructor; [|constructor]. split; [|exact Es].
      simpl. now destruct t.
    - clear E. induction IH as [|c cs Hc _ IHcs]; simpl; [constructor|].
      apply Forall_app. split; [exact Hc | exact IHcs]. }
  assert (Hnil : forall n, scope_roots n = [] <-> hasItemscope n = false).
  { induction n as [t data attrs children IH] using Node_tree_ind. simpl.
    destruct (NodeType_eqb t ElementNode && _); simpl.
    - split; discriminate.
    - induction IH as [|c cs Hc _ IHcs]; simpl; [split; reflexivity|].
      rewrite orb_false_iff, <- Hc, <- IHcs. split.
      + intros H. now apply app_eq_nil in H.
      + intros [-> ->]. reflexivity. }
  split; [reflexivity|]. split; [apply Hsub|]. split; [apply Hall|].
  rewrite <- Hnil. split.
  - intros H. now apply map_eq_nil in H.
  - intros ->. reflexivity.
Qed.

(** X2. After the scan of a node has filled a fresh item, a property
    name is a key of the item exactly when the scan reaches an element
    that declares this name; and every value held under the name is the
    value bound for such an element.  In particular the properties of a
    nested item are no properties of the enclosing item. *)
Theorem property_names_are_scanned (URL : string) (n : Node) (T : string)
        (I : option string) (p : string) :
  (Properties (parseProperties n (mkItem T I ∅) URL) !! p <> None <->
   exists c, scanned n c /\ html.Type_ c = ElementNode
             /\ getAttrVal c "itemprop" = p /\ p <> "")
  /\ (forall v,
        is_slice v = false ->
        holds (Properties (parseProperties n (mkItem T I ∅) URL) !! p) v ->
        exists c, scanned n c /\ html.Type_ c = ElementNode
                  /\ getAttrVal c "itemprop" = p /\ p <> ""
                  /\ v = bound_value URL c p).
Proof.
  rewrite parseProperties_slot. split.
  - split.
    + intros H.
      destruct (values_for p (assignments URL n)) as [|v vs] eqn:E;
        [now destruct H|].
      assert (Hin : In v (values_for p (assignments URL n)))
        by (rewrite E; now left).
      apply values_for_In, assignments_scanned in Hin
        as (c & Hs & Ht & Hp & Hne & _).
      now exists c.
    + intros (c & Hs & Ht & Hp & Hne).
      pose proof (In_values_for p _ _
                    (scanned_assignments URL n c p Hs Ht Hp Hne)) as Hin.
      destruct (values_for p (assignments URL n)) as [|a [|b r]];
        [destruct Hin | discriminate | discriminate].
  - intros v Hv Hh.
    apply holds_slot_In in Hh; [|now apply values_for_not_slice,
                                   assignments_not_slice | exact Hv].
    now apply values_for_In, assignments_scanned in Hh.
Qed.

(** X4. The scan of a node never changes the type or the id of the item
    it fills, never removes a key, leaves the slot of every name that it
    does not assign as it was, and appends to the slot of every other
    name the values it assigns, in document order. *)
Theorem scan_keeps_item (URL : string) (n : Node) (item : MicrodataItem) :
  Type_ (parseProperties n item URL) = Type_ item
  /\ ID (parseProperties n item URL) = ID item
  /\ (forall p,
        Properties (parseProperties n item URL) !! p =
        accumulate (Properties item !! p)
                   (values_for p (assignments URL n)))
  /\ (forall p,
        values_for p (assignments URL n) = [] ->
        Properties (parseProperties n item URL) !! p =
        Properties item !! p)
  /\ (forall p,
        Properties item !! p <> None ->
        Properties (parseProperties n item URL) !! p <> None).
Proof.
  destruct (parseProperties_fields URL n item) as [HT HI].
  assert (Hacc : forall p,
             Properties (parseProperties n item URL) !! p =
             accumulate (Properties item !! p)
                        (values_for p (assignments URL n))).
  { intros p. now rewrite parseProperties_trace, fold_assign_lookup. }
  split; [exact HT|]. split; [exact HI|]. split; [exact Hacc|]. split.
  - intros p E. now rewrite Hacc, E.
  - intros p Hp. rewrite Hacc.
    destruct (values_for p (assignments URL n)) as [|v vs _] using rev_ind;
      [exact Hp|].
    rewrite accumulate_snoc. discriminate.
Qed.

(** X5. [getAttr] holds exactly when some attribute has the key; a key
    that no attribute has reads as the empty string; among several
    attributes with the same key the first one is read; and a value that
    [getAttrVal] reports as non-empty belongs to a present attribute. *)
Theorem attribute_lookup (n : Node) (key : string) :
  (getAttr n key = true <-> exists a, In a (Attr n) /\ Key a = key)
  /\ (getAttr n key = false -> getAttrVal n key = "")
  /\ (getAttrVal n key <> "" -> getAttr n key = true)
  /\ (forall pre a post,
        Attr n = (pre ++ a :: post)%list -> Key a = key ->
        Forall (fun b => Key b <> key) pre ->
        getAttr n key = true
        /\ getAttrVal n key = strings.TrimSpace (Val a)).
Proof.
  unfold getAttr, getAttrVal.
  assert (H1 : getAttr_loop (Attr n) key = true <->
               exists a, In a (Attr n) /\ Key a = key).
  { induction (Attr n) as [|b attrs IH]; simpl.
    - split; [discriminate | now intros (a & [] & _)].
    - destruct (String.eqb (Key b) key) eqn:E.
      + apply String.eqb_eq in E. split; [|reflexivity].
        intros _. exists b. auto.
      + apply String.eqb_neq in E. rewrite IH. split.
        * intros (a & Ha & Hk). exists a. auto.
        * intros (a & [->|Ha] & Hk); [contradiction|]. now exists a. }
  assert (H2 : getAttr_loop (Attr n) key = false ->
               getAttrVal_loop (Attr n) key = "").
  { clear H1. induction (Attr n) as [|b attrs IH]; simpl; [reflexivity|].
    destruct (String.eqb (Key b) key); [discriminate | exact IH]. }
  split; [exact H1|]. split; [exact H2|]. split.
  - intros Hne. destruct (getAttr_loop (Attr n) key) eqn:E; [reflexivity|].
    elim Hne. now apply H2.
  - intros pre a post -> Hk Hpre. clear H1 H2.
    induction Hpre as [|b pre Hb _ IH]; simpl.
    + apply String.eqb_eq in Hk. now rewrite Hk.
    + apply String.eqb_neq in Hb. now rewrite Hb.
Qed.

(** X6. When the base URL does not parse, the extraction does not fail:
    a property that falls under the URL rule, on an element that is not an
    item and has no [datetime] value, is given the trimmed [href] of its
    element as it is, absolute or not; this is the value held by the slot
    of its name in the item filled from a node whose scan reaches the
    element. *)
Theorem unparsable_base_url_leaves_href (URL : string) (n c : Node)
        (prop T : string) (I : option string) :
  url_Parse URL = None ->
  scanned n c ->
  property_element c prop ->
  url_rule prop = true ->
  getAttrVal c "datetime" = "" ->
  holds (Properties (parseProperties n (mkItem T I ∅) URL) !! prop)
        (VString (getAttrVal c "href")).
Proof.
  intros Hu Hs Hc Hr Hd.
  pose proof (scanned_property_value URL n c prop T I Hs Hc) as H.
  assert (Hv : propertyValue URL c prop = getAttrVal c "href").
  { unfold propertyValue. rewrite Hd. simpl.
    unfold url_rule in Hr. rewrite Hr, Hu.
    now destruct (_ || _ || _). }
  now rewrite Hv in H.
Qed.

(** ** The meta-tag extractors: strings and slices *)

Lemma strings_Split_length (s : string) (sep : ascii) :
  length (strings_Split s sep) = S (count_byte sep s).
Proof.
  induction s as [|c rest IH]; simpl; [reflexivity|].
  destruct (Ascii.eqb c sep); simpl; [now rewrite IH|].
  destruct (strings_Split rest sep); simpl in *; [discriminate | exact IH].
Qed.

Lemma HasPrefix_append (s prefix : string) :
  strings.HasPrefix s prefix = true -> exists rest, s = prefix +:+ rest.
Proof.
  unfold strings.HasPrefix. intros H.
  apply andb_true_iff in H as [_ H]. apply String.eqb_eq in H.
  revert s H. induction prefix as [|a prefix IH]; intros s H.
  - now exists s.
  - destruct s as [|b s]; simpl in H; [discriminate|].
    inversion H as [[Hab Hrest]].
    destruct (IH s Hrest) as (rest & ->). exists rest.
    simpl. now rewrite Hrest.
Qed.

Lemma update_at_last {A : Type} (x : A) (l : list A) (f : A -> A) :
  update_at (x :: l) (Z.of_nat (S (length l)) - 1)%Z f =
  Some (alter f (length l) (x :: l)).
Proof.
  unfold update_at.
  replace (Z.of_nat (S (length l)) - 1)%Z with (Z.of_nat (length l)) by lia.
  rewrite Nat2Z.id.
  destruct (0 <=? Z.of_nat (length l))%Z eqn:E1;
    [|apply Z.leb_gt in E1; lia].
  destruct (Z.of_nat (length l) <? Z.of_nat (length (x :: l)))%Z eqn:E2;
    [reflexivity|]. apply Z.ltb_ge in E2. simpl in E2. lia.
Qed.

Lemma alter_snoc {A : Type} (f : A -> A) (l : list A) (z : A) :
  alter f (length l) (l ++ [z])%list = (l ++ [f z])%list.
Proof. induction l as [|x l IH]; simpl; [reflexivity | now f_equal]. Qed.

Lemma update_at_snoc {A : Type} (x : A) (l : list A) (z : A) (f : A -> A) :
  update_at (x :: l ++ [z]) (Z.of_nat (S (length (l ++ [z]))) - 1)%Z f =
  Some (x :: l ++ [f z])%list.
Proof.
  rewrite update_at_last. f_equal.
  replace (length (l ++ [z])) with (length (x :: l))
    by (rewrite length_app; simpl; lia).
  apply (alter_snoc f (x :: l) z).
Qed.

Lemma last_alter_last {A : Type} (f : A -> A) (x : A) (l : list A) :
  exists old, last (alter f (length l) (x :: l)) = Some (f old).
Proof.
  revert x. induction l as [|y l IH]; intros x.
  - now exists x.
  - destruct (IH y) as (old & Hold). exists old.
    change (alter f (length (y :: l)) (x :: y :: l))
      with (x :: alter f (length l) (y :: l)).
    destruct (alter f (length l) (y :: l)) eqn:E; [discriminate|].
    exact Hold.
Qed.

(** When does a handler of structured properties panic? *)
Lemma handle_entries_None {A : Type} (zero : A) (base : string)
      (set_url : A -> A) (sub : string -> option (A -> A))
      (entries : list A) (parts : list string) :
  2 <= length parts ->
  handle_entries zero base set_url sub entries parts = None <->
  entries = [] /\ exists key f, parts !! 2%nat = Some key /\ sub key = Some f.
Proof.
  intros Hlen.
  destruct parts as [|a [|b [|c rest]]]; simpl in Hlen; try lia.
  - (* two parts *)
    unfold handle_entries. simpl.
    destruct entries as [|x l]; simpl.
    + split; [discriminate|]. intros (_ & key & f & Hk & _). discriminate.
    + split; [|intros (Hx & _); discriminate].
      destruct (String.eqb b base); simpl.
      * rewrite update_at_snoc. discriminate.
      * rewrite update_at_last. discriminate.
  - (* three parts or more *)
    unfold handle_entries. simpl.
    destruct entries as [|x l]; simpl.
    + destruct (sub c) as [f|] eqn:Hsub.
      * split; [|reflexivity]. intros _. split; [reflexivity|].
        now exists c, f.
      * split; [discriminate|].
        intros (_ & key & f & Hk & Hf). inversion Hk. congruence.
    + split; [|intros (Hx & _); discriminate].
      destruct (String.eqb b base); simpl;
        (destruct (sub c) as [f|]; [|discriminate]);
        rewrite update_at_last; discriminate.
Qed.

(** What does a handler do to the slice when it does not panic? *)
Lemma handle_entries_Some {A : Type} (zero : A) (base : string)
      (set_url : A -> A) (sub : string -> option (A -> A))
      (entries result : list A) (parts : list string) :
  2 <= length parts ->
  handle_entries zero base set_url sub entries parts = Some result ->
  (length result = length entries \/ length result = S (length entries))
  /\ (forall i, S i < length result -> result !! i = entries !! i)
  /\ (length result = S (length entries) <->
      length parts = 2
      /\ (entries = [] \/ parts !! 1%nat = Some base))
  /\ (length parts = 2 ->
      exists old, last result = Some (set_url old)).
Proof.
  intros Hlen.
  destruct parts as [|a [|b [|c rest]]]; simpl in Hlen; try lia.
  - unfold handle_entries. simpl.
    destruct entries as [|x l]; simpl.
    + intros H. inversion H. subst result. simpl.
      split; [now right|]. split; [intros i Hi; lia|].
      split; [split; auto|]. intros _. now exists zero.
    + destruct (String.eqb b base) eqn:Hb; simpl.
      * rewrite update_at_snoc.
        intros H. inversion H. subst result. clear H.
        simpl. rewrite !length_app. simpl.
        split; [right; lia|]. split.
        { intros i Hi. destruct i as [|i]; [reflexivity|]. simpl.
          apply lookup_app_l. lia. }
        split.
        { split; [|intros; lia]. intros _. split; [reflexivity|].
          right. apply String.eqb_eq in Hb. now subst. }
        intros _. exists zero.
        change (x :: (l ++ [set_url zero])%list)
          with (((x :: l) ++ [set_url zero])%list).
        apply last_snoc.
      * rewrite update_at_last.
        intros H. inversion H. subst result. clear H.
        rewrite length_alter.
        split; [now left|]. split.
        { intros i Hi. apply list_lookup_alter_ne. simpl in Hi. lia. }
        split.
        { split; [simpl; lia|]. intros (_ & [Hx|Hx]); [discriminate|].
          inversion Hx. subst b. now rewrite String.eqb_refl in Hb. }
        intros _. apply last_alter_last.
  - unfold handle_entries. simpl.
    assert (Hno : forall r : list A,
               length r = length entries ->
               (forall i, S i < length r -> r !! i = entries !! i) ->
               (length r = length entries \/ length r = S (length entries))
               /\ (forall i, S i < length r -> r !! i = entries !! i)
               /\ (length r = S (length entries) <->
                   S (S (S (length rest))) = 2
                   /\ (entries = [] \/ Some b = Some base))
               /\ (S (S (S (length rest))) = 2 ->
                   exists old, last r = Some (set_url old))).
    { intros r Hr Hpre. split; [now left|]. split; [exact Hpre|].
      split; [split; [lia | intros (? & _); lia] | intros; lia]. }
    destruct entries as [|x l]; simpl.
    + destruct (sub c) as [f|]; [discriminate|].
      intros H. inversion H. subst result. now apply Hno.
    + destruct (String.eqb b base); simpl;
        (destruct (sub c) as [f|];
         [rewrite update_at_last | ]);
        intros H; inversion H; subst result; apply Hno;
        try reflexivity; try (now rewrite length_alter);
        try (intros i Hi; rewrite length_alter in Hi;
             apply list_lookup_alter_ne; simpl in Hi; lia);
        auto.
Qed.

(** ** The handlers of structured properties *)

Ltac handler_cases :=
  match goal with
  | |- context [Nat.eqb (length ?l) 0] => destruct l
  end;
  match goal with
  | |- context [strings_Split] => idtac
  | |- context [@lookup _ _ _ _ _ ?parts] =>
      destruct parts as [|? [|? [|? ?]]]
  end;
  cbn;
  repeat match goal with
         | |- context [String.eqb ?a ?b] => destruct (String.eqb a b); cbn
         end;
  try reflexivity;
  repeat match goal with
         | |- context [update_at ?l ?i ?f] => destruct (update_at l i f); cbn
         end;
  reflexivity.

Lemma handleMusicSongProperty_entries (music : Music.t) (parts : list string)
      (content : string) :
  handleMusicSongProperty music parts content =
  l ← handle_entries MusicSong.zero "song" (MusicSong.set_URL content)
        (song_sub content) (Music.Song music) parts;
  Some (Music.set_Song l music).
Proof.
  unfold handleMusicSongProperty, handle_entries, song_sub.
  destruct music. cbn [Music.Song Music.set_Song].
  handler_cases.
Qed.

Lemma handleVideoActorProperty_entries (video : Video.t Time) (parts : list string)
      (content : string) :
  handleVideoActorProperty video parts content =
  l ← handle_entries VideoActor.zero "actor" (VideoActor.set_URL content)
        (actor_sub content) (Video.Actor video) parts;
  Some (Video.set_Actor l video).
Proof.
  unfold handleVideoActorProperty, handle_entries, actor_sub.
  destruct video. cbn [Video.Actor Video.set_Actor].
  handler_cases.
Qed.

Lemma handleXCardsImageProperty_entries (xc : XCards.t Time) (parts : list string)
      (content : string) :
  handleXCardsImageProperty xc parts content =
  l ← handle_entries XCardsImage.zero "image" (XCardsImage.set_URL content)
        (image_sub content) (XCards.XCardsImage xc) parts;
  Some (XCards.set_XCardsImage l xc).
Proof.
  unfold handleXCardsImageProperty, handle_entries, image_sub.
  destruct xc. cbn [XCards.XCardsImage XCards.set_XCardsImage].
  handler_cases.
Qed.

Lemma handleXCardsVideoProperty_entries (xc : XCards.t Time) (parts : list string)
      (content : string) :
  handleXCardsVideoProperty xc parts content =
  l ← handle_entries XCardsVideo.zero "video" (XCardsVideo.set_URL content)
        (video_sub content) (XCards.XCardsVideo xc) parts;
  Some (XCards.set_XCardsVideo l xc).
Proof.
  unfold handleXCardsVideoProperty, handle_entries, video_sub.
  destruct xc. cbn [XCards.XCardsVideo XCards.set_XCardsVideo].
  handler_cases.
Qed.

Lemma handleXCardsAudioProperty_entries (xc : XCards.t Time) (parts : list string)
      (content : string) :
  handleXCardsAudioProperty xc parts content =
  l ← handle_entries XCardsAudio.zero "audio" (XCardsAudio.set_URL content)
        (audio_sub content) (XCards.XCardsAudio xc) parts;
  Some (XCards.set_XCardsAudio l xc).
Proof.
  unfold handleXCardsAudioProperty, handle_entries, audio_sub.
  destruct xc. cbn [XCards.XCardsAudio XCards.set_XCardsAudio].
  handler_cases.
Qed.

Lemma handleOpenGraphImageProperty_entries (og : OpenGraph.t Time) (parts : list string)
      (content : string) :
  handleOpenGraphImageProperty og parts content =
  l ← handle_entries OpenGraphImage.zero "image" (OpenGraphImage.set_URL content)
        (og_image_sub content) (OpenGraph.OpenGraphImage og) parts;
  Some (OpenGraph.set_OpenGraphImage l og).
Proof.
  unfold handleOpenGraphImageProperty, handle_entries, og_image_sub.
  destruct og. cbn [OpenGraph.OpenGraphImage OpenGraph.set_OpenGraphImage].
  handler_cases.
Qed.

Lemma handleOpenGraphVideoProperty_entries (og : OpenGraph.t Time) (parts : list string)
      (content : string) :
  handleOpenGraphVideoProperty og parts content =
  l ← handle_entries OpenGraphVideo.zero "video" (OpenGraphVideo.set_URL content)
        (og_video_sub content) (OpenGraph.OpenGraphVideo og) parts;
  Some (OpenGraph.set_OpenGraphVideo l og).
Proof.
  unfold handleOpenGraphVideoProperty, handle_entries, og_video_sub.
  destruct og. cbn [OpenGraph.OpenGraphVideo OpenGraph.set_OpenGraphVideo].
  handler_cases.
Qed.

Lemma handleOpenGraphAudioProperty_entries (og : OpenGraph.t Time) (parts : list string)
      (content : string) :
  handleOpenGraphAudioProperty og parts content =
  l ← handle_entries OpenGraphAudio.zero "audio" (OpenGraphAudio.set_URL content)
        (og_audio_sub content) (OpenGraph.OpenGraphAudio og) parts;
  Some (OpenGraph.set_OpenGraphAudio l og).
Proof.
  unfold handleOpenGraphAudioProperty, handle_entries, og_audio_sub.
  destruct og. cbn [OpenGraph.OpenGraphAudio OpenGraph.set_OpenGraphAudio].
  handler_cases.
Qed.

(** ** The parsers of meta tags: which tags make them panic *)

Lemma count_byte_append (sep : ascii) (a b : string) :
  count_byte sep (a +:+ b) = count_byte sep a + count_byte sep b.
Proof.
  induction a as [|c a IH]; [reflexivity|].
  change (String c a +:+ b) with (String c (a +:+ b)). simpl.
  destruct (Ascii.eqb c sep); simpl; now rewrite IH.
Qed.

Lemma prefix_two_parts (property prefix : string) :
  strings.HasPrefix property prefix = true ->
  1 <= count_byte ":" prefix ->
  2 <= length (strings_Split property ":").
Proof.
  intros H Hc. apply HasPrefix_append in H as (rest & ->).
  rewrite strings_Split_length, count_byte_append. lia.
Qed.

Lemma HasPrefix_append_true (prefix rest : string) :
  strings.HasPrefix (prefix +:+ rest) prefix = true.
Proof.
  unfold strings.HasPrefix. apply andb_true_iff. split.
  - apply Nat.leb_le. induction prefix as [|c prefix IH]; simpl; lia.
  - apply String.eqb_eq. induction prefix as [|c prefix IH]; simpl.
    + now destruct rest.
    + now rewrite IH.
Qed.

Lemma HasPrefix_begins_with (s prefix : string) :
  strings.HasPrefix s prefix = begins_with prefix s.
Proof.
  unfold strings.HasPrefix.
  revert s. induction prefix as [|a prefix IH]; intros s.
  - destruct s; reflexivity.
  - destruct s as [|b s]; [reflexivity|].
    simpl begins_with. rewrite <- IH. simpl.
    rewrite (Ascii.eqb_sym b a).
    destruct (Ascii.eqb a b); [reflexivity | now rewrite andb_false_r].
Qed.

(** The conditions on a property name with a known beginning. *)
Ltac decide_conditions :=
  rewrite ?HasPrefix_begins_with;
  repeat match goal with
         | |- context [String.eqb ?s ?t] =>
             let b := eval vm_compute in (String.eqb s t) in
             match b with
             | true => change (String.eqb s t) with true
             | false => change (String.eqb s t) with false
             end
         | |- context [begins_with ?s ?t] =>
             let b := eval vm_compute in (begins_with s t) in
             match b with
             | true => change (begins_with s t) with true
             | false => change (begins_with s t) with false
             end
         end;
  cbv iota.

(** Two beginnings that a property name cannot have at once. *)
Ltac absurd_prefix Hx :=
  first
    [ congruence
    | apply HasPrefix_append in Hx as (? & ->);
      rewrite ?HasPrefix_begins_with in *;
      repeat match goal with
             | H : begins_with _ _ = true |- _ =>
                 vm_compute in H; try discriminate H; clear H
             end ].

Lemma image_sub_keys (content key : string) :
  (exists f, image_sub content key = Some f) <-> In key ["secure_url"; "type"; "width"; "height"; "alt"].
Proof.
  unfold image_sub. split.
  - intros (f & H).
    repeat match type of H with
           | context [String.eqb key ?k] =>
               destruct (String.eqb key k) eqn:E;
               [apply String.eqb_eq in E; subst key; simpl; auto 10 | clear E]
           end.
    discriminate.
  - simpl. intros H.
    repeat (destruct H as [<- | H]; [eexists; reflexivity|]).
    destruct H.
Qed.

Lemma video_sub_keys (content key : string) :
  (exists f, video_sub content key = Some f) <-> In key ["secure_url"; "type"; "width"; "height"].
Proof.
  unfold video_sub. split.
  - intros (f & H).
    repeat match type of H with
           | context [String.eqb key ?k] =>
               destruct (String.eqb key k) eqn:E;
               [apply String.eqb_eq in E; subst key; simpl; auto 10 | clear E]
           end.
    discriminate.
  - simpl. intros H.
    repeat (destruct H as [<- | H]; [eexists; reflexivity|]).
    destruct H.
Qed.

Lemma audio_sub_keys (content key : string) :
  (exists f, audio_sub content key = Some f) <-> In key ["secure_url"; "type"].
Proof.
  unfold audio_sub. split.
  - intros (f & H).
    repeat match type of H with
           | context [String.eqb key ?k] =>
               destruct (String.eqb key k) eqn:E;
               [apply String.eqb_eq in E; subst key; simpl; auto 10 | clear E]
           end.
    discriminate.
  - simpl. intros H.
    repeat (destruct H as [<- | H]; [eexists; reflexivity|]).
    destruct H.
Qed.

Lemma og_image_sub_keys (content key : string) :
  (exists f, og_image_sub content key = Some f) <-> In key ["secure_url"; "type"; "width"; "height"; "alt"].
Proof.
  unfold og_image_sub. split.
  - intros (f & H).
    repeat match type of H with
           | context [String.eqb key ?k] =>
               destruct (String.eqb key k) eqn:E;
               [apply String.eqb_eq in E; subst key; simpl; auto 10 | clear E]
           end.
    discriminate.
  - simpl. intros H.
    repeat (destruct H as [<- | H]; [eexists; reflexivity|]).
    destruct H.
Qed.

Lemma og_video_sub_keys (content key : string) :
  (exists f, og_video_sub content key = Some f) <-> In key ["secure_url"; "type"; "width"; "height"].
Proof.
  unfold og_video_sub. split.
  - intros (f & H).
    repeat match type of H with
           | context [String.eqb key ?k] =>
               destruct (String.eqb key k) eqn:E;
               [apply String.eqb_eq in E; subst key; simpl; auto 10 | clear E]
           end.
    discriminate.
  - simpl. intros H.
    repeat (destruct H as [<- | H]; [eexists; reflexivity|]).
    destruct H.
Qed.

Lemma og_audio_sub_keys (content key : string) :
  (exists f, og_audio_sub content key = Some f) <-> In key ["secure_url"; "type"].
Proof.
  unfold og_audio_sub. split.
  - intros (f & H).
    repeat match type of H with
           | context [String.eqb key ?k] =>
               destruct (String.eqb key k) eqn:E;
               [apply String.eqb_eq in E; subst key; simpl; auto 10 | clear E]
           end.
    discriminate.
  - simpl. intros H.
    repeat (destruct H as [<- | H]; [eexists; reflexivity|]).
    destruct H.
Qed.

Lemma song_sub_keys (content key : string) :
  (exists f, song_sub content key = Some f) <-> In key ["disc"; "track"].
Proof.
  unfold song_sub. split.
  - intros (f & H).
    repeat match type of H with
           | context [String.eqb key ?k] =>
               destruct (String.eqb key k) eqn:E;
               [apply String.eqb_eq in E; subst key; simpl; auto 10 | clear E]
           end.
    discriminate.
  - simpl. intros H.
    repeat (destruct H as [<- | H]; [eexists; reflexivity|]).
    destruct H.
Qed.

Lemma actor_sub_keys (content key : string) :
  (exists f, actor_sub content key = Some f) <-> In key ["role"].
Proof.
  unfold actor_sub. split.
  - intros (f & H).
    repeat match type of H with
           | context [String.eqb key ?k] =>
               destruct (String.eqb key k) eqn:E;
               [apply String.eqb_eq in E; subst key; simpl; auto 10 | clear E]
           end.
    discriminate.
  - simpl. intros H.
    repeat (destruct H as [<- | H]; [eexists; reflexivity|]).
    destruct H.
Qed.

#[local] Arguments handleMusicSongProperty : simpl never.
#[local] Arguments handleVideoActorProperty : simpl never.
#[local] Arguments handle_entries : simpl never.

Lemma parseXCardsMetaTag_image (xc : XCards.t Time) (property content : string) :
  strings.HasPrefix property "twitter:image" = true ->
  parseXCardsMetaTag xc property content =
  handleXCardsImageProperty xc (strings_Split property ":") content.
Proof.
  intros H. apply HasPrefix_append in H as (rest & ->).
  unfold parseXCardsMetaTag.
  generalize (strings_Split ("twitter:image" +:+ rest) ":") as parts.
  intros parts. decide_conditions. reflexivity.
Qed.

Lemma parseXCardsMetaTag_video (xc : XCards.t Time) (property content : string) :
  strings.HasPrefix property "twitter:video" = true ->
  parseXCardsMetaTag xc property content =
  handleXCardsVideoProperty xc (strings_Split property ":") content.
Proof.
  intros H. apply HasPrefix_append in H as (rest & ->).
  unfold parseXCardsMetaTag.
  generalize (strings_Split ("twitter:video" +:+ rest) ":") as parts.
  intros parts. decide_conditions. reflexivity.
Qed.

Lemma parseXCardsMetaTag_audio (xc : XCards.t Time) (property content : string) :
  strings.HasPrefix property "twitter:audio" = true ->
  parseXCardsMetaTag xc property content =
  handleXCardsAudioProperty xc (strings_Split property ":") content.
Proof.
  intros H. apply HasPrefix_append in H as (rest & ->).
  unfold parseXCardsMetaTag.
  generalize (strings_Split ("twitter:audio" +:+ rest) ":") as parts.
  intros parts. decide_conditions. reflexivity.
Qed.

Lemma parseXCardsMetaTag_song (xc : XCards.t Time) (property content : string) :
  strings.HasPrefix property "music:song" = true ->
  parseXCardsMetaTag xc property content =
  l ← handle_entries MusicSong.zero "song" (MusicSong.set_URL content)
        (song_sub content) (songs_of (XCards.Music xc))
        (strings_Split property ":");
  Some (XCards.set_Music
          (Some (Music.set_Song l
                   (default Music.zero (XCards.Music xc)))) xc).
Proof.
  intros H. apply HasPrefix_append in H as (rest & ->).
  unfold parseXCardsMetaTag.
  generalize (strings_Split ("music:song" +:+ rest) ":") as parts.
  intros parts. decide_conditions.
  destruct xc as [? ? ? ? ? ? ? ? ? ? ? ? ? ? ? ? ? Music Video ? ? ?]; cbn.
  destruct Music as [m|]; cbn;
    rewrite handleMusicSongProperty_entries; cbn;
    match goal with
    | |- context [handle_entries ?z ?b ?u ?s ?e ?p] =>
        destruct (handle_entries z b u s e p)
    end; reflexivity.
Qed.

Lemma parseXCardsMetaTag_actor (xc : XCards.t Time) (property content : string) :
  strings.HasPrefix property "video:actor" = true ->
  parseXCardsMetaTag xc property content =
  l ← handle_entries VideoActor.zero "actor" (VideoActor.set_URL content)
        (actor_sub content) (actors_of (XCards.Video xc))
        (strings_Split property ":");
  Some (XCards.set_Video
          (Some (Video.set_Actor l
                   (default (Video.zero zero_Time) (XCards.Video xc))))
          xc).
Proof.
  intros H. apply HasPrefix_append in H as (rest & ->).
  unfold parseXCardsMetaTag.
  generalize (strings_Split ("video:actor" +:+ rest) ":") as parts.
  intros parts. decide_conditions.
  destruct xc as [? ? ? ? ? ? ? ? ? ? ? ? ? ? ? ? ? Music Video ? ? ?]; cbn.
  destruct Video as [v|]; cbn;
    rewrite handleVideoActorProperty_entries; cbn;
    match goal with
    | |- context [handle_entries ?z ?b ?u ?s ?e ?p] =>
        destruct (handle_entries z b u s e p)
    end; reflexivity.
Qed.

Lemma parseXCardsMetaTag_other (xc : XCards.t Time) (property content : string) :
  strings.HasPrefix property "twitter:image" = false ->
  strings.HasPrefix property "twitter:video" = false ->
  strings.HasPrefix property "twitter:audio" = false ->
  strings.HasPrefix property "music:song" = false ->
  strings.HasPrefix property "video:actor" = false ->
  parseXCardsMetaTag xc property content <> None.
Proof.
  intros H1 H2 H3 H4 H5. unfold parseXCardsMetaTag.
  generalize (strings_Split property ":") as parts. intros parts.
  rewrite H1, H2, H3, H4, H5.
  destruct xc as [? ? ? ? ? ? ? ? ? ? ? ? ? ? ? ? ? Music Video ? ? ?]; cbn.
  repeat match goal with
         | |- context [if ?c then _ else _] => destruct c
         end;
    try discriminate;
    repeat match goal with
           | |- context [match ?o with Some _ => _ | None => _ end] =>
               destruct o; cbn
           end;
    discriminate.
Qed.

Lemma parseOpenGraphMetaTag_image (og : OpenGraph.t Time) (property content : string) :
  strings.HasPrefix property "og:image" = true ->
  parseOpenGraphMetaTag og property content =
  handleOpenGraphImageProperty og (strings_Split property ":") content.
Proof.
  intros H. apply HasPrefix_append in H as (rest & ->).
  unfold parseOpenGraphMetaTag.
  generalize (strings_Split ("og:image" +:+ rest) ":") as parts.
  intros parts. decide_conditions. reflexivity.
Qed.

Lemma parseOpenGraphMetaTag_video (og : OpenGraph.t Time) (property content : string) :
  strings.HasPrefix property "og:video" = true ->
  parseOpenGraphMetaTag og property content =
  handleOpenGraphVideoProperty og (strings_Split property ":") content.
Proof.
  intros H. apply HasPrefix_append in H as (rest & ->).
  unfold parseOpenGraphMetaTag.
  generalize (strings_Split ("og:video" +:+ rest) ":") as parts.
  intros parts. decide_conditions. reflexivity.
Qed.

Lemma parseOpenGraphMetaTag_audio (og : OpenGraph.t Time) (property content : string) :
  strings.HasPrefix property "og:audio" = true ->
  parseOpenGraphMetaTag og property content =
  handleOpenGraphAudioProperty og (strings_Split property ":") content.
Proof.
  intros H. apply HasPrefix_append in H as (rest & ->).
  unfold parseOpenGraphMetaTag.
  generalize (strings_Split ("og:audio" +:+ rest) ":") as parts.
  intros parts. decide_conditions. reflexivity.
Qed.

Lemma parseOpenGraphMetaTag_song (og : OpenGraph.t Time) (property content : string) :
  strings.HasPrefix property "music:song" = true ->
  parseOpenGraphMetaTag og property content =
  l ← handle_entries MusicSong.zero "song" (MusicSong.set_URL content)
        (song_sub content) (songs_of (OpenGraph.Music og))
        (strings_Split property ":");
  Some (OpenGraph.set_Music
          (Some (Music.set_Song l
                   (default Music.zero (OpenGraph.Music og)))) og).
Proof.
  intros H. apply HasPrefix_append in H as (rest & ->).
  unfold parseOpenGraphMetaTag.
  generalize (strings_Split ("music:song" +:+ rest) ":") as parts.
  intros parts. decide_conditions.
  destruct og as [? ? ? ? ? ? ? ? ? ? ? Music Video ? ? ?]; cbn.
  destruct Music as [m|]; cbn;
    rewrite handleMusicSongProperty_entries; cbn;
    match goal with
    | |- context [handle_entries ?z ?b ?u ?s ?e ?p] =>
        destruct (handle_entries z b u s e p)
    end; reflexivity.
Qed.

Lemma parseOpenGraphMetaTag_actor (og : OpenGraph.t Time) (property content : string) :
  strings.HasPrefix property "video:actor" = true ->
  parseOpenGraphMetaTag og property content =
  l ← handle_entries VideoActor.zero "actor" (VideoActor.set_URL content)
        (actor_sub content) (actors_of (OpenGraph.Video og))
        (strings_Split property ":");
  Some (OpenGraph.set_Video
          (Some (Video.set_Actor l
                   (default (Video.zero zero_Time) (OpenGraph.Video og))))
          og).
Proof.
  intros H. apply HasPrefix_append in H as (rest & ->).
  unfold parseOpenGraphMetaTag.
  generalize (strings_Split ("video:actor" +:+ rest) ":") as parts.
  intros parts. decide_conditions.
  destruct og as [? ? ? ? ? ? ? ? ? ? ? Music Video ? ? ?]; cbn.
  destruct Video as [v|]; cbn;
    rewrite handleVideoActorProperty_entries; cbn;
    match goal with
    | |- context [handle_entries ?z ?b ?u ?s ?e ?p] =>
        destruct (handle_entries z b u s e p)
    end; reflexivity.
Qed.

Lemma parseOpenGraphMetaTag_other (og : OpenGraph.t Time) (property content : string) :
  strings.HasPrefix property "og:image" = false ->
  strings.HasPrefix property "og:video" = false ->
  strings.HasPrefix property "og:audio" = false ->
  strings.HasPrefix property "music:song" = false ->
  strings.HasPrefix property "video:actor" = false ->
  parseOpenGraphMetaTag og property content <> None.
Proof.
  intros H1 H2 H3 H4 H5. unfold parseOpenGraphMetaTag.
  generalize (strings_Split property ":") as parts. intros parts.
  rewrite H1, H2, H3, H4, H5.
  destruct og as [? ? ? ? ? ? ? ? ? ? ? Music Video ? ? ?]; cbn.
  repeat match goal with
         | |- context [if ?c then _ else _] => destruct c
         end;
    try discriminate;
    repeat match goal with
           | |- context [match ?o with Some _ => _ | None => _ end] =>
               destruct o; cbn
           end;
    discriminate.
Qed.

(** When does [parseXCardsMetaTag] panic? *)
Lemma parseXCardsMetaTag_None (xc : XCards.t Time) (property content : string) :
  parseXCardsMetaTag xc property content = None <->
  (strings.HasPrefix property "twitter:image" = true
   /\ XCards.XCardsImage xc = []
   /\ third_part_in ["secure_url"; "type"; "width"; "height"; "alt"] property)
  \/ (strings.HasPrefix property "twitter:video" = true
      /\ XCards.XCardsVideo xc = []
      /\ third_part_in ["secure_url"; "type"; "width"; "height"] property)
  \/ (strings.HasPrefix property "twitter:audio" = true
      /\ XCards.XCardsAudio xc = []
      /\ third_part_in ["secure_url"; "type"] property)
  \/ (strings.HasPrefix property "music:song" = true
      /\ songs_of (XCards.Music xc) = []
      /\ third_part_in ["disc"; "track"] property)
  \/ (strings.HasPrefix property "video:actor" = true
      /\ actors_of (XCards.Video xc) = []
      /\ third_part_in ["role"] property).
Proof.
  assert (Hbind : forall (A B : Type) (o : option A) (k : A -> B),
             (l ← o; Some (k l)) = None <-> o = None).
  { intros A B [l|] k; cbn; split; congruence. }
  assert (Hthird : forall (A : Type) (sub : string -> option (A -> A))
                          (keys : list string),
             (forall key, (exists f, sub key = Some f) <-> In key keys) ->
             (exists key f,
                 strings_Split property ":" !! 2%nat = Some key
                 /\ sub key = Some f) <->
             third_part_in keys property).
  { intros A sub keys Hk. unfold third_part_in. split.
    - intros (key & f & Hp & Hf). exists key. split; [exact Hp|].
      apply Hk. now exists f.
    - intros (key & Hp & Hin). apply Hk in Hin as (f & Hf).
      now exists key, f. }
  destruct (strings.HasPrefix property "twitter:image") eqn:H1.
  { rewrite (parseXCardsMetaTag_image _ _ _ H1),
      handleXCardsImageProperty_entries, Hbind,
      (handle_entries_None _ _ _ _ _ _
         (prefix_two_parts _ _ H1 ltac:(cbn; lia))),
      (Hthird _ _ _ (image_sub_keys content)).
    split; [intros [Ha Hb]; left; auto|].
    intros [(_ & Ha & Hb)|[(Hx & _)|[(Hx & _)|[(Hx & _)|(Hx & _)]]]];
      [auto | | | | ]; absurd_prefix Hx. }
  destruct (strings.HasPrefix property "twitter:video") eqn:H2.
  { rewrite (parseXCardsMetaTag_video _ _ _ H2),
      handleXCardsVideoProperty_entries, Hbind,
      (handle_entries_None _ _ _ _ _ _
         (prefix_two_parts _ _ H2 ltac:(cbn; lia))),
      (Hthird _ _ _ (video_sub_keys content)).
    split; [intros [Ha Hb]; right; left; auto|].
    intros [(Hx & _)|[(_ & Ha & Hb)|[(Hx & _)|[(Hx & _)|(Hx & _)]]]];
      [ | auto | | | ]; absurd_prefix Hx. }
  destruct (strings.HasPrefix property "twitter:audio") eqn:H3.
  { rewrite (parseXCardsMetaTag_audio _ _ _ H3),
      handleXCardsAudioProperty_entries, Hbind,
      (handle_entries_None _ _ _ _ _ _
         (prefix_two_parts _ _ H3 ltac:(cbn; lia))),
      (Hthird _ _ _ (audio_sub_keys content)).
    split; [intros [Ha Hb]; right; right; left; auto|].
    intros [(Hx & _)|[(Hx & _)|[(_ & Ha & Hb)|[(Hx & _)|(Hx & _)]]]];
      [ | | auto | | ]; absurd_prefix Hx. }
  destruct (strings.HasPrefix property "music:song") eqn:H4.
  { rewrite (parseXCardsMetaTag_song _ _ _ H4), Hbind,
      (handle_entries_None _ _ _ _ _ _
         (prefix_two_parts _ _ H4 ltac:(cbn; lia))),
      (Hthird _ _ _ (song_sub_keys content)).
    split; [intros [Ha Hb]; right; right; right; left; auto|].
    intros [(Hx & _)|[(Hx & _)|[(Hx & _)|[(_ & Ha & Hb)|(Hx & _)]]]];
      [ | | | auto | ]; absurd_prefix Hx. }
  destruct (strings.HasPrefix property "video:actor") eqn:H5.
  { rewrite (parseXCardsMetaTag_actor _ _ _ H5), Hbind,
      (handle_entries_None _ _ _ _ _ _
         (prefix_two_parts _ _ H5 ltac:(cbn; lia))),
      (Hthird _ _ _ (actor_sub_keys content)).
    split; [intros [Ha Hb]; right; right; right; right; auto|].
    intros [(Hx & _)|[(Hx & _)|[(Hx & _)|[(Hx & _)|(_ & Ha & Hb)]]]];
      [ | | | | auto]; absurd_prefix Hx. }
  split.
  - intros H. now apply (parseXCardsMetaTag_other _ _ _ H1 H2 H3 H4 H5) in H.
  - intros [(Hx & _)|[(Hx & _)|[(Hx & _)|[(Hx & _)|(Hx & _)]]]];
      congruence.
Qed.

(** X10. [parseXCardsMetaTag] panics (an index out of range) exactly on
    a structured property whose list has no entry yet: a name that begins
    with [twitter:image], [twitter:video], [twitter:audio], [music:song] or
    [video:actor], whose third part is a key that the handler assigns,
    while no image, video, audio, song or actor has been opened.  Every
    other tag is handled without panic. *)
Theorem xcards_tag_panics (xc : XCards.t Time) (property content : string) :
  parseXCardsMetaTag xc property content = None <->
  (strings.HasPrefix property "twitter:image" = true
   /\ XCards.XCardsImage xc = []
   /\ third_part_in ["secure_url"; "type"; "width"; "height"; "alt"] property)
  \/ (strings.HasPrefix property "twitter:video" = true
      /\ XCards.XCardsVideo xc = []
      /\ third_part_in ["secure_url"; "type"; "width"; "height"] property)
  \/ (strings.HasPrefix property "twitter:audio" = true
      /\ XCards.XCardsAudio xc = []
      /\ third_part_in ["secure_url"; "type"] property)
  \/ (strings.HasPrefix property "music:song" = true
      /\ songs_of (XCards.Music xc) = []
      /\ third_part_in ["disc"; "track"] property)
  \/ (strings.HasPrefix property "video:actor" = true
      /\ actors_of (XCards.Video xc) = []
      /\ third_part_in ["role"] property).
Proof. exact (parseXCardsMetaTag_None xc property content). Qed.

(** When does [parseOpenGraphMetaTag] panic? *)
Lemma parseOpenGraphMetaTag_None (og : OpenGraph.t Time) (property content : string) :
  parseOpenGraphMetaTag og property content = None <->
  (strings.HasPrefix property "og:image" = true
   /\ OpenGraph.OpenGraphImage og = []
   /\ third_part_in ["secure_url"; "type"; "width"; "height"; "alt"] property)
  \/ (strings.HasPrefix property "og:video" = true
      /\ OpenGraph.OpenGraphVideo og = []
      /\ third_part_in ["secure_url"; "type"; "width"; "height"] property)
  \/ (strings.HasPrefix property "og:audio" = true
      /\ OpenGraph.OpenGraphAudio og = []
      /\ third_part_in ["secure_url"; "type"] property)
  \/ (strings.HasPrefix property "music:song" = true
      /\ songs_of (OpenGraph.Music og) = []
      /\ third_part_in ["disc"; "track"] property)
  \/ (strings.HasPrefix property "video:actor" = true
      /\ actors_of (OpenGraph.Video og) = []
      /\ third_part_in ["role"] property).
Proof.
  assert (Hbind : forall (A B : Type) (o : option A) (k : A -> B),
             (l ← o; Some (k l)) = None <-> o = None).
  { intros A B [l|] k; cbn; split; congruence. }
  assert (Hthird : forall (A : Type) (sub : string -> option (A -> A))
                          (keys : list string),
             (forall key, (exists f, sub key = Some f) <-> In key keys) ->
             (exists key f,
                 strings_Split property ":" !! 2%nat = Some key
                 /\ sub key = Some f) <->
             third_part_in keys property).
  { intros A sub keys Hk. unfold third_part_in. split.
    - intros (key & f & Hp & Hf). exists key. split; [exact Hp|].
      apply Hk. now exists f.
    - intros (key & Hp & Hin). apply Hk in Hin as (f & Hf).
      now exists key, f. }
  destruct (strings.HasPrefix property "og:image") eqn:H1.
  { rewrite (parseOpenGraphMetaTag_image _ _ _ H1),
      handleOpenGraphImageProperty_entries, Hbind,
      (handle_entries_None _ _ _ _ _ _
         (prefix_two_parts _ _ H1 ltac:(cbn; lia))),
      (Hthird _ _ _ (og_image_sub_keys content)).
    split; [intros [Ha Hb]; left; auto|].
    intros [(_ & Ha & Hb)|[(Hx & _)|[(Hx & _)|[(Hx & _)|(Hx & _)]]]];
      [auto | | | | ]; absurd_prefix Hx. }
  destruct (strings.HasPrefix property "og:video") eqn:H2.
  { rewrite (parseOpenGraphMetaTag_video _ _ _ H2),
      handleOpenGraphVideoProperty_entries, Hbind,
      (handle_entries_None _ _ _ _ _ _
         (prefix_two_parts _ _ H2 ltac:(cbn; lia))),
      (Hthird _ _ _ (og_video_sub_keys content)).
    split; [intros [Ha Hb]; right; left; auto|].
    intros [(Hx & _)|[(_ & Ha & Hb)|[(Hx & _)|[(Hx & _)|(Hx & _)]]]];
      [ | auto | | | ]; absurd_prefix Hx. }
  destruct (strings.HasPrefix property "og:audio") eqn:H3.
  { rewrite (parseOpenGraphMetaTag_audio _ _ _ H3),
      handleOpenGraphAudioProperty_entries, Hbind,
      (handle_entries_None _ _ _ _ _ _
         (prefix_two_parts _ _ H3 ltac:(cbn; lia))),
      (Hthird _ _ _ (og_audio_sub_keys content)).
    split; [intros [Ha Hb]; right; right; left; auto|].
    intros [(Hx & _)|[(Hx & _)|[(_ & Ha & Hb)|[(Hx & _)|(Hx & _)]]]];
      [ | | auto | | ]; absurd_prefix Hx. }
  destruct (strings.HasPrefix property "music:song") eqn:H4.
  { rewrite (parseOpenGraphMetaTag_song _ _ _ H4), Hbind,
      (handle_entries_None _ _ _ _ _ _
         (prefix_two_parts _ _ H4 ltac:(cbn; lia))),
      (Hthird _ _ _ (song_sub_keys content)).
    split; [intros [Ha Hb]; right; right; right; left; auto|].
    intros [(Hx & _)|[(Hx & _)|[(Hx & _)|[(_ & Ha & Hb)|(Hx & _)]]]];
      [ | | | auto | ]; absurd_prefix Hx. }
  destruct (strings.HasPrefix property "video:actor") eqn:H5.
  { rewrite (parseOpenGraphMetaTag_actor _ _ _ H5), Hbind,
      (handle_entries_None _ _ _ _ _ _
         (prefix_two_parts _ _ H5 ltac:(cbn; lia))),
      (Hthird _ _ _ (actor_sub_keys content)).
    split; [intros [Ha Hb]; right; right; right; right; auto|].
    intros [(Hx & _)|[(Hx & _)|[(Hx & _)|[(Hx & _)|(_ & Ha & Hb)]]]];
      [ | | | | auto]; absurd_prefix Hx. }
  split.
  - intros H. now apply (parseOpenGraphMetaTag_other _ _ _ H1 H2 H3 H4 H5) in H.
  - intros [(Hx & _)|[(Hx & _)|[(Hx & _)|[(Hx & _)|(Hx & _)]]]];
      congruence.
Qed.

(** X11. [parseOpenGraphMetaTag] panics (an index out of range) exactly on
    a structured property whose list has no entry yet: a name that begins
    with [og:image], [og:video], [og:audio], [music:song] or
    [video:actor], whose third part is a key that the handler assigns,
    while no image, video, audio, song or actor has been opened.  Every
    other tag is handled without panic. *)
Theorem opengraph_tag_panics (og : OpenGraph.t Time) (property content : string) :
  parseOpenGraphMetaTag og property content = None <->
  (strings.HasPrefix property "og:image" = true
   /\ OpenGraph.OpenGraphImage og = []
   /\ third_part_in ["secure_url"; "type"; "width"; "height"; "alt"] property)
  \/ (strings.HasPrefix property "og:video" = true
      /\ OpenGraph.OpenGraphVideo og = []
      /\ third_part_in ["secure_url"; "type"; "width"; "height"] property)
  \/ (strings.HasPrefix property "og:audio" = true
      /\ OpenGraph.OpenGraphAudio og = []
      /\ third_part_in ["secure_url"; "type"] property)
  \/ (strings.HasPrefix property "music:song" = true
      /\ songs_of (OpenGraph.Music og) = []
      /\ third_part_in ["disc"; "track"] property)
  \/ (strings.HasPrefix property "video:actor" = true
      /\ actors_of (OpenGraph.Video og) = []
      /\ third_part_in ["role"] property).
Proof. exact (parseOpenGraphMetaTag_None og property content). Qed.

(** ** The parsers of meta tags: what a tag changes *)

Lemma grows_at_end_refl {A : Type} (l : list A) : grows_at_end l l.
Proof. split; [now left | reflexivity]. Qed.

(** The leaves of the case analysis of a parser: the fields of the result
    after one branch of the chain of conditions. *)
Ltac false_conditions :=
  repeat match goal with
         | E : String.eqb ?p ?n = false |- context [String.eqb ?p ?n] =>
             rewrite E
         end.

Ltac leaf_goals :=
  cbn; false_conditions; cbn;
  repeat split;
  try reflexivity;
  try (symmetry; apply app_nil_r);
  try apply grows_at_end_refl;
  try (intros; congruence).

Ltac scalar_leaf H x :=
  inversion H; subst; clear H;
  match goal with
  | E : String.eqb ?p ?n = true |- _ => apply String.eqb_eq in E; subst p
  end;
  destruct x;
  leaf_goals.

(** A branch that hands the tag to a handler of structured properties. *)
Ltac media_leaf H Hp x :=
  match type of H with
  | context [handle_entries ?z ?b ?u ?s ?e ?p] =>
      let l := fresh "l" in
      let Hh := fresh "Hh" in
      destruct (handle_entries z b u s e p) as [l|] eqn:Hh;
      [|discriminate];
      cbn in H; inversion H; subst; clear H;
      let Ha := fresh "Ha" in
      let Hb := fresh "Hb" in
      pose proof (handle_entries_Some _ _ _ _ _ _ _
                    (prefix_two_parts _ _ Hp ltac:(cbn; lia)) Hh)
        as (Ha & Hb & _);
      try destruct x; leaf_goals; assumption
  end.

(** The chain of conditions below [music:] and [video:]. *)
Ltac sub_chain H :=
  repeat match type of H with
         | mbind _ (if String.eqb ?p ?n then _ else _) = _ =>
             destruct (String.eqb p n) eqn:?;
             [cbn in H; inversion H; subst; clear H; leaf_goals|]
         | mbind _ (if strings.HasPrefix ?p ?n then _ else _) = _ =>
             let Hp := fresh "Hp" in
             destruct (strings.HasPrefix p n) eqn:Hp;
             [first [rewrite handleMusicSongProperty_entries in H
                    |rewrite handleVideoActorProperty_entries in H];
              media_leaf H Hp H|]
         end;
  cbn in H; inversion H; subst; clear H; leaf_goals.

(** What one tag changes in a card, when the parser does not panic. *)
Lemma parseXCardsMetaTag_effect (xc xc' : XCards.t Time)
      (property content : string) :
  parseXCardsMetaTag xc property content = Some xc' ->
  XCards.Card xc' =
    (if String.eqb property "twitter:card" then content else XCards.Card xc)
  /\ XCards.Site xc' =
    (if String.eqb property "twitter:site" then content else XCards.Site xc)
  /\ XCards.Creator xc' =
    (if String.eqb property "twitter:creator" then content
     else XCards.Creator xc)
  /\ XCards.Type_ xc' =
    (if String.eqb property "twitter:type" then content else XCards.Type_ xc)
  /\ XCards.Title xc' =
    (if String.eqb property "twitter:title" then content else XCards.Title xc)
  /\ XCards.URL xc' =
    (if String.eqb property "twitter:url" then content else XCards.URL xc)
  /\ XCards.Description xc' =
    (if String.eqb property "twitter:description" then content
     else XCards.Description xc)
  /\ XCards.Determiner xc' =
    (if String.eqb property "twitter:determiner" then content
     else XCards.Determiner xc)
  /\ XCards.Locale xc' =
    (if String.eqb property "twitter:locale" then content
     else XCards.Locale xc)
  /\ XCards.SiteName xc' =
    (if String.eqb property "twitter:site_name" then content
     else XCards.SiteName xc)
  /\ XCards.LocaleAlternate xc' =
    (XCards.LocaleAlternate xc ++
     if String.eqb property "twitter:locale:alternate" then [content]
     else [])%list
  /\ XCards.OpenGraphImage xc' = XCards.OpenGraphImage xc
  /\ XCards.OpenGraphAudio xc' = XCards.OpenGraphAudio xc
  /\ XCards.OpenGraphVideo xc' = XCards.OpenGraphVideo xc
  /\ grows_at_end (XCards.XCardsImage xc) (XCards.XCardsImage xc')
  /\ grows_at_end (XCards.XCardsVideo xc) (XCards.XCardsVideo xc')
  /\ grows_at_end (XCards.XCardsAudio xc) (XCards.XCardsAudio xc')
  /\ grows_at_end (songs_of (XCards.Music xc)) (songs_of (XCards.Music xc'))
  /\ grows_at_end (actors_of (XCards.Video xc))
                  (actors_of (XCards.Video xc'))
  /\ (strings.HasPrefix property "twitter:image" = false ->
      XCards.XCardsImage xc' = XCards.XCardsImage xc)
  /\ (strings.HasPrefix property "twitter:video" = false ->
      XCards.XCardsVideo xc' = XCards.XCardsVideo xc)
  /\ (strings.HasPrefix property "twitter:audio" = false ->
      XCards.XCardsAudio xc' = XCards.XCardsAudio xc)
  /\ (strings.HasPrefix property "music:song" = false ->
      songs_of (XCards.Music xc') = songs_of (XCards.Music xc))
  /\ (strings.HasPrefix property "video:actor" = false ->
      actors_of (XCards.Video xc') = actors_of (XCards.Video xc)).
Proof.
  intros H. unfold parseXCardsMetaTag in H.
  repeat match type of H with
         | (if String.eqb ?p ?n then _ else _) = _ =>
             destruct (String.eqb p n) eqn:?; [scalar_leaf H xc|]
         end.
  destruct (strings.HasPrefix property "twitter:image") eqn:Hp.
  { rewrite handleXCardsImageProperty_entries in H. media_leaf H Hp xc. }
  clear Hp. destruct (strings.HasPrefix property "twitter:video") eqn:Hp.
  { rewrite handleXCardsVideoProperty_entries in H. media_leaf H Hp xc. }
  clear Hp. destruct (strings.HasPrefix property "twitter:audio") eqn:Hp.
  { rewrite handleXCardsAudioProperty_entries in H. media_leaf H Hp xc. }
  clear Hp.
  destruct xc as [? ? ? ? ? ? ? ? ? ? ? ? ? ? ? ? ? Music Video Article Book
                  Profile].
  destruct (strings.HasPrefix property "music:").
  { destruct Music as [m|]; cbn in H; sub_chain H. }
  destruct (strings.HasPrefix property "video:").
  { destruct Video as [v|]; cbn in H; sub_chain H. }
  destruct (strings.HasPrefix property "article:").
  { destruct Article; cbn in H; inversion H; subst; leaf_goals. }
  destruct (strings.HasPrefix property "book:").
  { destruct Book; cbn in H; inversion H; subst; leaf_goals. }
  destruct (strings.HasPrefix property "profile:").
  { destruct Profile; cbn in H; inversion H; subst; leaf_goals. }
  inversion H; subst; leaf_goals.
Qed.

(** What one tag changes in an OpenGraph object, when the parser does not
    panic. *)
Lemma parseOpenGraphMetaTag_effect (og og' : OpenGraph.t Time)
      (property content : string) :
  parseOpenGraphMetaTag og property content = Some og' ->
  OpenGraph.Type_ og' =
    (if String.eqb property "og:type" then content else OpenGraph.Type_ og)
  /\ OpenGraph.Title og' =
    (if String.eqb property "og:title" then content else OpenGraph.Title og)
  /\ OpenGraph.URL og' =
    (if String.eqb property "og:url" then content else OpenGraph.URL og)
  /\ OpenGraph.Description og' =
    (if String.eqb property "og:description" then content
     else OpenGraph.Description og)
  /\ OpenGraph.Determiner og' =
    (if String.eqb property "og:determiner" then content
     else OpenGraph.Determiner og)
  /\ OpenGraph.Locale og' =
    (if String.eqb property "og:locale" then content
     else OpenGraph.Locale og)
  /\ OpenGraph.SiteName og' =
    (if String.eqb property "og:site_name" then content
     else OpenGraph.SiteName og)
  /\ OpenGraph.LocaleAlternate og' =
    (OpenGraph.LocaleAlternate og ++
     if String.eqb property "og:locale:alternate" then [content]
     else [])%list
  /\ grows_at_end (OpenGraph.OpenGraphImage og) (OpenGraph.OpenGraphImage og')
  /\ grows_at_end (OpenGraph.OpenGraphVideo og) (OpenGraph.OpenGraphVideo og')
  /\ grows_at_end (OpenGraph.OpenGraphAudio og) (OpenGraph.OpenGraphAudio og')
  /\ grows_at_end (songs_of (OpenGraph.Music og))
                  (songs_of (OpenGraph.Music og'))
  /\ grows_at_end (actors_of (OpenGraph.Video og))
                  (actors_of (OpenGraph.Video og'))
  /\ (strings.HasPrefix property "og:image" = false ->
      OpenGraph.OpenGraphImage og' = OpenGraph.OpenGraphImage og)
  /\ (strings.HasPrefix property "og:video" = false ->
      OpenGraph.OpenGraphVideo og' = OpenGraph.OpenGraphVideo og)
  /\ (strings.HasPrefix property "og:audio" = false ->
      OpenGraph.OpenGraphAudio og' = OpenGraph.OpenGraphAudio og)
  /\ (strings.HasPrefix property "music:song" = false ->
      songs_of (OpenGraph.Music og') = songs_of (OpenGraph.Music og))
  /\ (strings.HasPrefix property "video:actor" = false ->
      actors_of (OpenGraph.Video og') = actors_of (OpenGraph.Video og)).
Proof.
  intros H. unfold parseOpenGraphMetaTag in H.
  repeat match type of H with
         | (if String.eqb ?p ?n then _ else _) = _ =>
             destruct (String.eqb p n) eqn:?; [scalar_leaf H og|]
         end.
  destruct (strings.HasPrefix property "og:image") eqn:Hp.
  { rewrite handleOpenGraphImageProperty_entries in H. media_leaf H Hp og. }
  clear Hp. destruct (strings.HasPrefix property "og:video") eqn:Hp.
  { rewrite handleOpenGraphVideoProperty_entries in H. media_leaf H Hp og. }
  clear Hp. destruct (strings.HasPrefix property "og:audio") eqn:Hp.
  { rewrite handleOpenGraphAudioProperty_entries in H. media_leaf H Hp og. }
  clear Hp.
  destruct og as [? ? ? ? ? ? ? ? ? ? ? Music Video Article Book Profile].
  destruct (strings.HasPrefix property "music:").
  { destruct Music as [m|]; cbn in H; sub_chain H. }
  destruct (strings.HasPrefix property "video:").
  { destruct Video as [v|]; cbn in H; sub_chain H. }
  destruct (strings.HasPrefix property "article:").
  { destruct Article; cbn in H; inversion H; subst; leaf_goals. }
  destruct (strings.HasPrefix property "book:").
  { destruct Book; cbn in H; inversion H; subst; leaf_goals. }
  destruct (strings.HasPrefix property "profile:").
  { destruct Profile; cbn in H; inversion H; subst; leaf_goals. }
  inversion H; subst; leaf_goals.
Qed.

(** ** Runs of tags *)

Lemma last_content_cons (name p c : string) (rest : list (string * string))
      (d : string) :
  last_content name ((p, c) :: rest) d =
  last_content name rest (if String.eqb p name then c else d).
Proof. reflexivity. Qed.

Lemma contents_of_cons (name p c : string) (rest : list (string * string)) :
  contents_of name ((p, c) :: rest) =
  ((if String.eqb p name then [c] else []) ++ contents_of name rest)%list.
Proof. unfold contents_of. cbn. now destruct (String.eqb p name). Qed.

Lemma settled_refl {A : Type} (l : list A) : settled l l.
Proof. split; [lia | reflexivity]. Qed.

Lemma grows_then_settled {A : Type} (before mid after : list A) :
  grows_at_end before mid -> settled mid after -> settled before after.
Proof.
  intros ([Hl|Hl] & Hg) (Hle & Hs); split; try lia;
    intros i Hi; (rewrite Hs by lia); apply Hg; lia.
Qed.

Lemma run_tags_cons {X : Type} (parse : X -> string -> string -> option X)
      (p c : string) (rest : list (string * string)) (x x' : X) :
  run_tags parse ((p, c) :: rest) x = Some x' ->
  exists x1, parse x p c = Some x1 /\ run_tags parse rest x1 = Some x'.
Proof.
  cbn. destruct (parse x p c) as [x1|]; [|discriminate].
  intros H. now exists x1.
Qed.

(** The loops of the extractors run the parser over the accepted tags. *)
Lemma extractXCards_loop_run (tokens : list token.Token) (xc : XCards.t Time)
      (xcHasValue : bool) :
  extractXCards_loop tokens xc xcHasValue =
  xc' ← run_tags parseXCardsMetaTag (accepted_tags "name" tokens) xc;
  Some (xc', match accepted_tags "name" tokens with
             | [] => xcHasValue
             | _ => true
             end).
Proof.
  revert xc xcHasValue.
  induction tokens as [|tok rest IH]; intros xc xcHasValue; [reflexivity|].
  unfold accepted_tags. cbn [omap list_omap extractXCards_loop].
  fold (accepted_tags "name" rest).
  unfold accepted_tag.
  destruct (token.Type_ tok); try apply IH;
    (destruct (String.eqb (token.Data tok) "meta"); cbn [negb orb];
     [|apply IH]);
    (destruct (Nat.eqb (length (token.Attr tok)) 0) eqn:Hlen;
     [apply Nat.eqb_eq in Hlen;
      destruct (token.Attr tok); [apply IH | discriminate]|]);
    fold (name_and_content "name" (token.Attr tok));
    (destruct (name_and_content "name" (token.Attr tok))
      as [property content]; cbn [fst snd]);
    (destruct (negb (String.eqb property "")
               && negb (String.eqb content "")); [|apply IH]);
    cbn [run_tags];
    (destruct (parseXCardsMetaTag xc property content) as [xc1|];
     [|reflexivity]);
    cbn; rewrite IH;
    (destruct (run_tags parseXCardsMetaTag (accepted_tags "name" rest) xc1);
     [|reflexivity]);
    cbn; now destruct (accepted_tags "name" rest).
Qed.

Lemma extractOpenGraph_loop_run (tokens : list token.Token)
      (og : OpenGraph.t Time) (ogHasValue : bool) :
  extractOpenGraph_loop tokens og ogHasValue =
  og' ← run_tags parseOpenGraphMetaTag (accepted_tags "property" tokens) og;
  Some (og', match accepted_tags "property" tokens with
             | [] => ogHasValue
             | _ => true
             end).
Proof.
  revert og ogHasValue.
  induction tokens as [|tok rest IH]; intros og ogHasValue; [reflexivity|].
  unfold accepted_tags. cbn [omap list_omap extractOpenGraph_loop].
  fold (accepted_tags "property" rest).
  unfold accepted_tag.
  destruct (token.Type_ tok); try apply IH;
    (destruct (String.eqb (token.Data tok) "meta"); cbn [negb orb];
     [|apply IH]);
    (destruct (Nat.eqb (length (token.Attr tok)) 0) eqn:Hlen;
     [apply Nat.eqb_eq in Hlen;
      destruct (token.Attr tok); [apply IH | discriminate]|]);
    fold (name_and_content "property" (token.Attr tok));
    (destruct (name_and_content "property" (token.Attr tok))
      as [property content]; cbn [fst snd]);
    (destruct (negb (String.eqb property "")
               && negb (String.eqb content "")); [|apply IH]);
    cbn [run_tags];
    (destruct (parseOpenGraphMetaTag og property content) as [og1|];
     [|reflexivity]);
    cbn; rewrite IH;
    (destruct (run_tags parseOpenGraphMetaTag
                 (accepted_tags "property" rest) og1);
     [|reflexivity]);
    cbn; now destruct (accepted_tags "property" rest).
Qed.

(** X12.  [extractXCards] is the parser of meta tags run over the accepted
    tags of the document, in order, from an empty card: it panics exactly
    when the run does, it returns nil exactly when no tag is accepted, a
    card otherwise (whatever the names of the tags), and never an
    error. *)
Theorem extractXCards_runs_accepted_tags (htmlContent : string) :
  extractXCards htmlContent =
  xc ← run_tags parseXCardsMetaTag
         (accepted_tags "name" (html_Tokenize htmlContent)) NewXCards;
  Some (match accepted_tags "name" (html_Tokenize htmlContent) with
        | [] => None
        | _ => Some xc
        end, []).
Proof.
  unfold extractXCards. rewrite extractXCards_loop_run.
  destruct (run_tags _ _ _) as [xc|]; [|reflexivity].
  cbn. now destruct (accepted_tags _ _).
Qed.

(** X13.  [extractOpenGraph] is the parser of meta tags run over the
    accepted tags of the document, in order, from an empty object: it
    panics exactly when the run does, it returns nil exactly when no tag is
    accepted, and never an error; [ParseOpenGraph] returns the same. *)
Theorem extractOpenGraph_runs_accepted_tags (URL htmlContent : string) :
  extractOpenGraph htmlContent =
  (og ← run_tags parseOpenGraphMetaTag
         (accepted_tags "property" (html_Tokenize htmlContent)) NewOpenGraph;
   Some (match accepted_tags "property" (html_Tokenize htmlContent) with
         | [] => None
         | _ => Some og
         end, []))
  /\ ParseOpenGraph URL htmlContent = extractOpenGraph htmlContent.
Proof.
  split.
  - unfold extractOpenGraph. rewrite extractOpenGraph_loop_run.
    destruct (run_tags _ _ _) as [og|]; [|reflexivity].
    cbn. now destruct (accepted_tags _ _).
  - unfold ParseOpenGraph.
    destruct (extractOpenGraph htmlContent) as [[[og|] errors]|];
      reflexivity.
Qed.

(** X14.  After a run of tags that does not panic, each plain field of the
    card holds the content of the last tag of its name, or what it held
    before the run when there is no such tag; the alternate locales are
    those before the run followed by the contents of the tags of that name,
    in order; the OpenGraph slices of the card are not touched. *)
Theorem xcards_last_tag_wins (tags : list (string * string))
        (xc xc' : XCards.t Time) :
  run_tags parseXCardsMetaTag tags xc = Some xc' ->
  XCards.Card xc' = last_content "twitter:card" tags (XCards.Card xc)
  /\ XCards.Site xc' = last_content "twitter:site" tags (XCards.Site xc)
  /\ XCards.Creator xc' =
     last_content "twitter:creator" tags (XCards.Creator xc)
  /\ XCards.Type_ xc' = last_content "twitter:type" tags (XCards.Type_ xc)
  /\ XCards.Title xc' = last_content "twitter:title" tags (XCards.Title xc)
  /\ XCards.URL xc' = last_content "twitter:url" tags (XCards.URL xc)
  /\ XCards.Description xc' =
     last_content "twitter:description" tags (XCards.Description xc)
  /\ XCards.Determiner xc' =
     last_content "twitter:determiner" tags (XCards.Determiner xc)
  /\ XCards.Locale xc' =
     last_content "twitter:locale" tags (XCards.Locale xc)
  /\ XCards.SiteName xc' =
     last_content "twitter:site_name" tags (XCards.SiteName xc)
  /\ XCards.LocaleAlternate xc' =
     (XCards.LocaleAlternate xc ++
      contents_of "twitter:locale:alternate" tags)%list
  /\ XCards.OpenGraphImage xc' = XCards.OpenGraphImage xc
  /\ XCards.OpenGraphAudio xc' = XCards.OpenGraphAudio xc
  /\ XCards.OpenGraphVideo xc' = XCards.OpenGraphVideo xc.
Proof.
  revert xc. induction tags as [|[p c] rest IH]; intros xc H.
  - inversion H. subst xc'. unfold contents_of. cbn.
    rewrite app_nil_r. repeat split.
  - apply run_tags_cons in H as (x1 & H1 & H2).
    apply parseXCardsMetaTag_effect in H1.
    destruct H1 as (E1 & E2 & E3 & E4 & E5 & E6 & E7 & E8 & E9 & E10 & E11
                    & E12 & E13 & E14 & _).
    specialize (IH _ H2).
    rewrite !last_content_cons, contents_of_cons, app_assoc.
    rewrite <- E1, <- E2, <- E3, <- E4, <- E5, <- E6, <- E7, <- E8, <- E9,
      <- E10, <- E11, <- E12, <- E13, <- E14.
    exact IH.
Qed.

(** X15.  The same for [parseOpenGraphMetaTag]: after a run of tags that
    does not panic, each plain field holds the content of the last tag of
    its name, and the alternate locales accumulate in order. *)
Theorem opengraph_last_tag_wins (tags : list (string * string))
        (og og' : OpenGraph.t Time) :
  run_tags parseOpenGraphMetaTag tags og = Some og' ->
  OpenGraph.Type_ og' = last_content "og:type" tags (OpenGraph.Type_ og)
  /\ OpenGraph.Title og' = last_content "og:title" tags (OpenGraph.Title og)
  /\ OpenGraph.URL og' = last_content "og:url" tags (OpenGraph.URL og)
  /\ OpenGraph.Description og' =
     last_content "og:description" tags (OpenGraph.Description og)
  /\ OpenGraph.Determiner og' =
     last_content "og:determiner" tags (OpenGraph.Determiner og)
  /\ OpenGraph.Locale og' =
     last_content "og:locale" tags (OpenGraph.Locale og)
  /\ OpenGraph.SiteName og' =
     last_content "og:site_name" tags (OpenGraph.SiteName og)
  /\ OpenGraph.LocaleAlternate og' =
     (OpenGraph.LocaleAlternate og ++
      contents_of "og:locale:alternate" tags)%list.
Proof.
  revert og. induction tags as [|[p c] rest IH]; intros og H.
  - inversion H. subst og'. unfold contents_of. cbn.
    rewrite app_nil_r. repeat split.
  - apply run_tags_cons in H as (x1 & H1 & H2).
    apply parseOpenGraphMetaTag_effect in H1.
    destruct H1 as (E1 & E2 & E3 & E4 & E5 & E6 & E7 & E8 & _).
    specialize (IH _ H2).
    rewrite !last_content_cons, contents_of_cons, app_assoc.
    rewrite <- E1, <- E2, <- E3, <- E4, <- E5, <- E6, <- E7, <- E8.
    exact IH.
Qed.

(** X16.  A run of tags that does not panic never shortens a slice of
    images, videos, audios, songs or actors of the card, and changes no
    entry of such a slice other than the last one it had: every entry
    before the last is final. *)
Theorem xcards_earlier_entries_are_final (tags : list (string * string))
        (xc xc' : XCards.t Time) :
  run_tags parseXCardsMetaTag tags xc = Some xc' ->
  settled (XCards.XCardsImage xc) (XCards.XCardsImage xc')
  /\ settled (XCards.XCardsVideo xc) (XCards.XCardsVideo xc')
  /\ settled (XCards.XCardsAudio xc) (XCards.XCardsAudio xc')
  /\ settled (songs_of (XCards.Music xc)) (songs_of (XCards.Music xc'))
  /\ settled (actors_of (XCards.Video xc)) (actors_of (XCards.Video xc')).
Proof.
  revert xc. induction tags as [|[p c] rest IH]; intros xc H.
  - inversion H. subst xc'. repeat split; try lia.
  - apply run_tags_cons in H as (x1 & H1 & H2).
    apply parseXCardsMetaTag_effect in H1.
    destruct H1 as (_ & _ & _ & _ & _ & _ & _ & _ & _ & _ & _ & _ & _ & _
                    & G1 & G2 & G3 & G4 & G5 & _).
    destruct (IH _ H2) as (S1 & S2 & S3 & S4 & S5).
    repeat split; eapply grows_then_settled; eassumption.
Qed.

(** X17.  The same for [parseOpenGraphMetaTag]: a run of tags that does not
    panic never shortens a slice of images, videos, audios, songs or actors,
    and every entry before the last is final. *)
Theorem opengraph_earlier_entries_are_final (tags : list (string * string))
        (og og' : OpenGraph.t Time) :
  run_tags parseOpenGraphMetaTag tags og = Some og' ->
  settled (OpenGraph.OpenGraphImage og) (OpenGraph.OpenGraphImage og')
  /\ settled (OpenGraph.OpenGraphVideo og) (OpenGraph.OpenGraphVideo og')
  /\ settled (OpenGraph.OpenGraphAudio og) (OpenGraph.OpenGraphAudio og')
  /\ settled (songs_of (OpenGraph.Music og)) (songs_of (OpenGraph.Music og'))
  /\ settled (actors_of (OpenGraph.Video og))
             (actors_of (OpenGraph.Video og')).
Proof.
  revert og. induction tags as [|[p c] rest IH]; intros og H.
  - inversion H. subst og'. repeat split; try lia.
  - apply run_tags_cons in H as (x1 & H1 & H2).
    apply parseOpenGraphMetaTag_effect in H1.
    destruct H1 as (_ & _ & _ & _ & _ & _ & _ & _ & G1 & G2 & G3 & G4 & G5
                    & _).
    destruct (IH _ H2) as (S1 & S2 & S3 & S4 & S5).
    repeat split; eapply grows_then_settled; eassumption.
Qed.

(** ** The objects that the two parsers share *)

Lemma outside_prefix (property space prefix : string) :
  strings.HasPrefix property space = false ->
  begins_with space prefix = true ->
  strings.HasPrefix property prefix = false.
Proof.
  intros Hns Hsp.
  destruct (strings.HasPrefix property prefix) eqn:E; [|reflexivity].
  apply HasPrefix_append in E as (rest & ->).
  rewrite HasPrefix_begins_with in Hns.
  assert (begins_with space (prefix +:+ rest) = true) as Hb; [|congruence].
  clear Hns. revert prefix Hsp.
  induction space as [|a space IH]; intros prefix Hsp; [reflexivity|].
  destruct prefix as [|b prefix]; [discriminate|].
  change (begins_with (String a space) (String b prefix))
    with (Ascii.eqb a b && begins_with space prefix) in Hsp.
  change (begins_with (String a space) (String b prefix +:+ rest))
    with (Ascii.eqb a b && begins_with space (prefix +:+ rest)).
  apply andb_true_iff in Hsp as (Hab & Hsp).
  rewrite Hab. now apply IH.
Qed.

Lemma outside_name (property space name : string) :
  strings.HasPrefix property space = false ->
  begins_with space name = true ->
  String.eqb property name = false.
Proof.
  intros Hns Hsp. destruct (String.eqb property name) eqn:E; [|reflexivity].
  apply String.eqb_eq in E. subst property.
  rewrite HasPrefix_begins_with in Hns. congruence.
Qed.

(** X18.  The two parsers treat the objects that they share alike.  On a
    tag whose name begins with neither [twitter:] nor [og:], and from a card
    and an OpenGraph object with the same music, video, article, book and
    profile objects, [parseXCardsMetaTag] and [parseOpenGraphMetaTag] either
    both panic or both return, and then these five objects are the same
    again (the two functions test [music:creator] and [music:release_date]
    in a different order, which makes no difference). *)
Theorem shared_objects_parsed_alike (xc : XCards.t Time)
        (og : OpenGraph.t Time) (property content : string) :
  strings.HasPrefix property "twitter:" = false ->
  strings.HasPrefix property "og:" = false ->
  XCards.Music xc = OpenGraph.Music og ->
  XCards.Video xc = OpenGraph.Video og ->
  XCards.Article xc = OpenGraph.Article og ->
  XCards.Book xc = OpenGraph.Book og ->
  XCards.Profile xc = OpenGraph.Profile og ->
  match parseXCardsMetaTag xc property content,
        parseOpenGraphMetaTag og property content with
  | Some xc', Some og' =>
      XCards.Music xc' = OpenGraph.Music og'
      /\ XCards.Video xc' = OpenGraph.Video og'
      /\ XCards.Article xc' = OpenGraph.Article og'
      /\ XCards.Book xc' = OpenGraph.Book og'
      /\ XCards.Profile xc' = OpenGraph.Profile og'
  | None, None => True
  | _, _ => False
  end.
Proof.
  intros Ht Ho H1 H2 H3 H4 H5.
  unfold parseXCardsMetaTag, parseOpenGraphMetaTag.
  generalize (strings_Split property ":") as parts. intros parts.
  rewrite (outside_prefix _ _ "twitter:image" Ht eq_refl),
    (outside_prefix _ _ "twitter:video" Ht eq_refl),
    (outside_prefix _ _ "twitter:audio" Ht eq_refl),
    (outside_prefix _ _ "og:image" Ho eq_refl),
    (outside_prefix _ _ "og:video" Ho eq_refl),
    (outside_prefix _ _ "og:audio" Ho eq_refl).
  repeat match goal with
         | |- context [String.eqb property ?n] =>
             first [ rewrite (outside_name _ _ n Ht eq_refl)
                   | rewrite (outside_name _ _ n Ho eq_refl) ]
         end.
  destruct xc, og. cbn in H1, H2, H3, H4, H5. subst.
  destruct (strings.HasPrefix property "music:").
  { destruct Music0; cbn;
      repeat match goal with
             | |- context [String.eqb property ?n] =>
                 let E := fresh "E" in
                 destruct (String.eqb property n) eqn:E;
                 [apply String.eqb_eq in E; subst property;
                  solve [cbn; auto]|]
             end;
      match goal with
      | |- context [mbind _ ?a] => destruct a
      end; cbn; auto. }
  destruct (strings.HasPrefix property "video:").
  { destruct Video0; cbn;
      repeat match goal with
             | |- context [String.eqb property ?n] =>
                 let E := fresh "E" in
                 destruct (String.eqb property n) eqn:E;
                 [apply String.eqb_eq in E; subst property;
                  solve [cbn; auto]|]
             end;
      match goal with
      | |- context [mbind _ ?a] => destruct a
      end; cbn; auto. }
  destruct (strings.HasPrefix property "article:").
  { destruct Article0; cbn; auto. }
  destruct (strings.HasPrefix property "book:").
  { destruct Book0; cbn; auto. }
  destruct (strings.HasPrefix property "profile:").
  { destruct Profile0; cbn; auto. }
  cbn. auto.
Qed.

(** ** Runs of tags that panic *)

Lemma run_tags_app {X : Type} (parse : X -> string -> string -> option X)
      (a b : list (string * string)) (x : X) :
  run_tags parse (a ++ b) x = run_tags parse a x ≫= run_tags parse b.
Proof.
  revert x. induction a as [|[p c] a IH]; intros x; [reflexivity|].
  cbn. destruct (parse x p c) as [x1|]; [apply IH | reflexivity].
Qed.

(** A run panics at its first tag that makes the parser panic. *)
Lemma run_tags_None {X : Type} (parse : X -> string -> string -> option X)
      (tags : list (string * string)) (x : X) :
  run_tags parse tags x = None <->
  exists pre p c post x1,
    tags = (pre ++ (p, c) :: post)%list
    /\ run_tags parse pre x = Some x1
    /\ parse x1 p c = None.
Proof.
  split.
  - revert x. induction tags as [|[p c] rest IH]; intros x H;
      [discriminate|].
    cbn in H. destruct (parse x p c) as [x1|] eqn:E.
    + apply IH in H as (pre & q & d & post & x2 & -> & Hrun & Hq).
      exists ((p, c) :: pre), q, d, post, x2.
      split; [reflexivity|]. split; [|exact Hq]. cbn. now rewrite E.
    + now exists [], p, c, rest, x.
  - intros (pre & p & c & post & x1 & -> & Hrun & Hp).
    rewrite run_tags_app, Hrun. cbn. now rewrite Hp.
Qed.

Lemma handle_entries_empty {A : Type} (zero : A) (base : string)
      (set_url : A -> A) (sub : string -> option (A -> A))
      (entries result : list A) (parts : list string) :
  2 <= length parts ->
  handle_entries zero base set_url sub entries parts = Some result ->
  result = [] <-> entries = [] /\ Nat.eqb (length parts) 2 = false.
Proof.
  intros Hlen H.
  destruct (handle_entries_Some _ _ _ _ _ _ _ Hlen H)
    as (Hl & _ & Hgrow & _).
  rewrite Nat.eqb_neq. split.
  - intros ->. cbn in Hl, Hgrow.
    destruct entries as [|e entries]; [|cbn in Hl; destruct Hl; lia].
    split; [reflexivity|]. intros Hp.
    assert (0 = 1) by (apply Hgrow; auto). lia.
  - intros (-> & Hp). cbn in Hl, Hgrow.
    destruct result as [|r result]; [reflexivity|].
    destruct Hl as [Hl|Hl]; [discriminate|].
    apply Hgrow in Hl as (Hl & _). contradiction.
Qed.

(** A group of entries stays empty under one tag exactly when the tag does
    not open an entry. *)
Lemma group_step {A X : Type} (parse : X -> string -> string -> option X)
      (list_of : X -> list A) (base : string) (zero : A) (b : string)
      (set_url : string -> A -> A)
      (sub : string -> string -> option (A -> A))
      (k : X -> list A -> X) :
  1 <= count_byte ":" base ->
  (forall x p c x',
      parse x p c = Some x' ->
      strings.HasPrefix p base = false -> list_of x' = list_of x) ->
  (forall x p c,
      strings.HasPrefix p base = true ->
      parse x p c =
      l ← handle_entries zero b (set_url c) (sub c) (list_of x)
            (strings_Split p ":");
      Some (k x l)) ->
  (forall x l, list_of (k x l) = l) ->
  forall x p c x',
    parse x p c = Some x' ->
    list_of x' = [] <-> list_of x = [] /\ opens base p = false.
Proof.
  intros Hbase Hother Hgroup Hk x p c x' H. unfold opens.
  destruct (strings.HasPrefix p base) eqn:Hp; cbn.
  - rewrite (Hgroup _ _ _ Hp) in H.
    destruct (handle_entries _ _ _ _ _ _) as [l|] eqn:Hh; [|discriminate].
    cbn in H. inversion H. subst x'. rewrite Hk.
    apply (handle_entries_empty _ _ _ _ _ _ _
             (prefix_two_parts _ _ Hp Hbase) Hh).
  - rewrite (Hother _ _ _ _ H Hp). split; [auto | now intros (? & _)].
Qed.

(** A group of entries is empty after a run exactly when it was empty
    before and no tag of the run opens an entry. *)
Lemma group_stays_empty {A X : Type}
      (parse : X -> string -> string -> option X) (list_of : X -> list A)
      (base : string) :
  (forall x p c x',
      parse x p c = Some x' ->
      list_of x' = [] <-> list_of x = [] /\ opens base p = false) ->
  forall tags x x',
    run_tags parse tags x = Some x' ->
    list_of x' = [] <->
    list_of x = [] /\ Forall (fun tag => opens base (fst tag) = false) tags.
Proof.
  intros Hstep tags.
  induction tags as [|[p c] rest IH]; intros x x' H.
  - inversion H. subst x'. split; [auto | now intros (? & _)].
  - apply run_tags_cons in H as (x1 & H1 & H2).
    rewrite (IH _ _ H2), (Hstep _ _ _ _ H1), Forall_cons. cbn.
    split; [intros ((? & ?) & ?) | intros (? & ? & ?)]; auto.
Qed.

Lemma xcards_image_step (xc : XCards.t Time) (p c : string)
      (xc' : XCards.t Time) :
  parseXCardsMetaTag xc p c = Some xc' ->
  XCards.XCardsImage xc' = [] <->
  XCards.XCardsImage xc = [] /\ opens "twitter:image" p = false.
Proof.
  apply (group_step parseXCardsMetaTag XCards.XCardsImage "twitter:image"
           XCardsImage.zero "image" XCardsImage.set_URL image_sub
           (fun xc l => XCards.set_XCardsImage l xc)).
  - cbn. lia.
  - intros x q d x' H. now apply parseXCardsMetaTag_effect in H.
  - intros x q d H.
    now rewrite (parseXCardsMetaTag_image _ _ _ H),
      handleXCardsImageProperty_entries.
  - now intros [].
Qed.

Lemma xcards_video_step (xc : XCards.t Time) (p c : string)
      (xc' : XCards.t Time) :
  parseXCardsMetaTag xc p c = Some xc' ->
  XCards.XCardsVideo xc' = [] <->
  XCards.XCardsVideo xc = [] /\ opens "twitter:video" p = false.
Proof.
  apply (group_step parseXCardsMetaTag XCards.XCardsVideo "twitter:video"
           XCardsVideo.zero "video" XCardsVideo.set_URL video_sub
           (fun xc l => XCards.set_XCardsVideo l xc)).
  - cbn. lia.
  - intros x q d x' H. now apply parseXCardsMetaTag_effect in H.
  - intros x q d H.
    now rewrite (parseXCardsMetaTag_video _ _ _ H),
      handleXCardsVideoProperty_entries.
  - now intros [].
Qed.

Lemma xcards_audio_step (xc : XCards.t Time) (p c : string)
      (xc' : XCards.t Time) :
  parseXCardsMetaTag xc p c = Some xc' ->
  XCards.XCardsAudio xc' = [] <->
  XCards.XCardsAudio xc = [] /\ opens "twitter:audio" p = false.
Proof.
  apply (group_step parseXCardsMetaTag XCards.XCardsAudio "twitter:audio"
           XCardsAudio.zero "audio" XCardsAudio.set_URL audio_sub
           (fun xc l => XCards.set_XCardsAudio l xc)).
  - cbn. lia.
  - intros x q d x' H. now apply parseXCardsMetaTag_effect in H.
  - intros x q d H.
    now rewrite (parseXCardsMetaTag_audio _ _ _ H),
      handleXCardsAudioProperty_entries.
  - now intros [].
Qed.

Lemma xcards_song_step (xc : XCards.t Time) (p c : string)
      (xc' : XCards.t Time) :
  parseXCardsMetaTag xc p c = Some xc' ->
  songs_of (XCards.Music xc') = [] <->
  songs_of (XCards.Music xc) = [] /\ opens "music:song" p = false.
Proof.
  apply (group_step parseXCardsMetaTag (fun xc => songs_of (XCards.Music xc))
           "music:song" MusicSong.zero "song" MusicSong.set_URL song_sub
           (fun xc l =>
              XCards.set_Music
                (Some (Music.set_Song l
                         (default Music.zero (XCards.Music xc)))) xc)).
  - cbn. lia.
  - intros x q d x' H. now apply parseXCardsMetaTag_effect in H.
  - intros x q d H. now rewrite (parseXCardsMetaTag_song _ _ _ H).
  - now intros [].
Qed.

Lemma xcards_actor_step (xc : XCards.t Time) (p c : string)
      (xc' : XCards.t Time) :
  parseXCardsMetaTag xc p c = Some xc' ->
  actors_of (XCards.Video xc') = [] <->
  actors_of (XCards.Video xc) = [] /\ opens "video:actor" p = false.
Proof.
  apply (group_step parseXCardsMetaTag
           (fun xc => actors_of (XCards.Video xc))
           "video:actor" VideoActor.zero "actor" VideoActor.set_URL actor_sub
           (fun xc l =>
              XCards.set_Video
                (Some (Video.set_Actor l
                         (default (Video.zero zero_Time) (XCards.Video xc))))
                xc)).
  - cbn. lia.
  - intros x q d x' H. now apply parseXCardsMetaTag_effect in H.
  - intros x q d H. now rewrite (parseXCardsMetaTag_actor _ _ _ H).
  - now intros [].
Qed.

(** A run of [parseXCardsMetaTag] panics exactly when some tag assigns a
    key of a group that has no entry when the tag arrives. *)
Lemma xcards_run_panics (tags : list (string * string)) (xc : XCards.t Time) :
  run_tags parseXCardsMetaTag tags xc = None <->
  exists pre property content post,
    tags = (pre ++ (property, content) :: post)%list
    /\ ((XCards.XCardsImage xc = []
         /\ unopened "twitter:image"
              ["secure_url"; "type"; "width"; "height"; "alt"] pre property)
        \/ (XCards.XCardsVideo xc = []
            /\ unopened "twitter:video"
                 ["secure_url"; "type"; "width"; "height"] pre property)
        \/ (XCards.XCardsAudio xc = []
            /\ unopened "twitter:audio" ["secure_url"; "type"] pre property)
        \/ (songs_of (XCards.Music xc) = []
            /\ unopened "music:song" ["disc"; "track"] pre property)
        \/ (actors_of (XCards.Video xc) = []
            /\ unopened "video:actor" ["role"] pre property)).
Proof.
  split.
  - intros H. apply run_tags_None in H
      as (pre & p & c & post & x1 & -> & Hrun & Hp).
    exists pre, p, c, post. split; [reflexivity|].
    apply parseXCardsMetaTag_None in Hp.
    destruct Hp as [(Hp & Hl & Hk)|[(Hp & Hl & Hk)|[(Hp & Hl & Hk)
                   |[(Hp & Hl & Hk)|(Hp & Hl & Hk)]]]];
      [ apply (group_stays_empty _ _ _ xcards_image_step _ _ _ Hrun) in Hl
      | apply (group_stays_empty _ _ _ xcards_video_step _ _ _ Hrun) in Hl
      | apply (group_stays_empty _ _ _ xcards_audio_step _ _ _ Hrun) in Hl
      | apply (group_stays_empty _ (fun x => songs_of (XCards.Music x)) _
                 xcards_song_step _ _ _ Hrun) in Hl
      | apply (group_stays_empty _ (fun x => actors_of (XCards.Video x)) _
                 xcards_actor_step _ _ _ Hrun) in Hl ];
      destruct Hl as (Hl & Hall); unfold unopened; auto 10.
  - intros (pre & p & c & post & -> & Hcases).
    rewrite run_tags_app.
    destruct (run_tags parseXCardsMetaTag pre xc) as [x1|] eqn:Hrun;
      [|reflexivity].
    cbn. enough (parseXCardsMetaTag x1 p c = None) as -> by reflexivity.
    apply parseXCardsMetaTag_None.
    destruct Hcases as [(Hl & Hp & Hk & Hall)|[(Hl & Hp & Hk & Hall)
                       |[(Hl & Hp & Hk & Hall)|[(Hl & Hp & Hk & Hall)
                       |(Hl & Hp & Hk & Hall)]]]];
      [ left | right; left | right; right; left
      | right; right; right; left | right; right; right; right ];
      (split; [exact Hp|]); (split; [|exact Hk]);
      [ apply (group_stays_empty _ _ _ xcards_image_step _ _ _ Hrun)
      | apply (group_stays_empty _ _ _ xcards_video_step _ _ _ Hrun)
      | apply (group_stays_empty _ _ _ xcards_audio_step _ _ _ Hrun)
      | apply (group_stays_empty _ (fun x => songs_of (XCards.Music x)) _
                 xcards_song_step _ _ _ Hrun)
      | apply (group_stays_empty _ (fun x => actors_of (XCards.Video x)) _
                 xcards_actor_step _ _ _ Hrun) ];
      auto.
Qed.

(** X19.  [extractXCards] panics exactly on a document in which some
    accepted tag assigns a key of a group of structured properties (say
    [twitter:image:width], or [music:song:disc]) while no earlier accepted
    tag has opened an entry of that group; a tag opens an entry when its
    name begins with the name of the group and has two parts (say
    [twitter:image]). *)
Theorem extractXCards_panics (htmlContent : string) :
  extractXCards htmlContent = None <->
  exists pre property content post,
    accepted_tags "name" (html_Tokenize htmlContent) =
    (pre ++ (property, content) :: post)%list
    /\ (unopened "twitter:image"
          ["secure_url"; "type"; "width"; "height"; "alt"] pre property
        \/ unopened "twitter:video"
             ["secure_url"; "type"; "width"; "height"] pre property
        \/ unopened "twitter:audio" ["secure_url"; "type"] pre property
        \/ unopened "music:song" ["disc"; "track"] pre property
        \/ unopened "video:actor" ["role"] pre property).
Proof.
  unfold extractXCards. rewrite extractXCards_loop_run.
  transitivity (run_tags parseXCardsMetaTag
                  (accepted_tags "name" (html_Tokenize htmlContent))
                  NewXCards = None).
  { destruct (run_tags _ _ _) as [xc|]; cbn; [|split; reflexivity].
    destruct (accepted_tags _ _); split; discriminate. }
  rewrite xcards_run_panics. split.
  - intros (pre & p & c & post & E & Hcases).
    exists pre, p, c, post. split; [exact E|].
    destruct Hcases as [(_ & H)|[(_ & H)|[(_ & H)|[(_ & H)|(_ & H)]]]];
      auto 10.
  - intros (pre & p & c & post & E & Hcases).
    exists pre, p, c, post. split; [exact E|].
    destruct Hcases as [H|[H|[H|[H|H]]]];
      [ left | right; left | right; right; left
      | right; right; right; left | right; right; right; right ];
      (split; [reflexivity | exact H]).
Qed.

Lemma opengraph_image_step (og : OpenGraph.t Time) (p c : string)
      (og' : OpenGraph.t Time) :
  parseOpenGraphMetaTag og p c = Some og' ->
  OpenGraph.OpenGraphImage og' = [] <->
  OpenGraph.OpenGraphImage og = [] /\ opens "og:image" p = false.
Proof.
  apply (group_step parseOpenGraphMetaTag OpenGraph.OpenGraphImage "og:image"
           OpenGraphImage.zero "image" OpenGraphImage.set_URL og_image_sub
           (fun og l => OpenGraph.set_OpenGraphImage l og)).
  - cbn. lia.
  - intros x q d x' H. now apply parseOpenGraphMetaTag_effect in H.
  - intros x q d H.
    now rewrite (parseOpenGraphMetaTag_image _ _ _ H),
      handleOpenGraphImageProperty_entries.
  - now intros [].
Qed.

Lemma opengraph_video_step (og : OpenGraph.t Time) (p c : string)
      (og' : OpenGraph.t Time) :
  parseOpenGraphMetaTag og p c = Some og' ->
  OpenGraph.OpenGraphVideo og' = [] <->
  OpenGraph.OpenGraphVideo og = [] /\ opens "og:video" p = false.
Proof.
  apply (group_step parseOpenGraphMetaTag OpenGraph.OpenGraphVideo "og:video"
           OpenGraphVideo.zero "video" OpenGraphVideo.set_URL og_video_sub
           (fun og l => OpenGraph.set_OpenGraphVideo l og)).
  - cbn. lia.
  - intros x q d x' H. now apply parseOpenGraphMetaTag_effect in H.
  - intros x q d H.
    now rewrite (parseOpenGraphMetaTag_video _ _ _ H),
      handleOpenGraphVideoProperty_entries.
  - now intros [].
Qed.

Lemma opengraph_audio_step (og : OpenGraph.t Time) (p c : string)
      (og' : OpenGraph.t Time) :
  parseOpenGraphMetaTag og p c = Some og' ->
  OpenGraph.OpenGraphAudio og' = [] <->
  OpenGraph.OpenGraphAudio og = [] /\ opens "og:audio" p = false.
Proof.
  apply (group_step parseOpenGraphMetaTag OpenGraph.OpenGraphAudio "og:audio"
           OpenGraphAudio.zero "audio" OpenGraphAudio.set_URL og_audio_sub
           (fun og l => OpenGraph.set_OpenGraphAudio l og)).
  - cbn. lia.
  - intros x q d x' H. now apply parseOpenGraphMetaTag_effect in H.
  - intros x q d H.
    now rewrite (parseOpenGraphMetaTag_audio _ _ _ H),
      handleOpenGraphAudioProperty_entries.
  - now intros [].
Qed.

Lemma opengraph_song_step (og : OpenGraph.t Time) (p c : string)
      (og' : OpenGraph.t Time) :
  parseOpenGraphMetaTag og p c = Some og' ->
  songs_of (OpenGraph.Music og') = [] <->
  songs_of (OpenGraph.Music og) = [] /\ opens "music:song" p = false.
Proof.
  apply (group_step parseOpenGraphMetaTag
           (fun og => songs_of (OpenGraph.Music og))
           "music:song" MusicSong.zero "song" MusicSong.set_URL song_sub
           (fun og l =>
              OpenGraph.set_Music
                (Some (Music.set_Song l
                         (default Music.zero (OpenGraph.Music og)))) og)).
  - cbn. lia.
  - intros x q d x' H. now apply parseOpenGraphMetaTag_effect in H.
  - intros x q d H. now rewrite (parseOpenGraphMetaTag_song _ _ _ H).
  - now intros [].
Qed.

Lemma opengraph_actor_step (og : OpenGraph.t Time) (p c : string)
      (og' : OpenGraph.t Time) :
  parseOpenGraphMetaTag og p c = Some og' ->
  actors_of (OpenGraph.Video og') = [] <->
  actors_of (OpenGraph.Video og) = [] /\ opens "video:actor" p = false.
Proof.
  apply (group_step parseOpenGraphMetaTag
           (fun og => actors_of (OpenGraph.Video og))
           "video:actor" VideoActor.zero "actor" VideoActor.set_URL actor_sub
           (fun og l =>
              OpenGraph.set_Video
                (Some (Video.set_Actor l
                         (default (Video.zero zero_Time)
                            (OpenGraph.Video og))))
                og)).
  - cbn. lia.
  - intros x q d x' H. now apply parseOpenGraphMetaTag_effect in H.
  - intros x q d H. now rewrite (parseOpenGraphMetaTag_actor _ _ _ H).
  - now intros [].
Qed.

(** A run of [parseOpenGraphMetaTag] panics exactly when some tag assigns a
    key of a group that has no entry when the tag arrives. *)
Lemma opengraph_run_panics (tags : list (string * string)) (og : OpenGraph.t Time) :
  run_tags parseOpenGraphMetaTag tags og = None <->
  exists pre property content post,
    tags = (pre ++ (property, content) :: post)%list
    /\ ((OpenGraph.OpenGraphImage og = []
         /\ unopened "og:image"
              ["secure_url"; "type"; "width"; "height"; "alt"] pre property)
        \/ (OpenGraph.OpenGraphVideo og = []
            /\ unopened "og:video"
                 ["secure_url"; "type"; "width"; "height"] pre property)
        \/ (OpenGraph.OpenGraphAudio og = []
            /\ unopened "og:audio" ["secure_url"; "type"] pre property)
        \/ (songs_of (OpenGraph.Music og) = []
            /\ unopened "music:song" ["disc"; "track"] pre property)
        \/ (actors_of (OpenGraph.Video og) = []
            /\ unopened "video:actor" ["role"] pre property)).
Proof.
  split.
  - intros H. apply run_tags_None in H
      as (pre & p & c & post & x1 & -> & Hrun & Hp).
    exists pre, p, c, post. split; [reflexivity|].
    apply parseOpenGraphMetaTag_None in Hp.
    destruct Hp as [(Hp & Hl & Hk)|[(Hp & Hl & Hk)|[(Hp & Hl & Hk)
                   |[(Hp & Hl & Hk)|(Hp & Hl & Hk)]]]];
      [ apply (group_stays_empty _ _ _ opengraph_image_step _ _ _ Hrun) in Hl
      | apply (group_stays_empty _ _ _ opengraph_video_step _ _ _ Hrun) in Hl
      | apply (group_stays_empty _ _ _ opengraph_audio_step _ _ _ Hrun) in Hl
      | apply (group_stays_empty _ (fun x => songs_of (OpenGraph.Music x)) _
                 opengraph_song_step _ _ _ Hrun) in Hl
      | apply (group_stays_empty _ (fun x => actors_of (OpenGraph.Video x)) _
                 opengraph_actor_step _ _ _ Hrun) in Hl ];
      destruct Hl as (Hl & Hall); unfold unopened; auto 10.
  - intros (pre & p & c & post & -> & Hcases).
    rewrite run_tags_app.
    destruct (run_tags parseOpenGraphMetaTag pre og) as [x1|] eqn:Hrun;
      [|reflexivity].
    cbn. enough (parseOpenGraphMetaTag x1 p c = None) as -> by reflexivity.
    apply parseOpenGraphMetaTag_None.
    destruct Hcases as [(Hl & Hp & Hk & Hall)|[(Hl & Hp & Hk & Hall)
                       |[(Hl & Hp & Hk & Hall)|[(Hl & Hp & Hk & Hall)
                       |(Hl & Hp & Hk & Hall)]]]];
      [ left | right; left | right; right; left
      | right; right; right; left | right; right; right; right ];
      (split; [exact Hp|]); (split; [|exact Hk]);
      [ apply (group_stays_empty _ _ _ opengraph_image_step _ _ _ Hrun)
      | apply (group_stays_empty _ _ _ opengraph_video_step _ _ _ Hrun)
      | apply (group_stays_empty _ _ _ opengraph_audio_step _ _ _ Hrun)
      | apply (group_stays_empty _ (fun x => songs_of (OpenGraph.Music x)) _
                 opengraph_song_step _ _ _ Hrun)
      | apply (group_stays_empty _ (fun x => actors_of (OpenGraph.Video x)) _
                 opengraph_actor_step _ _ _ Hrun) ];
      auto.
Qed.

(** X20.  [extractOpenGraph] panics exactly on a document in which some
    accepted tag assigns a key of a group of structured properties (say
    [og:image:width], or [music:song:disc]) while no earlier accepted
    tag has opened an entry of that group; a tag opens an entry when its
    name begins with the name of the group and has two parts (say
    [og:image]). *)
Theorem extractOpenGraph_panics (htmlContent : string) :
  extractOpenGraph htmlContent = None <->
  exists pre property content post,
    accepted_tags "property" (html_Tokenize htmlContent) =
    (pre ++ (property, content) :: post)%list
    /\ (unopened "og:image"
          ["secure_url"; "type"; "width"; "height"; "alt"] pre property
        \/ unopened "og:video"
             ["secure_url"; "type"; "width"; "height"] pre property
        \/ unopened "og:audio" ["secure_url"; "type"] pre property
        \/ unopened "music:song" ["disc"; "track"] pre property
        \/ unopened "video:actor" ["role"] pre property).
Proof.
  unfold extractOpenGraph. rewrite extractOpenGraph_loop_run.
  transitivity (run_tags parseOpenGraphMetaTag
                  (accepted_tags "property" (html_Tokenize htmlContent))
                  NewOpenGraph = None).
  { destruct (run_tags _ _ _) as [og|]; cbn; [|split; reflexivity].
    destruct (accepted_tags _ _); split; discriminate. }
  rewrite opengraph_run_panics. split.
  - intros (pre & p & c & post & E & Hcases).
    exists pre, p, c, post. split; [exact E|].
    destruct Hcases as [(_ & H)|[(_ & H)|[(_ & H)|[(_ & H)|(_ & H)]]]];
      auto 10.
  - intros (pre & p & c & post & E & Hcases).
    exists pre, p, c, post. split; [exact E|].
    destruct Hcases as [H|[H|[H|[H|H]]]];
      [ left | right; left | right; right; left
      | right; right; right; left | right; right; right; right ];
      (split; [reflexivity | exact H]).
Qed.

End Extractor.

(** ** The theorems at concrete documents *)


Lemma nested_item_bound_once_witness :
  scanned person_item address_div
  /\ item_property_element address_div "address"
  /\ holds
       (Properties
          (parseProperties plain_url_Parse person_item (mkItem "" None ∅)
             "http://host.example/") !! "address")
       (VItem (mkItem "" None {["city" := VString "Paris"]})).
Proof.
  assert (H1 : scanned person_item address_div)
    by (apply scanned_child; simpl; auto).
  assert (H2 : item_property_element address_div "address")
    by (repeat split; try reflexivity; discriminate).
  split; [exact H1|]. split; [exact H2|].
  exact (proj1 (nested_item_bound_once plain_url_Parse "http://host.example/"
                  person_item address_div "address" "" None H1 H2)).
Defined.


Lemma item_id_presence_witness :
  html.Type_ book_item = ElementNode
  /\ getAttr book_item "itemscope" = true
  /\ ID (parseProperties plain_url_Parse book_item (newItem book_item)
           "http://host.example/") = Some "urn:isbn:0-374-22848-5".
Proof.
  split; [reflexivity|]. split; [reflexivity|].
  destruct (item_id_presence plain_url_Parse "http://host.example/" book_item
              eq_refl eq_refl) as (_ & _ & H & _).
  rewrite H. reflexivity.
Defined.


Lemma no_itemscope_no_items_witness :
  hasItemscope plain_page = false
  /\ W3CMicrodata plain_url_Parse (fun _ => plain_page)
       "http://host.example/" "hello" = ([], []).
Proof.
  split; [reflexivity|].
  apply (proj1 (no_itemscope_no_items plain_url_Parse (fun _ => plain_page))).
  reflexivity.
Defined.

(** Two calls in a row on the same page: the results of the second call
    lie at other addresses than those of the first. *)
Example two_calls_allocate_apart :
  exists h1 h2,
    W3CMicrodata_heap plain_url_Parse (fun _ => organization_page)
      "http://host.example/" "organization" ∅ =
    Some ([heap.mkItem "http://schema.org/Organization" (Some 3%positive)
             1%positive], [], h1)
    /\ W3CMicrodata_heap plain_url_Parse (fun _ => organization_page)
         "http://host.example/" "organization" h1 =
       Some ([heap.mkItem "http://schema.org/Organization" (Some 9%positive)
                7%positive], [], h2).
Proof. eexists. eexists. split; vm_compute; reflexivity. Qed.

(** The second call starts in the heap that the first call left: the
    results of both calls are then read, in the last heap, as the same
    values. *)
Lemma W3CMicrodata_deterministic_witness :
  exists results1 h1 results2 h2,
    W3CMicrodata_heap plain_url_Parse (fun _ => organization_page)
      "http://host.example/" "organization" ∅ = Some (results1, [], h1)
    /\ W3CMicrodata_heap plain_url_Parse (fun _ => organization_page)
         "http://host.example/" "organization" h1 = Some (results2, [], h2)
    /\ deep_equal h2 results1 h2 results2.
Proof.
  pose (h :=
          match W3CMicrodata_heap plain_url_Parse (fun _ => organization_page)
                  "http://host.example/" "organization" ∅ with
          | Some (_, _, h) => h
          | None => ∅
          end).
  destruct (W3CMicrodata_deterministic plain_url_Parse
              (fun _ => organization_page) "http://host.example/"
              "organization" ∅ h)
    as (results1 & h1 & results2 & h2 & E1 & E2 & _ & _ & _ & _ & _ & H).
  assert (Eh : h = h1) by (unfold h; rewrite E1; reflexivity).
  exists results1, h1, results2, h2.
  split; [exact E1|]. split; [rewrite <- Eh; exact E2|]. exact (H Eh).
Defined.



(** The whole extraction on two pages. *)
Example color_page_extraction :
  W3CMicrodata plain_url_Parse (fun _ => color_page)
    "http://host.example/" "colors" =
  ([mkItem "" None {["color" := VSlice [VString "yellow"; VString "green"]]}],
   []).
Proof. reflexivity. Qed.

Example organization_page_extraction :
  W3CMicrodata plain_url_Parse (fun _ => organization_page)
    "http://host.example/" "organization" =
  ([mkItem "http://schema.org/Organization" (Some "http://example.com/org/1")
      (<["name" := VString "Example Organization"]>
         {["employee" :=
             VItem (mkItem "http://schema.org/Person"
                      (Some "http://example.com/person/1")
                      {["name" := VString "John Doe"]})]})],
   []).
Proof. reflexivity. Qed.

(** ** Where the code departs from the text of the specification *)

(** Against C2 as stated: a nested item below a property element that is
    not an item lies inside the subtree of the enclosing item, and is
    bound nowhere. *)
Lemma nested_item_below_property_is_dropped :
  In address_div (preorder wrapped_person_item)
  /\ item_property_element address_div "address"
  /\ parseNode plain_url_Parse "http://host.example/"
       (document [wrapped_person_item]) [] =
     [mkItem "" None {["contact" := VString "Ada"]}]
  /\ Properties
       (parseProperties plain_url_Parse wrapped_person_item
          (newItem wrapped_person_item) "http://host.example/")
       !! "address" = None.
Proof.
  split; [simpl; auto|].
  split; [repeat split; try reflexivity; discriminate|].
  split; reflexivity.
Qed.



(** Against C4 as stated: an [itemid] attribute that is present and
    empty gives an item without [id], as if the attribute were absent. *)
Lemma empty_itemid_gives_no_id :
  html.Type_ empty_id_item = ElementNode
  /\ getAttr empty_id_item "itemscope" = true
  /\ lookupAttr empty_id_item "itemid" = Some ""
  /\ parseNode plain_url_Parse "http://host.example/"
       (document [empty_id_item]) [] = [mkItem "" None ∅].
Proof. repeat split. Qed.



(** ** The base URL and the properties it can influence *)

Lemma url_free_propertyValue (parse1 parse2 : string -> option url.URL)
      (URL1 URL2 : string) c :
  url_rule (getAttrVal c "itemprop") = false ->
  propertyValue parse1 URL1 c (getAttrVal c "itemprop") =
  propertyValue parse2 URL2 c (getAttrVal c "itemprop").
Proof.
  intros H. unfold propertyValue. unfold url_rule in H. now rewrite H.
Qed.

Lemma url_free_parseProperties (parse1 parse2 : string -> option url.URL)
      (URL1 URL2 : string) (n : Node) :
  forallb url_free (Children n) = true ->
  forall item,
    parseProperties parse1 n item URL1 = parseProperties parse2 n item URL2.
Proof.
  induction n as [t data attrs children IH] using Node_tree_ind.
  simpl. intros Hfree item. revert item Hfree.
  induction IH as [|c cs Hc _ IHcs]; intros item Hfree; [reflexivity|].
  simpl in Hfree. apply andb_true_iff in Hfree as [Hcf Hcsf].
  change (fold_left ?f (c :: cs) item) with (fold_left f cs (f item c)).
  assert (Hkids : forallb url_free (Children c) = true).
  { destruct c as [tc dc ac cc]. simpl in Hcf.
    now apply andb_true_iff in Hcf. }
  assert (Hname : url_rule (getAttrVal c "itemprop") = false).
  { destruct c as [tc dc ac cc]. simpl in Hcf.
    apply andb_true_iff in Hcf as [Hn _]. now apply negb_true_iff in Hn. }
  assert (Hstep :
            visit_child parse1 URL1 item c = visit_child parse2 URL2 item c).
  { unfold visit_child.
    rewrite (url_free_propertyValue parse1 parse2 URL1 URL2 c Hname).
    now rewrite !(Hc Hkids). }
  unfold visit_child in Hstep. unfold propertyValue, newItem in Hstep.
  rewrite <- (IHcs _ Hcsf). f_equal. exact Hstep.
Qed.

(** X3. The base URL matters only to properties that fall under the URL
    rule: on a document in which no element declares a property named
    [url] or ending in [Url], the extraction returns the same result for
    every base URL, whatever [url.Parse] makes of it. *)
Theorem base_url_only_matters_to_url_properties
        (parse1 parse2 : string -> option url.URL)
        (html_Parse : string -> Node) (URL1 URL2 htmlContent : string) :
  url_free (html_Parse htmlContent) = true ->
  W3CMicrodata parse1 html_Parse URL1 htmlContent =
  W3CMicrodata parse2 html_Parse URL2 htmlContent.
Proof.
  intros Hfree. rewrite !W3CMicrodata_items. f_equal.
  rewrite !parseNode_scope_roots. simpl. revert Hfree.
  generalize (html_Parse htmlContent) as doc.
  induction doc as [t data attrs children IH] using Node_tree_ind.
  intros Hfree. simpl in Hfree. apply andb_true_iff in Hfree as [_ Hkids].
  change (scope_roots (mkNode t data attrs children))
    with (if NodeType_eqb t ElementNode
             && getAttr (mkNode t data attrs children) "itemscope"
          then [mkNode t data attrs children]
          else flat_map scope_roots children).
  destruct (NodeType_eqb t ElementNode && _).
  - cbn [map]. f_equal. now apply url_free_parseProperties.
  - induction IH as [|c cs Hc _ IHcs]; [reflexivity|].
    cbn [flat_map].
    simpl in Hkids. apply andb_true_iff in Hkids as [Hcf Hcsf].
    rewrite !map_app. f_equal; [now apply Hc | now apply IHcs].
Qed.

(** ** The configuration of the extractor *)

Lemma index_loop_spec {E : Type} `{EqDecision E} (s : list E) (v : E) :
  forall i,
    (~ In v s -> extract.index_loop i s v = (-1)%Z)
    /\ (In v s ->
        exists k, extract.index_loop i s v = (i + Z.of_nat k)%Z
                  /\ s !! k = Some v
                  /\ forall j, (j < k)%nat -> s !! j <> Some v).
Proof.
  induction s as [|x rest IH]; intros i; simpl.
  - split; [reflexivity | intros []].
  - destruct (decide (v = x)) as [->|Hne].
    + split; [intros Hn; elim Hn; now left|].
      intros _. exists 0%nat. split; [lia|]. split; [reflexivity|].
      intros j Hj. lia.
    + destruct (IH (i + 1)%Z) as [Habs Hpres]. split.
      * intros Hn. apply Habs. intros Hin. apply Hn. now right.
      * intros [Heq|Hin]; [congruence|].
        destruct (Hpres Hin) as (k & Hk & Hl & Hfirst).
        exists (S k). split; [lia|]. split; [exact Hl|].
        intros [|j] Hj; simpl; [congruence|]. apply Hfirst. lia.
Qed.

(** X7. [index] returns the position of the first occurrence of the
    value and -1 exactly when the value does not occur; [contains] holds
    exactly for the values that occur. *)
Theorem index_first_occurrence {E : Type} `{EqDecision E} (s : list E)
        (v : E) :
  (extract.index s v = (-1)%Z <-> ~ In v s)
  /\ (In v s ->
      exists k, extract.index s v = Z.of_nat k
                /\ s !! k = Some v
                /\ forall j, (j < k)%nat -> s !! j <> Some v)
  /\ (extract.contains s v = true <-> In v s).
Proof.
  unfold extract.contains, extract.index.
  destruct (index_loop_spec s v 0%Z) as [Habs Hpres].
  assert (Hdec : In v s \/ ~ In v s).
  { destruct (decide (v ∈ s)) as [Hin|Hn].
    - left. now apply list_elem_of_In.
    - right. intros Hin. apply Hn. now apply list_elem_of_In. }
  split; [|split].
  - split; [|exact Habs].
    intros Hm Hin. destruct (Hpres Hin) as (k & Hk & _). lia.
  - intros Hin. destruct (Hpres Hin) as (k & Hk & Hrest).
    exists k. split; [lia | exact Hrest].
  - split.
    + intros Hge. destruct Hdec as [Hin|Hn]; [exact Hin|].
      rewrite (Habs Hn) in Hge. discriminate.
    + intros Hin. destruct (Hpres Hin) as (k & Hk & _). rewrite Hk.
      apply Z.geb_le. lia.
Qed.

Lemma SetSyntaxes_loop (l : list string) :
  forall acc,
    fold_left
      (fun syntaxesToSet syntax =>
         if extract.contains extract.SYNTAXES syntax
         then (syntaxesToSet ++ [syntax])%list
         else syntaxesToSet) l acc =
    (acc ++ List.filter (extract.contains extract.SYNTAXES) l)%list.
Proof.
  induction l as [|x l IH]; intros acc; simpl.
  - now rewrite app_nil_r.
  - rewrite IH. destruct (extract.contains extract.SYNTAXES x).
    + now rewrite <- app_assoc.
    + reflexivity.
Qed.

Lemma filter_filter_same {A : Type} (f : A -> bool) (l : list A) :
  List.filter f (List.filter f l) = List.filter f l.
Proof.
  induction l as [|x l IH]; simpl; [reflexivity|].
  destruct (f x) eqn:E; simpl; [now rewrite E, IH | exact IH].
Qed.

(** X8. [SetSyntaxes] keeps, in their order and with their repetitions,
    the requested syntaxes that are supported; when none is supported
    (or none is requested) it leaves the configuration as it was.  It
    changes nothing else, and setting the same list twice is setting it
    once. *)
Theorem SetSyntaxes_keeps_supported {R : Type} (e : extract.Extractor R)
        (l : list string) :
  extract.syntaxes (extract.cfg (extract.SetSyntaxes e l)) =
    match List.filter (extract.contains extract.SYNTAXES) l with
    | [] => extract.syntaxes (extract.cfg e)
    | kept => kept
    end
  /\ extract.userAgent (extract.cfg (extract.SetSyntaxes e l)) =
     extract.userAgent (extract.cfg e)
  /\ extract.fetchTimeout (extract.cfg (extract.SetSyntaxes e l)) =
     extract.fetchTimeout (extract.cfg e)
  /\ extract.url (extract.SetSyntaxes e l) = extract.url e
  /\ extract.content (extract.SetSyntaxes e l) = extract.content e
  /\ extract.extracted (extract.SetSyntaxes e l) = extract.extracted e
  /\ extract.errs (extract.SetSyntaxes e l) = extract.errs e
  /\ extract.SetSyntaxes (extract.SetSyntaxes e l) l =
     extract.SetSyntaxes e l.
Proof.
  assert (Hunf : extract.SetSyntaxes e l =
    match List.filter (extract.contains extract.SYNTAXES) l with
    | [] => e
    | kept =>
        extract.mkExtractor R
          (extract.mkConfig kept (extract.userAgent (extract.cfg e))
             (extract.fetchTimeout (extract.cfg e)))
          (extract.url e) (extract.content e) (extract.extracted e)
          (extract.errs e)
    end).
  { unfold extract.SetSyntaxes. rewrite SetSyntaxes_loop. simpl.
    destruct l as [|x l]; [reflexivity|].
    change (Nat.eqb (length (x :: l)) 0) with false. cbv iota.
    now destruct (List.filter _ (x :: l)). }
  assert (Hunf' : forall e' : extract.Extractor R, extract.SetSyntaxes e' l =
    match List.filter (extract.contains extract.SYNTAXES) l with
    | [] => e'
    | kept =>
        extract.mkExtractor R
          (extract.mkConfig kept (extract.userAgent (extract.cfg e'))
             (extract.fetchTimeout (extract.cfg e')))
          (extract.url e') (extract.content e') (extract.extracted e')
          (extract.errs e')
    end).
  { intros e'. unfold extract.SetSyntaxes. rewrite SetSyntaxes_loop. simpl.
    destruct l as [|x l']; [reflexivity|].
    change (Nat.eqb (length (x :: l')) 0) with false. cbv iota.
    now destruct (List.filter _ (x :: l')). }
  rewrite (Hunf' (extract.SetSyntaxes e l)), Hunf.
  destruct (List.filter (extract.contains extract.SYNTAXES) l);
    repeat split.
Qed.

(** X9. Whatever setters are called on a new extractor, its list of
    syntaxes is never empty and holds supported syntaxes only. *)
Theorem configured_syntaxes_supported {R : Type} (e : extract.Extractor R) :
  extract.configured e ->
  extract.syntaxes (extract.cfg e) <> []
  /\ Forall (fun x => In x extract.SYNTAXES)
            (extract.syntaxes (extract.cfg e)).
Proof.
  induction 1 as [|e l _ [Hne Hall]|e ua _ IH|e t _ IH];
    try exact IH.
  - split; [discriminate|]. apply Forall_forall.
    intros x Hx. now apply list_elem_of_In in Hx.
  - destruct (SetSyntaxes_keeps_supported e l) as (Hs & _). rewrite Hs.
    destruct (List.filter (extract.contains extract.SYNTAXES) l)
      as [|x kept] eqn:E; [now split|].
    split; [discriminate|].
    apply Forall_forall. intros y Hy. apply list_elem_of_In in Hy.
    rewrite <- E in Hy. apply filter_In in Hy as [_ Hy].
    now apply index_first_occurrence in Hy.
Qed.

(** ** The further properties at concrete inputs *)

Lemma base_url_only_matters_to_url_properties_witness :
  url_free color_page = true
  /\ W3CMicrodata plain_url_Parse (fun _ => color_page)
       "http://host.example/" "colors" =
     W3CMicrodata (fun _ => None) (fun _ => color_page) "nowhere" "colors".
Proof.
  split; [reflexivity|].
  exact (base_url_only_matters_to_url_properties plain_url_Parse
           (fun _ => None) (fun _ => color_page) "http://host.example/"
           "nowhere" "colors" eq_refl).
Defined.

Lemma unparsable_base_url_leaves_href_witness :
  plain_url_Parse "://host.example/base" = None
  /\ scanned (item_of [path_anchor]) path_anchor
  /\ property_element path_anchor "url"
  /\ holds
       (Properties
          (parseProperties plain_url_Parse (item_of [path_anchor])
             (mkItem "" None ∅) "://host.example/base")
          !! "url")
       (VString "/path").
Proof.
  assert (H0 : scanned (item_of [path_anchor]) path_anchor)
    by (apply scanned_child; simpl; auto).
  assert (H1 : property_element path_anchor "url")
    by (repeat split; try reflexivity; discriminate).
  split; [reflexivity|]. split; [exact H0|]. split; [exact H1|].
  exact (unparsable_base_url_leaves_href plain_url_Parse
           "://host.example/base" (item_of [path_anchor]) path_anchor "url"
           "" None eq_refl H0 H1 eq_refl eq_refl).
Defined.

Lemma configured_syntaxes_supported_witness :
  extract.syntaxes
    (extract.cfg
       (extract.SetSyntaxes (extract.SetUserAgent (@extract.New unit) "bot")
          ["rdfa"; extract.SyntaxJSONLD])) <> []
  /\ Forall (fun x => In x extract.SYNTAXES)
       (extract.syntaxes
          (extract.cfg
             (extract.SetSyntaxes
                (extract.SetUserAgent (@extract.New unit) "bot")
                ["rdfa"; extract.SyntaxJSONLD]))).
Proof.
  exact (configured_syntaxes_supported _
           (extract.configured_SetSyntaxes _ ["rdfa"; extract.SyntaxJSONLD]
              (extract.configured_SetUserAgent _ "bot"
                 extract.configured_New))).
Defined.

Lemma xcards_last_tag_wins_witness :
  run_tags (parseXCardsMetaTag unit tt (fun _ => None) (fun _ _ => None))
    card_tags XCards.zero = Some card_after_tags
  /\ XCards.Title card_after_tags = "Second"
  /\ XCards.LocaleAlternate card_after_tags = ["fr"; "de"].
Proof.
  assert (H : run_tags
                (parseXCardsMetaTag unit tt (fun _ => None)
                   (fun _ _ => None))
                card_tags XCards.zero = Some card_after_tags)
    by reflexivity.
  destruct (xcards_last_tag_wins unit tt (fun _ => None) (fun _ _ => None)
              card_tags XCards.zero card_after_tags H)
    as (_ & _ & _ & _ & E5 & _ & _ & _ & _ & _ & E11 & _).
  split; [exact H|]. split; [exact E5 | exact E11].
Defined.

Lemma opengraph_last_tag_wins_witness :
  run_tags (parseOpenGraphMetaTag unit tt (fun _ => None) (fun _ _ => None))
    object_tags OpenGraph.zero = Some object_after_tags
  /\ OpenGraph.Title object_after_tags = "Second"
  /\ OpenGraph.LocaleAlternate object_after_tags = ["fr"; "de"].
Proof.
  assert (H : run_tags
                (parseOpenGraphMetaTag unit tt (fun _ => None)
                   (fun _ _ => None))
                object_tags OpenGraph.zero = Some object_after_tags)
    by reflexivity.
  destruct (opengraph_last_tag_wins unit tt (fun _ => None)
              (fun _ _ => None) object_tags OpenGraph.zero
              object_after_tags H)
    as (_ & E2 & _ & _ & _ & _ & _ & E8).
  split; [exact H|]. split; [exact E2 | exact E8].
Defined.

Lemma xcards_earlier_entries_are_final_witness :
  run_tags (parseXCardsMetaTag unit tt (fun _ => None) (fun _ _ => None))
    later_image_tags two_images_card = Some three_images_card
  /\ settled (XCards.XCardsImage two_images_card)
             (XCards.XCardsImage three_images_card).
Proof.
  assert (H : run_tags
                (parseXCardsMetaTag unit tt (fun _ => None)
                   (fun _ _ => None))
                later_image_tags two_images_card = Some three_images_card)
    by reflexivity.
  split; [exact H|].
  exact (proj1 (xcards_earlier_entries_are_final unit tt (fun _ => None)
                  (fun _ _ => None) later_image_tags two_images_card
                  three_images_card H)).
Defined.

Lemma opengraph_earlier_entries_are_final_witness :
  run_tags (parseOpenGraphMetaTag unit tt (fun _ => None) (fun _ _ => None))
    later_object_tags two_images_object = Some three_images_object
  /\ settled (OpenGraph.OpenGraphImage two_images_object)
             (OpenGraph.OpenGraphImage three_images_object).
Proof.
  assert (H : run_tags
                (parseOpenGraphMetaTag unit tt (fun _ => None)
                   (fun _ _ => None))
                later_object_tags two_images_object =
              Some three_images_object)
    by reflexivity.
  split; [exact H|].
  exact (proj1 (opengraph_earlier_entries_are_final unit tt (fun _ => None)
                  (fun _ _ => None) later_object_tags two_images_object
                  three_images_object H)).
Defined.

Lemma shared_objects_parsed_alike_witness :
  strings.HasPrefix "music:album" "twitter:" = false
  /\ strings.HasPrefix "music:album" "og:" = false
  /\ match parseXCardsMetaTag unit tt (fun _ => None) (fun _ _ => None)
             XCards.zero "music:album" "m",
           parseOpenGraphMetaTag unit tt (fun _ => None) (fun _ _ => None)
             OpenGraph.zero "music:album" "m" with
     | Some xc', Some og' =>
         XCards.Music xc' = OpenGraph.Music og'
         /\ XCards.Video xc' = OpenGraph.Video og'
         /\ XCards.Article xc' = OpenGraph.Article og'
         /\ XCards.Book xc' = OpenGraph.Book og'
         /\ XCards.Profile xc' = OpenGraph.Profile og'
     | None, None => True
     | _, _ => False
     end.
Proof.
  split; [reflexivity|]. split; [reflexivity|].
  exact (shared_objects_parsed_alike unit tt (fun _ => None)
           (fun _ _ => None) XCards.zero OpenGraph.zero "music:album" "m"
           eq_refl eq_refl eq_refl eq_refl eq_refl eq_refl eq_refl).
Defined.
